(** * The mshtml dispatch engine (dlls/mshtml/dispex.c)

    A shallow embedding of the IDispatchEx implementation of mshtml:
    the compiled member tables, the dynamic property store, the builtin
    invocation engine and the function wrapper objects, followed by the
    properties proved about them.

    Conventions of the embedding.
    - HRESULT, DISPID and VARTYPE are C integers; they are kept as [Z] with
      the numeric values of the Windows headers (an HRESULT is a signed
      32-bit LONG, so failure codes are negative).
    - WCHAR strings are [string]; [wcscmp]/[wcsicmp] are written out.
    - A DISPPARAMS holds its [rgvarg] array as a list in ARRAY order; the
      count [cArgs] is the length of that list.  As in COM, the array is
      stored in reverse positional order: positional argument [i] is
      [rgvarg[cArgs-i-1]].
    - Pointers to COM objects are handles ([objref]); DispatchEx objects
      live in a heap indexed by handle, so that a prototype shared by
      several instances is one shared object.
    - Allocation is assumed to succeed (the E_OUTOFMEMORY exits are not
      modelled) and reference counts are not tracked.
    - A result of type [option] is [None] for a run that has no defined
      result in C (a NULL or dangling pointer is used, a variable is read
      before it is assigned) or that exceeds the recursion budget [fuel]
      of the embedding.
    - Everything outside dispex.c (oleaut32, the type library, the native
      vtable slots, script-side IDispatch objects) is a field of [host_t]. *)

From Stdlib Require Import ZArith List String Ascii Bool Lia DecimalString.
From Stdlib Require Import Sorted Permutation.
From stdpp Require Import base gmap list strings.

Local Open Scope Z_scope.

(** ** Scalar types and constants *)

Definition HRESULT := Z.
Definition DISPID := Z.
Definition VARTYPE := Z.
Definition IID := Z.
Definition tid_t := nat.
Definition compat_mode_t := Z.
Definition objref := nat.

(** Reinterpretation of an integer as a signed 32-bit LONG. *)
Definition LONG (z : Z) : Z := (z + 2147483648) mod 4294967296 - 2147483648.

(** Reinterpretation of an integer as a signed 16-bit SHORT. *)
Definition SHORT (z : Z) : Z := (z + 32768) mod 65536 - 32768.

Definition S_OK : HRESULT := 0.
Definition S_FALSE : HRESULT := 1.
Definition E_NOTIMPL : HRESULT := -2147467263.                  (* 0x80004001 *)
Definition E_FAIL : HRESULT := -2147467259.                     (* 0x80004005 *)
Definition E_UNEXPECTED : HRESULT := -2147418113.               (* 0x8000FFFF *)
Definition E_ACCESSDENIED : HRESULT := -2147024891.             (* 0x80070005 *)
Definition E_INVALIDARG : HRESULT := -2147024809.               (* 0x80070057 *)
Definition DISP_E_MEMBERNOTFOUND : HRESULT := -2147352573.      (* 0x80020003 *)
Definition DISP_E_UNKNOWNNAME : HRESULT := -2147352570.         (* 0x80020006 *)
Definition CTL_E_ILLEGALFUNCTIONCALL : HRESULT := -2146828283.  (* 0x800A0005 *)
Definition MSHTML_E_INVALID_PROPERTY : HRESULT := -2146827850.  (* 0x800A01B6 *)

Definition FAILED (hr : HRESULT) : bool := hr <? 0.
Definition SUCCEEDED (hr : HRESULT) : bool := 0 <=? hr.

Definition VT_EMPTY : VARTYPE := 0.
Definition VT_NULL : VARTYPE := 1.
Definition VT_I2 : VARTYPE := 2.
Definition VT_I4 : VARTYPE := 3.
Definition VT_R4 : VARTYPE := 4.
Definition VT_BSTR : VARTYPE := 8.
Definition VT_DISPATCH : VARTYPE := 9.
Definition VT_ERROR : VARTYPE := 10.
Definition VT_BOOL : VARTYPE := 11.
Definition VT_VARIANT : VARTYPE := 12.
Definition VT_UNKNOWN : VARTYPE := 13.
Definition VT_UI2 : VARTYPE := 18.
Definition VT_UI4 : VARTYPE := 19.
Definition VT_UI8 : VARTYPE := 21.
Definition VT_VOID : VARTYPE := 24.
Definition VT_PTR : VARTYPE := 26.
Definition VT_USERDEFINED : VARTYPE := 29.
Definition VT_BYREF : VARTYPE := 16384.                         (* 0x4000 *)

Definition DISPATCH_METHOD : Z := 1.
Definition DISPATCH_PROPERTYGET : Z := 2.
Definition DISPATCH_PROPERTYPUT : Z := 4.
Definition DISPATCH_PROPERTYPUTREF : Z := 8.
Definition DISPATCH_CONSTRUCT : Z := 16384.

Definition fdexNameCaseSensitive : Z := 1.
Definition fdexNameEnsure : Z := 2.
Definition fdexNameCaseInsensitive : Z := 8.

Definition DISPID_VALUE : DISPID := 0.
Definition DISPID_UNKNOWN : DISPID := -1.
Definition DISPID_PROPERTYPUT : DISPID := -3.
Definition DISPID_STARTENUM : DISPID := DISPID_UNKNOWN.

Definition DISPID_DYNPROP_0 : DISPID := 1342177280.             (* 0x50000000 *)
Definition DISPID_DYNPROP_MAX : DISPID := 1610612735.           (* 0x5fffffff *)

(** mshtml_private.h is not part of the sources at hand; the custom
    identifier range and the compat_mode_t enumeration are taken with the
    values that header declares.  The theorems below only use their order. *)
Definition MSHTML_DISPID_CUSTOM_MIN : DISPID := 1610612736.     (* 0x60000000 *)
Definition MSHTML_DISPID_CUSTOM_MAX : DISPID := 1879048191.     (* 0x6fffffff *)

Definition COMPAT_MODE_QUIRKS : compat_mode_t := 0.
Definition COMPAT_MODE_IE5 : compat_mode_t := 1.
Definition COMPAT_MODE_IE7 : compat_mode_t := 2.
Definition COMPAT_MODE_IE8 : compat_mode_t := 3.
Definition COMPAT_MODE_IE9 : compat_mode_t := 4.
Definition COMPAT_MODE_IE10 : compat_mode_t := 5.
Definition COMPAT_MODE_IE11 : compat_mode_t := 6.

(** GUIDs are compared only for equality; they are numbered. *)
Definition IID_NULL : IID := 0.
Definition IID_IDispatchEx : IID := 1.


Definition DYNPROP_DELETED : Z := 1.
Definition DYNPROP_HIDDEN : Z := 2.
Definition DYNPROP_PROTREF : Z := 4.

(** [flags & mask] as a C condition. *)
Definition has_flag (flags mask : Z) : bool := negb (Z.land flags mask =? 0).

(** ** Strings *)

Definition nl : string := String "010" EmptyString.

Definition towlower (c : ascii) : ascii :=
  let n := nat_of_ascii c in
  if (65 <=? n)%nat && (n <=? 90)%nat then ascii_of_nat (n + 32) else c.

Fixpoint wcscmp (a b : string) : Z :=
  match a, b with
  | EmptyString, EmptyString => 0
  | EmptyString, String _ _ => -1
  | String _ _, EmptyString => 1
  | String x a', String y b' =>
      if (nat_of_ascii x =? nat_of_ascii y)%nat then wcscmp a' b'
      else if (nat_of_ascii x <? nat_of_ascii y)%nat then -1 else 1
  end.

Fixpoint wcslwr (a : string) : string :=
  match a with
  | EmptyString => EmptyString
  | String x a' => String (towlower x) (wcslwr a')
  end.

Definition wcsicmp (a b : string) : Z := wcscmp (wcslwr a) (wcslwr b).

(** ** VARIANT and DISPPARAMS *)

Inductive VARDATA :=
| D_none
| D_int (z : Z)
| D_bstr (s : option string)
| D_disp (d : option objref).

Record VARIANT := mkVARIANT { V_VT : VARTYPE; V_DATA : VARDATA }.

Definition VariantInit : VARIANT := mkVARIANT VT_EMPTY D_none.

Definition V_DISPATCH (v : VARIANT) : option objref :=
  match V_DATA v with D_disp d => d | _ => None end.

Definition V_I4 (v : VARIANT) : Z :=
  match V_DATA v with D_int z => z | _ => 0 end.

(** The [V_UI4] member read back as an array index. *)
Definition V_UI4 (v : VARIANT) : nat := Z.to_nat (V_I4 v).

Definition variant_bool (b : bool) : Z := if b then -1 else 0.

Record DISPPARAMS := mkDISPPARAMS {
  rgvarg : list VARIANT;
  rgdispidNamedArgs : list DISPID
}.

Definition cArgs (dp : DISPPARAMS) : nat := length (rgvarg dp).
Definition cNamedArgs (dp : DISPPARAMS) : nat := length (rgdispidNamedArgs dp).

(** The caller-identity token: an IServiceProvider, which may or may not
    offer the SID_VariantConversion service. *)
Record IServiceProvider := {
  IVariantChangeType_ChangeType : option (VARIANT -> VARTYPE -> HRESULT * VARIANT)
}.

(** ** Member descriptors *)

Definition dispex_hook_invoke_t : Type :=
  Z -> DISPPARAMS -> option IServiceProvider -> HRESULT * option VARIANT.

Record func_arg_info_t := {
  iid : IID;
  default_value : VARIANT
}.

Record func_info_t := {
  func_id : DISPID;
  func_name : string;
  tid : tid_t;
  hook : option dispex_hook_invoke_t;
  call_vtbl_off : Z;
  put_vtbl_off : Z;
  get_vtbl_off : Z;
  func_disp_idx : Z;
  argc : nat;
  default_value_cnt : nat;
  prop_vt : VARTYPE;
  arg_types : list VARTYPE;
  arg_info : list func_arg_info_t
}.

(** An entry of the hook list handed to dispex_info_add_interface. *)
Record dispex_hook_t := {
  hook_dispid : DISPID;
  hook_invoke : option dispex_hook_invoke_t;
  hook_name : option string
}.

(** The init_info hooks of the class descriptors.  [struct dispex_data_t]
    is private to dispex.c, and dispex_info_add_interface is the one
    exported function that takes it: the hook of a class defined in
    another file acts on the table under construction only through its
    calls of dispex_info_add_interface, and is given by the arguments of
    the calls it makes in a compatibility mode.
    legacy_prototype_init_dispex_info is the hook that dispex.c itself
    installs, on the elements of legacy_prototype_dispex. *)
Inductive init_info_t :=
| init_info_interfaces
    (calls : compat_mode_t -> list (tid_t * option (list dispex_hook_t)))
| init_info_legacy_prototype.

(** ** The type library (oleaut32) *)

Record ELEMDESC := {
  tdesc_vt : VARTYPE;
  lptdesc_vt : VARTYPE;          (* tdesc.u.lptdesc->vt when tdesc_vt = VT_PTR *)
  hreftype : nat;                (* tdesc.u.lptdesc->u.hreftype *)
  wParamFlags : Z;
  varDefaultValue : VARIANT
}.

Record FUNCDESC := {
  memid : DISPID;
  invkind : Z;
  wFuncFlags : Z;
  cParamsOpt : nat;
  elemdescFunc_vt : VARTYPE;
  lprgelemdescParam : list ELEMDESC;
  oVft : Z
}.

Definition cParams (d : FUNCDESC) : nat := length (lprgelemdescParam d).

Definition FUNCFLAG_FRESTRICTED : Z := 1.
Definition FUNCFLAG_FHIDDEN : Z := 64.
Definition PARAMFLAG_FHASDEFAULT : Z := 32.

Record ITypeInfo := {
  GetFuncDesc : list FUNCDESC;                       (* in index order *)
  GetDocumentation : DISPID -> HRESULT * string;     (* the member name *)
  GetRefTypeGuid : nat -> HRESULT * IID;             (* GetRefTypeInfo + GetTypeAttr *)
  ITypeInfo_Invoke :
    objref -> DISPID -> Z -> DISPPARAMS -> HRESULT * option VARIANT
}.

(** ** The host: everything dispex.c calls but does not define *)

Record host_t := {
  get_typeinfo : tid_t -> HRESULT * option ITypeInfo;
  tid_ids : tid_t -> IID;
  VariantChangeType : VARIANT -> VARTYPE -> HRESULT * VARIANT;
  (* IUnknown::QueryInterface on an arbitrary COM object *)
  QueryInterface : objref -> IID -> HRESULT * option objref;
  (* whether the interface belongs to a DispatchEx that a hook can run on *)
  get_dispex_for_hook : objref -> option objref;
  (* DispCallFunc(iface, off, CC_STDCALL, VT_ERROR, n, types, args, &vhres):
     its own result, the callee's HRESULT, and what the callee stored
     through the trailing by-reference return slot *)
  DispCallFunc :
    objref -> Z -> list VARTYPE -> list VARIANT -> HRESULT * HRESULT * VARDATA;
  (* the property accessors reached through iface->lpVtbl[off] *)
  vtbl_get : objref -> Z -> HRESULT * VARDATA;
  (* the getter of a VT_VARIANT property, which stores a whole VARIANT *)
  vtbl_get_variant : objref -> Z -> HRESULT * VARIANT;
  vtbl_put : objref -> Z -> VARIANT -> HRESULT;
  (* script-side objects reached through IDispatch / IDispatchEx *)
  IDispatchEx_GetDispID : objref -> string -> Z -> HRESULT * DISPID;
  IDispatch_GetIDsOfNames : objref -> string -> HRESULT * DISPID;
  IDispatchEx_InvokeEx :
    objref -> DISPID -> Z -> option DISPPARAMS -> option IServiceProvider ->
    HRESULT * VARIANT;
  IDispatch_Invoke : objref -> DISPID -> Z -> option DISPPARAMS -> HRESULT * VARIANT;
  sizeof_ptr : Z                                      (* sizeof(void* ) *)
}.

(** The types handled by BUILTIN_ARG_TYPES_SWITCH and BUILTIN_TYPES_SWITCH. *)
Definition is_arg_type_supported (vt : VARTYPE) : bool :=
  (vt =? VT_I2) || (vt =? VT_UI2) || (vt =? VT_I4) || (vt =? VT_UI4) ||
  (vt =? VT_R4) || (vt =? VT_BSTR) || (vt =? VT_DISPATCH) || (vt =? VT_BOOL).

Definition is_builtin_type (vt : VARTYPE) : bool :=
  is_arg_type_supported vt ||
  (vt =? VT_VARIANT) || (vt =? VT_PTR) || (vt =? VT_UNKNOWN) || (vt =? VT_UI8).

(** ** Objects *)

Record dynamic_prop_t := {
  var : VARIANT;
  name : string;
  flags : Z
}.

(** [prop_cnt] is the length of [props]; [buf_size] is the allocated
    capacity of the array. *)
Record dispex_dynamic_data_t := {
  buf_size : nat;
  props : list dynamic_prop_t
}.

Definition prop_cnt (d : dispex_dynamic_data_t) : nat := length (props d).

(** The member table under construction: what add_func_info updates. *)
Record func_table := {
  funcs : list func_info_t;
  func_disp_cnt : nat
}.

Definition func_cnt (t : func_table) : nat := length (funcs t).

(** The class hooks of dispex_static_data_vtbl_t that the modelled code
    reaches.  The hooks receive the object in C; here they act on what
    they are given. *)
Record dispex_static_data_vtbl_t := {
  vtbl_invoke :
    option (DISPID -> Z -> DISPPARAMS -> option IServiceProvider ->
            HRESULT * option VARIANT);
  vtbl_delete : option (DISPID -> HRESULT);
  next_dispid : option (DISPID -> HRESULT * DISPID);
  populate_props : option (dispex_dynamic_data_t -> dispex_dynamic_data_t)
}.

Record dispex_static_data_t := {
  desc_name : string;
  vtbl : option dispex_static_data_vtbl_t;
  disp_tid : tid_t;
  iface_tids : list tid_t;
  init_info : option init_info_t
}.

(** A compiled member table.  [name_table] holds indices into [funcs]. *)
Record dispex_data_t := {
  desc : dispex_static_data_t;
  compat_mode : compat_mode_t;
  table : func_table;
  name_table : list nat
}.

(** Objects are modelled once their member table is resolved (the state in
    which ensure_real_info returns TRUE without doing anything), so that
    dispex_compat_mode is the mode recorded in the table, and without a
    script proxy ([This->proxy == NULL]), the state in which mshtml itself
    answers the IDispatchEx calls instead of forwarding them.  The
    function-object cache [func_disps] is not part of the model. *)
Record DispatchEx := {
  info : dispex_data_t;
  prototype : option objref;
  dynamic_data : option dispex_dynamic_data_t
}.

Abbreviation heap := (gmap nat DispatchEx).

Definition dispex_compat_mode (This : DispatchEx) : compat_mode_t :=
  compat_mode (info This).

Definition set_dynamic_data (This : DispatchEx) (d : dispex_dynamic_data_t)
  : DispatchEx :=
  {| info := info This; prototype := prototype This; dynamic_data := Some d |}.

Definition set_props (d : dispex_dynamic_data_t) (l : list dynamic_prop_t)
  : dispex_dynamic_data_t :=
  {| buf_size := buf_size d; props := l |}.

Definition set_flags (p : dynamic_prop_t) (f : Z) : dynamic_prop_t :=
  {| var := var p; name := name p; flags := f |}.

(** Function wrapper objects.  The C union of [obj] and [idx] is kept as
    two fields; [fn_info = None] marks an intrinsic facet. *)
Record func_disp_t := {
  fn_obj : option objref;
  fn_idx : nat;
  fn_info : option func_info_t
}.

Definition function_props : list string := ["apply"%string; "call"%string].

(** ** Identifier spaces *)

Inductive dispex_prop_type_t :=
| DISPEXPROP_CUSTOM
| DISPEXPROP_DYNAMIC
| DISPEXPROP_BUILTIN.

Definition is_custom_dispid (id : DISPID) : bool :=
  (MSHTML_DISPID_CUSTOM_MIN <=? id) && (id <=? MSHTML_DISPID_CUSTOM_MAX).

Definition is_dynamic_dispid (id : DISPID) : bool :=
  (DISPID_DYNPROP_0 <=? id) && (id <=? DISPID_DYNPROP_MAX).

Definition get_dispid_type (id : DISPID) : dispex_prop_type_t :=
  if is_dynamic_dispid id then DISPEXPROP_DYNAMIC
  else if is_custom_dispid id then DISPEXPROP_CUSTOM
  else DISPEXPROP_BUILTIN.

(** [DWORD idx = id - base]: the unsigned 32-bit difference. *)
Definition DWORD_sub (id base : Z) : nat := Z.to_nat ((id - base) mod 4294967296).

(** VariantCopy of an immutable value; variant_copy only special-cases the
    NULL BSTR, which copies to itself. *)
Definition variant_copy (src : VARIANT) : HRESULT * VARIANT := (S_OK, src).

Definition VariantClear (v : VARIANT) : VARIANT := VariantInit.

(** ** The member invocation engine *)

Section Engine.

Context (H : host_t).

Definition change_type (src : VARIANT) (vt : VARTYPE)
    (caller : option IServiceProvider) : HRESULT * VARIANT :=
  let provided :=
    match caller with
    | Some sp =>
        match IVariantChangeType_ChangeType sp with
        | Some conv =>
            let '(hres, dst) := conv src vt in
            if SUCCEEDED hres then Some dst else None
        | None => None
        end
    | None => None
    end in
  match provided with
  | Some dst => (S_OK, dst)
  | None =>
      if (vt =? VT_BOOL) && (V_VT src =? VT_BSTR) then
        let nonempty :=
          match V_DATA src with
          | D_bstr (Some s) => negb (String.eqb s "")
          | _ => false
          end in
        (S_OK, mkVARIANT VT_BOOL (D_int (variant_bool nonempty)))
      else if ((vt =? VT_UNKNOWN) || (vt =? VT_DISPATCH)) &&
              ((V_VT src =? VT_EMPTY) || (V_VT src =? VT_NULL)) then
        (S_OK, mkVARIANT vt (D_disp None))
      else VariantChangeType H src vt
  end.

(** The argument window handed to ITypeInfo::Invoke: when more than [argc]
    arguments were passed, [rgvarg] is advanced past the excess. *)
Definition typeinfo_invoke (iface : objref) (func : func_info_t) (flags : Z)
    (dp : DISPPARAMS) : HRESULT * option VARIANT :=
  let params :=
    if (argc func <? cArgs dp)%nat
    then mkDISPPARAMS (drop (cArgs dp - argc func) (rgvarg dp)) []
    else mkDISPPARAMS (rgvarg dp) [] in
  match get_typeinfo H (tid func) with
  | (hres, Some ti) =>
      if FAILED hres then (hres, None)
      else ITypeInfo_Invoke ti iface (func_id func) flags params
  | (hres, None) => (hres, None)
  end.

Definition builtin_propget (iface : objref) (func : func_info_t)
    (dp : option DISPPARAMS) : HRESULT * option VARIANT :=
  if match dp with Some p => negb (cArgs p =? 0)%nat | None => false end
  then (E_NOTIMPL, None)
  else if prop_vt func =? VT_VARIANT then
    (* [*res = val]: the result keeps the type tag the getter stored *)
    let '(hres, val) := vtbl_get_variant H iface (get_vtbl_off func) in
    if FAILED hres then (hres, None) else (S_OK, Some val)
  else if is_builtin_type (prop_vt func) then
    let '(hres, val) := vtbl_get H iface (get_vtbl_off func) in
    if FAILED hres then (hres, None)
    else (S_OK, Some (mkVARIANT
                 (if prop_vt func =? VT_PTR then VT_DISPATCH else prop_vt func) val))
  else (E_NOTIMPL, None).

Definition builtin_propput (This : DispatchEx) (iface : objref)
    (func : func_info_t) (dp : DISPPARAMS) (caller : option IServiceProvider)
    : HRESULT :=
  if negb (cArgs dp =? 1)%nat ||
     ((cNamedArgs dp =? 1)%nat &&
      negb (hd 0 (rgdispidNamedArgs dp) =? DISPID_PROPERTYPUT)) ||
     (1 <? cNamedArgs dp)%nat
  then E_INVALIDARG
  else if put_vtbl_off func =? 0 then
    if COMPAT_MODE_IE9 <=? dispex_compat_mode This then S_OK else E_FAIL
  else
    let v := hd VariantInit (rgvarg dp) in
    let conv :=
      if negb (prop_vt func =? VT_VARIANT) && negb (V_VT v =? prop_vt func)
      then change_type v (prop_vt func) caller
      else (S_OK, v) in
    if FAILED (fst conv) then fst conv
    else if is_builtin_type (prop_vt func)
    then vtbl_put H iface (put_vtbl_off func) (snd conv)
    else E_NOTIMPL.

(** One iteration of the argument loop of invoke_builtin_function for
    parameter [i]: the pointer stored in [arg_ptrs[i]], or the failure
    that breaks out of the loop. *)
Definition marshal_arg (func : func_info_t) (dp : DISPPARAMS)
    (caller : option IServiceProvider) (i : nat) : HRESULT + VARIANT :=
  let ai := nth i (arg_info func) {| iid := IID_NULL; default_value := VariantInit |} in
  if (cArgs dp <=? i)%nat then inr (default_value ai)
  else
    let arg := nth (cArgs dp - i - 1) (rgvarg dp) VariantInit in
    let ty := nth i (arg_types func) VT_EMPTY in
    let conv := if ty =? V_VT arg then (S_OK, arg) else change_type arg ty caller in
    if FAILED (fst conv) then inl (fst conv)
    else
      match V_DISPATCH (snd conv) with
      | Some d =>
          if (ty =? VT_DISPATCH) && negb (iid ai =? IID_NULL) then
            let '(hres, iface) := QueryInterface H d (iid ai) in
            if FAILED hres then inl hres
            else inr (mkVARIANT (V_VT (snd conv)) (D_disp iface))
          else inr (snd conv)
      | None => inr (snd conv)
      end.

(** The loop [for(i=0; i < func->argc; i++)], from index [i] for [n] more
    iterations. *)
Fixpoint marshal_args (func : func_info_t) (dp : DISPPARAMS)
    (caller : option IServiceProvider) (n i : nat) : HRESULT + list VARIANT :=
  match n with
  | O => inr []
  | S n' =>
      match marshal_arg func dp caller i with
      | inl hres => inl hres
      | inr a =>
          match marshal_args func dp caller n' (S i) with
          | inl hres => inl hres
          | inr l => inr (a :: l)
          end
      end
  end.

(** The native call through [call_vtbl_off] and the assembly of [retv]. *)
Definition call_native (iface : objref) (func : func_info_t)
    (args : list VARIANT) (res : bool) : HRESULT * option VARIANT :=
  let '(hres, vhres, data) :=
    DispCallFunc H iface (call_vtbl_off func) (arg_types func) args in
  let retv :=
    if prop_vt func =? VT_VOID then mkVARIANT VT_EMPTY D_none
    else if prop_vt func =? VT_PTR then mkVARIANT VT_DISPATCH data
    else mkVARIANT (prop_vt func) data in
  if FAILED hres then (hres, None)
  else if FAILED vhres then (vhres, None)
  else (vhres, if res then Some retv else None).

(** [res] tells whether the caller passed a result slot. *)
Definition invoke_builtin_function (this_obj : objref) (func : func_info_t)
    (dp : DISPPARAMS) (res : bool) (caller : option IServiceProvider)
    : HRESULT * option VARIANT :=
  match QueryInterface H this_obj (tid_ids H (tid func)) with
  | (hres, Some iface) =>
      if FAILED hres then (E_UNEXPECTED, None)
      else
        let hooked :=
          match hook func, get_dispex_for_hook H iface with
          | Some hk, Some _ =>
              let r := hk DISPATCH_METHOD dp caller in
              if fst r =? S_FALSE then None else Some r
          | _, _ => None
          end in
        match hooked with
        | Some r => r
        | None =>
            if call_vtbl_off func =? 0
            then typeinfo_invoke iface func DISPATCH_METHOD dp
            else if (cArgs dp + default_value_cnt func <? argc func)%nat
            then (E_INVALIDARG, None)
            else
              match marshal_args func dp caller (argc func) 0 with
              | inl hres => (hres, None)
              | inr args => call_native iface func args res
              end
        end
  | (_, None) => (E_UNEXPECTED, None)
  end.

(** ** Function wrapper objects *)

Definition func_prefixW : string := nl +:+ "function ".
Definition func_suffixW : string :=
  "() {" +:+ nl +:+ "    [native code]" +:+ nl +:+ "}" +:+ nl.

(** [res] tells whether the caller passed a result slot.  [None] is a run
    that does not return: the DISPATCH_PROPERTYGET case stores through
    [res] without testing it, and the name of an intrinsic facet is read
    from [function_props[This->idx]]. *)
Definition function_value (This : func_disp_t) (flags : Z) (params : DISPPARAMS)
    (res : bool) (caller : option IServiceProvider)
    : option (HRESULT * option VARIANT) :=
  let method :=
    match fn_info This with
    | None => (MSHTML_E_INVALID_PROPERTY, None)
    | Some fi =>
        match fn_obj This with
        | None => (E_UNEXPECTED, None)
        | Some o => invoke_builtin_function o fi params res caller
        end
    end in
  if flags =? DISPATCH_CONSTRUCT then Some (MSHTML_E_INVALID_PROPERTY, None)
  else if flags =? Z.lor DISPATCH_METHOD DISPATCH_PROPERTYGET then
    if res then Some method else Some (E_INVALIDARG, None)
  else if flags =? DISPATCH_METHOD then Some method
  else if flags =? DISPATCH_PROPERTYGET then
    match caller with
    | None => Some (E_ACCESSDENIED, None)
    | Some _ =>
        nm ← match fn_info This with
             | Some fi => Some (func_name fi)
             | None => function_props !! fn_idx This
             end;
        if res
        then Some (S_OK, Some (mkVARIANT VT_BSTR
                                 (D_bstr (Some (func_prefixW +:+ nm +:+ func_suffixW)))))
        else None                                 (* V_VT(res) = VT_BSTR *)
    end
  else Some (E_NOTIMPL, None).

(** The loop of function_get_dispid over function_props, from index [i]. *)
Fixpoint function_props_find (nm : string) (flags : Z) (l : list string)
    (i : nat) : option nat :=
  match l with
  | [] => None
  | p :: l' =>
      if negb ((if has_flag flags fdexNameCaseInsensitive
                then wcsicmp nm p else wcscmp nm p) =? 0)
      then function_props_find nm flags l' (S i)
      else Some i
  end.

Definition function_get_dispid (This : func_disp_t) (nm : string) (flags : Z)
    : HRESULT * option DISPID :=
  match fn_info This with
  | None => (DISP_E_UNKNOWNNAME, None)        (* can't chain apply/call *)
  | Some _ =>
      match function_props_find nm flags function_props 0 with
      | Some i => (S_OK, Some (MSHTML_DISPID_CUSTOM_MIN + Z.of_nat i))
      | None => (DISP_E_UNKNOWNNAME, None)
      end
  end.

Definition function_get_name (This : func_disp_t) (id : DISPID)
    : HRESULT * option string :=
  let idx := DWORD_sub id MSHTML_DISPID_CUSTOM_MIN in
  if (length function_props <=? idx)%nat ||
     match fn_info This with None => true | Some _ => false end
  then (DISP_E_MEMBERNOTFOUND, None)
  else (S_OK, Some (nth idx function_props ""%string)).

End Engine.

Section FunctionFacets.

Context (H : host_t).

Definition illegal_if_unexpected (hres : HRESULT) : HRESULT :=
  if hres =? E_UNEXPECTED then CTL_E_ILLEGALFUNCTIONCALL else hres.

(** [swprintf(buf, L"%u", i)] *)
Definition index_name (i : nat) : string :=
  DecimalString.NilEmpty.string_of_uint (Nat.to_uint i).

(** Name lookup and property read on the array-like object: through
    IDispatchEx when the object offers it, through IDispatch otherwise. *)
Definition array_get_id (disp : objref) (dispex : option objref) (nm : string)
    : HRESULT * DISPID :=
  match dispex with
  | Some dx => IDispatchEx_GetDispID H dx nm fdexNameCaseSensitive
  | None => IDispatch_GetIDsOfNames H disp nm
  end.

Definition array_get (disp : objref) (dispex : option objref) (dispid : DISPID)
    (params : option DISPPARAMS) (caller : option IServiceProvider)
    : HRESULT * VARIANT :=
  match dispex with
  | Some dx => IDispatchEx_InvokeEx H dx dispid DISPATCH_PROPERTYGET params caller
  | None => IDispatch_Invoke H disp dispid DISPATCH_PROPERTYGET params
  end.

(** The loop of function_apply that reads the indexed properties, from
    index [i] for [n] more iterations.  The result is in positional order
    (index [i] is written to [rgvarg[cArgs-i-1]]); [inl] is the [hres] the
    loop broke with. *)
Fixpoint apply_args (disp : objref) (dispex : option objref)
    (caller : option IServiceProvider) (n i : nat) : HRESULT + list VARIANT :=
  match n with
  | O => inr []
  | S n' =>
      let rest (a : VARIANT) :=
        match apply_args disp dispex caller n' (S i) with
        | inl hres => inl hres
        | inr l => inr (a :: l)
        end in
      let '(hres, dispid) := array_get_id disp dispex (index_name i) in
      if FAILED hres then
        if hres =? DISP_E_UNKNOWNNAME then rest VariantInit
        else inl CTL_E_ILLEGALFUNCTIONCALL
      else
        let '(hres, v) := array_get disp dispex dispid None caller in
        if FAILED hres then inl hres else rest v
  end.

(** function_apply.  [None] stands for a NULL dereference in the C code
    (no result slot although an argument array is passed, a NULL
    array object, or a wrapper without member info). The second component
    of the result is what [*res] holds if it was written. *)
Definition function_apply (func : func_disp_t) (dp : DISPPARAMS) (res : bool)
    (caller : option IServiceProvider) : option (HRESULT * option VARIANT) :=
  let arg := nth (cArgs dp - 1) (rgvarg dp) VariantInit in
  match V_DISPATCH arg with
  | Some this_obj =>
      if (cArgs dp <? 1)%nat || negb (V_VT arg =? VT_DISPATCH)
      then Some (CTL_E_ILLEGALFUNCTIONCALL, None)
      else if (2 <=? cArgs dp)%nat then
        let arg2 := nth (cArgs dp - 2) (rgvarg dp) VariantInit in
        if negb (Z.land (V_VT arg2) 49151 =? VT_DISPATCH)
        then Some (CTL_E_ILLEGALFUNCTIONCALL, None)
        else
          disp ← V_DISPATCH arg2;
          let dispex :=
            match QueryInterface H disp IID_IDispatchEx with
            | (hres, Some dx) => if SUCCEEDED hres then Some dx else None
            | (_, None) => None
            end in
          let '(hres, dispid) := array_get_id disp dispex "length" in
          if FAILED hres || (dispid =? DISPID_UNKNOWN)
          then Some (CTL_E_ILLEGALFUNCTIONCALL, None)
          else
            _ ← (if res then Some tt else None);
            let '(hres, len) :=
              array_get disp dispex dispid (Some (mkDISPPARAMS [] [])) caller in
            if FAILED hres then Some (illegal_if_unexpected hres, Some len)
            else
              let conv :=
                if V_VT len =? VT_I4 then (hres, len)
                else change_type H len VT_I4 caller in
              if FAILED (fst conv) || (V_I4 (snd conv) <? 0)
              then Some (CTL_E_ILLEGALFUNCTIONCALL, Some VariantInit)
              else
                match apply_args disp dispex caller
                        (Z.to_nat (V_I4 (snd conv))) 0 with
                | inl hres => Some (illegal_if_unexpected hres, Some VariantInit)
                | inr args =>
                    fi ← fn_info func;
                    let r := invoke_builtin_function H this_obj fi
                               (mkDISPPARAMS (rev args) []) res caller in
                    Some (illegal_if_unexpected (fst r),
                          match snd r with
                          | Some v => Some v
                          | None => Some VariantInit
                          end)
                end
      else
        fi ← fn_info func;
        let r := invoke_builtin_function H this_obj fi
                   (mkDISPPARAMS [] []) res caller in
        Some (illegal_if_unexpected (fst r), snd r)
  | None => Some (CTL_E_ILLEGALFUNCTIONCALL, None)
  end.

Definition function_call (func : func_disp_t) (dp : DISPPARAMS) (res : bool)
    (caller : option IServiceProvider) : option (HRESULT * option VARIANT) :=
  let arg := nth (cArgs dp - 1) (rgvarg dp) VariantInit in
  match V_DISPATCH arg with
  | Some this_obj =>
      if (cArgs dp <? 1)%nat || negb (V_VT arg =? VT_DISPATCH)
      then Some (CTL_E_ILLEGALFUNCTIONCALL, None)
      else
        fi ← fn_info func;
        let r := invoke_builtin_function H this_obj fi
                   (mkDISPPARAMS (take (cArgs dp - 1) (rgvarg dp)) []) res caller in
        Some (illegal_if_unexpected (fst r), snd r)
  | None => Some (CTL_E_ILLEGALFUNCTIONCALL, None)
  end.

End FunctionFacets.

(** ** The dynamic property store *)

Definition get_dynamic_data (This : DispatchEx)
  : DispatchEx * dispex_dynamic_data_t :=
  match dynamic_data This with
  | Some d => (This, d)
  | None =>
      let d0 := {| buf_size := 0; props := [] |} in
      let d :=
        match vtbl (desc (info This)) with
        | Some v =>
            match populate_props v with
            | Some populate_hook => populate_hook d0
            | None => d0
            end
        | None => d0
        end in
      (set_dynamic_data This d, d)
  end.

Definition name_matches (fl : Z) (p : dynamic_prop_t) (nm : string) : bool :=
  if has_flag fl fdexNameCaseInsensitive
  then wcsicmp (name p) nm =? 0
  else wcscmp (name p) nm =? 0.

(** The scan [for(prop = data->props; prop < data->props+data->prop_cnt; prop++)]
    for the first entry whose name matches; [i] is the index of the head. *)
Fixpoint find_prop (l : list dynamic_prop_t) (nm : string) (fl : Z) (i : nat)
  : option nat :=
  match l with
  | [] => None
  | p :: l' => if name_matches fl p nm then Some i else find_prop l' nm fl (S i)
  end.

(** Reading and updating [dispex->dynamic_data->props[i]] through the heap. *)
Definition read_prop (h : heap) (this : objref) (i : nat) : option dynamic_prop_t :=
  This ← h !! this; d ← dynamic_data This; props d !! i.

Definition upd_prop (h : heap) (this : objref) (i : nat)
    (f : dynamic_prop_t -> dynamic_prop_t) : heap :=
  match h !! this with
  | Some This =>
      match dynamic_data This with
      | Some d =>
          <[this := set_dynamic_data This (set_props d (alter f i (props d)))]> h
      | None => h
      end
  | None => h
  end.

Definition set_protref (j : nat) (q : dynamic_prop_t) : dynamic_prop_t :=
  {| var := mkVARIANT (V_VT (var q)) (D_int (Z.of_nat j));
     name := name q; flags := DYNPROP_PROTREF |}.

(** Results of the store operations: [None] is a run that does not return
    in C (a dangling or NULL object pointer is dereferenced, or the
    recursion on the prototype link exceeds [fuel]). *)
Definition dynres : Type := option (heap * HRESULT * nat).

(** fixup_prop_ref, with its call to get_dynamic_prop on the prototype
    passed as [rec]. *)
Definition fixup_prop_ref_with (rec : heap -> objref -> string -> Z -> dynres)
    (h : heap) (this : objref) (i : nat) : option heap :=
  This ← h !! this;
  prop ← read_prop h this i;
  if has_flag (flags prop) DYNPROP_DELETED then
    match prototype This with
    | None => Some h
    | Some p =>
        '(h1, hres, j) ← rec h p (name prop) fdexNameCaseSensitive;
        if FAILED hres then Some h1
        else
          prot_prop ← read_prop h1 p j;
          if has_flag (flags prot_prop) DYNPROP_DELETED then Some h1
          else Some (upd_prop h1 this i (set_protref j))
    end
  else if has_flag (flags prop) DYNPROP_PROTREF then
    p ← prototype This;
    prot_prop ← read_prop h p (V_UI4 (var prop));
    if has_flag (flags prot_prop) DYNPROP_DELETED
    then Some (upd_prop h this i (fun q => set_flags q DYNPROP_DELETED))
    else Some h
  else Some h.

(** The growth step and the append at the end of get_dynamic_prop. *)
Definition append_prop (d : dispex_dynamic_data_t) (nm : string)
    (prot_prop : option nat) : dispex_dynamic_data_t :=
  let size :=
    if (buf_size d =? 0)%nat then 4%nat
    else if (buf_size d =? prop_cnt d)%nat then (buf_size d * 2)%nat
    else buf_size d in
  let prop :=
    match prot_prop with
    | Some j => {| var := mkVARIANT VT_EMPTY (D_int (Z.of_nat j));
                   name := nm; flags := DYNPROP_PROTREF |}
    | None => {| var := VariantInit; name := nm; flags := 0 |}
    end in
  {| buf_size := size; props := props d ++ [prop] |}.

Fixpoint get_dynamic_prop (fuel : nat) (h : heap) (this : objref) (nm : string)
    (fl : Z) : dynres :=
  match fuel with
  | O => None
  | S fuel' =>
      This0 ← h !! this;
      let '(This, data) := get_dynamic_data This0 in
      let h := <[this := This]> h in
      let alloc := has_flag fl fdexNameEnsure in
      match find_prop (props data) nm fl 0 with
      | Some i =>
          h ← fixup_prop_ref_with (get_dynamic_prop fuel') h this i;
          prop ← read_prop h this i;
          if has_flag (flags prop) DYNPROP_DELETED then
            if alloc then
              Some (upd_prop h this i
                      (fun q => set_flags q (Z.land (flags q) (Z.lnot DYNPROP_DELETED))),
                    S_OK, i)
            else Some (h, DISP_E_UNKNOWNNAME, i)
          else Some (h, S_OK, i)
      | None =>
          let create (h : heap) (prot_prop : option nat) : dynres :=
            if negb alloc && negb (bool_decide (is_Some prot_prop))
            then Some (h, DISP_E_UNKNOWNNAME, 0%nat)
            else
              This' ← h !! this;
              d ← dynamic_data This';
              Some (<[this := set_dynamic_data This' (append_prop d nm prot_prop)]> h,
                    S_OK, prop_cnt d) in
          match prototype This with
          | Some p =>
              '(h1, hres, j) ← get_dynamic_prop fuel' h p nm fdexNameCaseSensitive;
              if hres =? DISP_E_UNKNOWNNAME then create h1 None
              else if FAILED hres then Some (h1, hres, 0%nat)
              else
                prot_prop ← read_prop h1 p j;
                if has_flag (flags prot_prop) DYNPROP_DELETED
                then create h1 None
                else create h1 (Some j)
          | None => create h None
          end
      end
  end.

Definition fixup_prop_ref (fuel : nat) : heap -> objref -> nat -> option heap :=
  fixup_prop_ref_with (get_dynamic_prop fuel).

(** [*id = DISPID_DYNPROP_0 + (prop - This->dynamic_data->props)] *)
Definition dynprop_id (i : nat) : DISPID := DISPID_DYNPROP_0 + Z.of_nat i.

Definition dispex_get_dynid (fuel : nat) (h : heap) (this : objref) (nm : string)
    (hidden : bool) : option (heap * HRESULT * DISPID) :=
  '(h1, hres, i) ← get_dynamic_prop fuel h this nm fdexNameEnsure;
  if FAILED hres then Some (h1, hres, 0)
  else
    Some (upd_prop h1 this i
            (fun q => set_flags q
               (Z.land (if hidden then Z.lor (flags q) DYNPROP_HIDDEN else flags q)
                       (Z.lnot DYNPROP_PROTREF))),
          S_OK, dynprop_id i).

(** ** Lookup in the compiled member table *)

(** The binary search of get_builtin_func on [min..max]; [fuel] bounds the
    number of iterations (the interval shrinks at every step). The result
    is the index of the entry, [None] for DISP_E_MEMBERNOTFOUND. *)
Fixpoint get_builtin_func_loop (fuel : nat) (l : list func_info_t) (id : DISPID)
    (min max : Z) : option nat :=
  match fuel with
  | O => None
  | S fuel' =>
      if min <=? max then
        let n := (min + max) / 2 in
        match l !! Z.to_nat n with
        | Some fi =>
            if func_id fi =? id then Some (Z.to_nat n)
            else if func_id fi <? id
            then get_builtin_func_loop fuel' l id (n + 1) max
            else get_builtin_func_loop fuel' l id min (n - 1)
        | None => None
        end
      else None
  end.

Definition get_builtin_func (data : dispex_data_t) (id : DISPID) : option nat :=
  let l := funcs (table data) in
  get_builtin_func_loop (S (length l)) l id 0 (Z.of_nat (length l) - 1).

(** ** The dispatch router *)

Definition DISPID_THIS : DISPID := -613.

Definition dynamic_skip_mask : Z :=
  Z.lor DYNPROP_DELETED (Z.lor DYNPROP_HIDDEN DYNPROP_PROTREF).

(** The [while] loop of next_dynamic_id over the slots from [idx] on. *)
Fixpoint next_dynamic_idx (l : list dynamic_prop_t) (idx : nat) : nat :=
  match l with
  | [] => idx
  | p :: l' =>
      if has_flag (flags p) dynamic_skip_mask then next_dynamic_idx l' (S idx)
      else idx
  end.

Definition next_dynamic_id (data : dispex_dynamic_data_t) (idx : nat)
  : HRESULT * DISPID :=
  let idx' := next_dynamic_idx (drop idx (props data)) idx in
  if (idx' =? prop_cnt data)%nat then (S_FALSE, DISPID_STARTENUM)
  else (S_OK, dynprop_id idx').

(** The scan of DispatchEx_GetNextDispID over the member table for the
    next entry that is a plain property ([func_disp_idx == -1]). *)
Fixpoint next_builtin (l : list func_info_t) : option DISPID :=
  match l with
  | [] => None
  | fi :: l' => if func_disp_idx fi =? -1 then Some (func_id fi) else next_builtin l'
  end.

(** The end of DispatchEx_GetNextDispID: the first dynamic property that
    is enumerable, or the end of the enumeration. *)
Definition next_dispid_dynamic (h : heap) (this : objref) (This : DispatchEx)
  : option (heap * HRESULT * option DISPID) :=
  let '(This1, data) := get_dynamic_data This in
  let h1 := <[this := This1]> h in
  if negb (prop_cnt data =? 0)%nat
  then let r := next_dynamic_id data 0 in Some (h1, fst r, Some (snd r))
  else Some (h1, S_FALSE, Some DISPID_STARTENUM).

(** The part before it: the next_dispid hook of the class, which hands
    over to the dynamic properties by returning S_FALSE. *)
Definition next_dispid_custom (h : heap) (this : objref) (This : DispatchEx)
    (id : DISPID) : option (heap * HRESULT * option DISPID) :=
  match vtbl (desc (info This)) with
  | Some v =>
      match next_dispid v with
      | Some next =>
          let r := next id in
          if fst r =? S_FALSE then next_dispid_dynamic h this This
          else Some (h, fst r, Some (snd r))
      | None => next_dispid_dynamic h this This
      end
  | None => next_dispid_dynamic h this This
  end.

Definition DispatchEx_GetNextDispID (h : heap) (this : objref) (id : DISPID)
  : option (heap * HRESULT * option DISPID) :=
  This0 ← h !! this;
  if is_dynamic_dispid id then
    let idx := DWORD_sub id DISPID_DYNPROP_0 in
    let '(This1, data) := get_dynamic_data This0 in
    let h1 := <[this := This1]> h in
    if (prop_cnt data <=? idx)%nat then Some (h1, DISP_E_MEMBERNOTFOUND, None)
    else let r := next_dynamic_id data (idx + 1) in Some (h1, fst r, Some (snd r))
  else if negb (is_custom_dispid id) then
    let l := funcs (table (info This0)) in
    let start :=
      if id =? DISPID_STARTENUM then Some 0%nat
      else n ← get_builtin_func (info This0) id; Some (S n) in
    match start with
    | None => Some (h, DISP_E_MEMBERNOTFOUND, None)
    | Some n =>
        match next_builtin (drop n l) with
        | Some pid => Some (h, S_OK, Some pid)
        | None => next_dispid_custom h this This0 DISPID_STARTENUM
        end
    end
  else next_dispid_custom h this This0 id.

(** Repeated calls of GetNextDispID, feeding each identifier back, until
    the call does not return S_OK: the identifiers it yielded, and the
    return value and output of the call that ended it. *)
Fixpoint enumerate (fuel : nat) (h : heap) (this : objref) (id : DISPID)
  : option (list DISPID * (HRESULT * option DISPID)) :=
  match fuel with
  | O => None
  | S fuel' =>
      '(h1, hres, pid) ← DispatchEx_GetNextDispID h this id;
      match pid with
      | Some next =>
          if hres =? S_OK
          then '(l, e) ← enumerate fuel' h1 this next; Some (next :: l, e)
          else Some ([], (hres, pid))
      | None => Some ([], (hres, None))
      end
  end.

Definition dispex_delete_prop (h : heap) (this : objref) (id : DISPID)
  : option (heap * HRESULT) :=
  This0 ← h !! this;
  let hooked :=
    if is_custom_dispid id then
      match vtbl (desc (info This0)) with
      | Some v => vtbl_delete v
      | None => None
      end
    else None in
  match hooked with
  | Some del => Some (h, del id)
  | None =>
      if dispex_compat_mode This0 <? COMPAT_MODE_IE8 then Some (h, E_NOTIMPL)
      else
        match get_dispid_type id with
        | DISPEXPROP_DYNAMIC =>
            let idx := DWORD_sub id DISPID_DYNPROP_0 in
            let '(This1, data) := get_dynamic_data This0 in
            let h1 := <[this := This1]> h in
            if (prop_cnt data <=? idx)%nat then Some (h1, S_OK)
            else
              prop ← props data !! idx;
              if negb (has_flag (flags prop) DYNPROP_PROTREF) then
                Some (upd_prop h1 this idx
                        (fun q => {| var := VariantClear (var q); name := name q;
                                     flags := Z.lor (flags q) DYNPROP_DELETED |}),
                      S_OK)
              else Some (h1, S_OK)
        | DISPEXPROP_BUILTIN =>
            match get_builtin_func (info This0) id with
            | None => Some (h, DISP_E_MEMBERNOTFOUND)
            | Some _ => Some (h, S_OK)
            end
        | DISPEXPROP_CUSTOM => Some (h, S_OK)
        end
  end.

Section Router.

Context (H : host_t).

(** The DISPEXPROP_BUILTIN case of dispex_invoke (DISPATCH_CONSTRUCT and
    invoke_builtin_prop) is taken as given: of that path only the leaves
    builtin_propput, builtin_propget and invoke_builtin_function are
    modelled above. *)
Context (invoke_builtin_prop :
  heap -> objref -> objref -> DISPID -> Z -> DISPPARAMS -> bool ->
  option IServiceProvider -> option (heap * HRESULT * option VARIANT)).

Definition invoke_disp_value (this_obj func_disp : objref) (flags : Z)
    (dp : DISPPARAMS) (caller : option IServiceProvider)
    : HRESULT * option VARIANT :=
  if negb (cNamedArgs dp =? 0)%nat then (E_NOTIMPL, None)
  else
    let new_dp :=
      mkDISPPARAMS (mkVARIANT VT_DISPATCH (D_disp (Some this_obj)) :: rgvarg dp)
                   [DISPID_THIS] in
    let r :=
      match QueryInterface H func_disp IID_IDispatchEx with
      | (hres, Some dx) =>
          if SUCCEEDED hres
          then IDispatchEx_InvokeEx H dx DISPID_VALUE flags (Some new_dp) caller
          else IDispatch_Invoke H func_disp DISPID_VALUE flags (Some new_dp)
      | (_, None) => IDispatch_Invoke H func_disp DISPID_VALUE flags (Some new_dp)
      end in
    (fst r, Some (snd r)).

(** The slot a read goes to after the fixup: the prototype's slot for a
    PROTREF entry, the entry itself otherwise. *)
Definition deref_prop (h : heap) (this : objref) (i : nat)
  : option dynamic_prop_t :=
  This ← h !! this;
  prop ← read_prop h this i;
  if has_flag (flags prop) DYNPROP_PROTREF
  then p ← prototype This; read_prop h p (V_UI4 (var prop))
  else Some prop.

Definition put_args_invalid (pdp : DISPPARAMS) : bool :=
  negb (cArgs pdp =? 1)%nat ||
  ((cNamedArgs pdp =? 1)%nat &&
   negb (hd 0 (rgdispidNamedArgs pdp) =? DISPID_PROPERTYPUT)) ||
  (1 <? cNamedArgs pdp)%nat.

Definition dispex_invoke (fuel : nat) (h : heap) (this this_obj : objref)
    (id : DISPID) (wFlags : Z) (pdp : DISPPARAMS) (res : bool)
    (caller : option IServiceProvider)
    : option (heap * HRESULT * option VARIANT) :=
  This0 ← h !! this;
  let wFlags :=
    if wFlags =? Z.lor DISPATCH_PROPERTYPUT DISPATCH_PROPERTYPUTREF
    then DISPATCH_PROPERTYPUT else wFlags in
  match get_dispid_type id with
  | DISPEXPROP_CUSTOM =>
      match vtbl (desc (info This0)) with
      | Some v =>
          match vtbl_invoke v with
          | Some inv => let r := inv id wFlags pdp caller in Some (h, fst r, snd r)
          | None => Some (h, DISP_E_MEMBERNOTFOUND, None)
          end
      | None => Some (h, DISP_E_MEMBERNOTFOUND, None)
      end
  | DISPEXPROP_DYNAMIC =>
      let idx := DWORD_sub id DISPID_DYNPROP_0 in
      let '(This1, data) := get_dynamic_data This0 in
      let h1 := <[this := This1]> h in
      if (prop_cnt data <=? idx)%nat then Some (h1, DISP_E_MEMBERNOTFOUND, None)
      else
        let method :=
          h2 ← fixup_prop_ref fuel h1 this idx;
          prop ← read_prop h2 this idx;
          if has_flag (flags prop) DYNPROP_DELETED
          then Some (h2, DISP_E_MEMBERNOTFOUND, None)
          else
            target ← deref_prop h2 this idx;
            if negb (V_VT (var target) =? VT_DISPATCH) then Some (h2, E_NOTIMPL, None)
            else
              func_disp ← V_DISPATCH (var target);
              let r := invoke_disp_value this_obj func_disp wFlags pdp caller in
              Some (h2, fst r, snd r) in
        if wFlags =? Z.lor DISPATCH_METHOD DISPATCH_PROPERTYGET then
          if res then method else Some (h1, E_INVALIDARG, None)
        else if wFlags =? DISPATCH_METHOD then method
        else if wFlags =? DISPATCH_PROPERTYGET then
          h2 ← fixup_prop_ref fuel h1 this idx;
          prop ← read_prop h2 this idx;
          if has_flag (flags prop) DYNPROP_DELETED
          then Some (h2, DISP_E_MEMBERNOTFOUND, None)
          else
            target ← deref_prop h2 this idx;
            _ ← (if res then Some tt else None);
            let r := variant_copy (var target) in
            Some (h2, fst r, Some (snd r))
        else if wFlags =? DISPATCH_PROPERTYPUT then
          if put_args_invalid pdp then Some (h1, E_INVALIDARG, None)
          else
            let r := variant_copy (hd VariantInit (rgvarg pdp)) in
            if FAILED (fst r) then Some (h1, fst r, None)
            else
              Some (upd_prop h1 this idx
                      (fun q => {| var := snd r; name := name q;
                                   flags := Z.land (flags q)
                                              (Z.lnot (Z.lor DYNPROP_DELETED
                                                             DYNPROP_PROTREF)) |}),
                    S_OK, None)
        else Some (h1, E_NOTIMPL, None)
  | DISPEXPROP_BUILTIN =>
      invoke_builtin_prop h this this_obj id wFlags pdp res caller
  end.

End Router.

(** ** The reflection cache: building a member table *)

Definition zero_arg_info : func_arg_info_t :=
  {| iid := IID_NULL; default_value := VariantInit |}.

(** A calloc'ed func_info_t. *)
Definition zero_func_info : func_info_t :=
  {| func_id := 0; func_name := ""; tid := 0%nat; hook := None;
     call_vtbl_off := 0; put_vtbl_off := 0; get_vtbl_off := 0;
     func_disp_idx := 0; argc := 0; default_value_cnt := 0; prop_vt := 0;
     arg_types := []; arg_info := [] |}.

Definition new_func_info (id : DISPID) (nm : string) (t : tid_t)
    (hk : option dispex_hook_invoke_t) : func_info_t :=
  {| func_id := id; func_name := nm; tid := t; hook := hk;
     call_vtbl_off := 0; put_vtbl_off := 0; get_vtbl_off := 0;
     func_disp_idx := -1; argc := 0; default_value_cnt := 0; prop_vt := VT_EMPTY;
     arg_types := []; arg_info := [] |}.

(** Field updates of a func_info_t ([info->field = ...]). *)
Definition set_method_head (info : func_info_t) (idx : Z) (n : nat)
    (ai : list func_arg_info_t) (vt : VARTYPE) : func_info_t :=
  {| func_id := func_id info; func_name := func_name info; tid := tid info;
     hook := hook info; call_vtbl_off := call_vtbl_off info;
     put_vtbl_off := put_vtbl_off info; get_vtbl_off := get_vtbl_off info;
     func_disp_idx := idx; argc := n;
     default_value_cnt := default_value_cnt info; prop_vt := vt;
     arg_types := arg_types info; arg_info := ai |}.

Definition set_args (info : func_info_t) (tys : list VARTYPE)
    (ai : list func_arg_info_t) (dcnt : nat) (off : Z) : func_info_t :=
  {| func_id := func_id info; func_name := func_name info; tid := tid info;
     hook := hook info; call_vtbl_off := off;
     put_vtbl_off := put_vtbl_off info; get_vtbl_off := get_vtbl_off info;
     func_disp_idx := func_disp_idx info; argc := argc info;
     default_value_cnt := dcnt; prop_vt := prop_vt info;
     arg_types := tys; arg_info := ai |}.

Definition set_accessor (info : func_info_t) (idx : Z) (get_off put_off : Z)
    (vt : VARTYPE) : func_info_t :=
  {| func_id := func_id info; func_name := func_name info; tid := tid info;
     hook := hook info; call_vtbl_off := call_vtbl_off info;
     put_vtbl_off := put_off; get_vtbl_off := get_off;
     func_disp_idx := idx; argc := argc info;
     default_value_cnt := default_value_cnt info; prop_vt := vt;
     arg_types := arg_types info; arg_info := arg_info info |}.

Section Reflection.

Context (H : host_t).

(** The per-parameter loop of add_func_info from parameter [i] on; the
    boolean tells whether the loop ran to its end (otherwise the function
    returned early and the member stays on the ITypeInfo fallback). *)
Fixpoint add_params (dti : ITypeInfo) (params : list ELEMDESC) (i : nat)
    (info : func_info_t) : func_info_t * bool :=
  match params with
  | [] => (info, true)
  | p :: params' =>
      let step :=
        if (tdesc_vt p =? VT_PTR) && (lptdesc_vt p =? VT_USERDEFINED) then
          let '(hres, guid) := GetRefTypeGuid dti (hreftype p) in
          if FAILED hres then None
          else Some (set_args info
                       (<[i := VT_DISPATCH]> (arg_types info))
                       (alter (fun a => {| iid := guid;
                                           default_value := default_value a |})
                              i (arg_info info))
                       (default_value_cnt info) (call_vtbl_off info))
        else if negb (is_arg_type_supported (nth i (arg_types info) VT_EMPTY))
        then None
        else Some info in
      match step with
      | None => (info, false)
      | Some info1 =>
          let info2 :=
            if has_flag (wParamFlags p) PARAMFLAG_FHASDEFAULT then
              set_args info1 (arg_types info1)
                (alter (fun a => {| iid := iid a;
                                    default_value := varDefaultValue p |})
                       i (arg_info info1))
                (S (default_value_cnt info1)) (call_vtbl_off info1)
            else info1 in
          add_params dti params' (S i) info2
      end
  end.

(** The update of the (found or fresh) entry [info] from a FUNCDESC;
    [cnt] is [data->func_disp_cnt].  Returns the entry and the new count.
    [func_disp_idx] is a SHORT: the count stored in it is truncated.  The
    DWORD count itself is kept as a natural number: it counts FUNCDESCs,
    of which a type description has at most 65535 and a class a few
    hundred interfaces, so that it stays far below 2^32. *)
Definition fill_func_info (dti : ITypeInfo) (desc : FUNCDESC) (cnt : nat)
    (info : func_info_t) : func_info_t * nat :=
  if has_flag (invkind desc) DISPATCH_METHOD then
    let info1 :=
      set_method_head info (SHORT (Z.of_nat cnt)) (cParams desc)
        (replicate (cParams desc) zero_arg_info) (elemdescFunc_vt desc) in
    let vt := elemdescFunc_vt desc in
    if negb (vt =? VT_VOID) && negb (vt =? VT_PTR) && negb (is_arg_type_supported vt)
    then (info1, S cnt)
    else
      let ret_slot :=
        if vt =? VT_PTR then [Z.lor VT_BYREF VT_DISPATCH]
        else if negb (vt =? VT_VOID) then [Z.lor VT_BYREF vt]
        else [] in
      let info2 :=
        set_args info1 (map tdesc_vt (lprgelemdescParam desc) ++ ret_slot)
          (arg_info info1) (default_value_cnt info1) (call_vtbl_off info1) in
      if negb (cParamsOpt desc =? 0)%nat then (info2, S cnt)
      else
        let '(info3, complete) := add_params dti (lprgelemdescParam desc) 0 info2 in
        if complete
        then (set_args info3 (arg_types info3) (arg_info info3)
                (default_value_cnt info3) (oVft desc / sizeof_ptr H), S cnt)
        else (info3, S cnt)
  else if has_flag (invkind desc) (Z.lor DISPATCH_PROPERTYPUT DISPATCH_PROPERTYGET) then
    let idx := if has_flag (wFuncFlags desc) FUNCFLAG_FHIDDEN then -2
               else func_disp_idx info in
    let is_get := has_flag (invkind desc) DISPATCH_PROPERTYGET in
    let is_put := has_flag (invkind desc) DISPATCH_PROPERTYPUT in
    let vt :=
      if is_put then tdesc_vt (hd {| tdesc_vt := VT_EMPTY; lptdesc_vt := VT_EMPTY;
                                     hreftype := 0; wParamFlags := 0;
                                     varDefaultValue := VariantInit |}
                                  (lprgelemdescParam desc))
      else if is_get then elemdescFunc_vt desc
      else VT_EMPTY in
    (set_accessor info idx
       (if is_get then oVft desc / sizeof_ptr H else get_vtbl_off info)
       (if is_put then oVft desc / sizeof_ptr H else put_vtbl_off info)
       vt, cnt)
  else (info, cnt).

(** The search of add_func_info for an entry with the same identifier or
    the same name. *)
Fixpoint find_func (l : list func_info_t) (id : DISPID) (nm : string) (i : nat)
  : option (nat * func_info_t) :=
  match l with
  | [] => None
  | info :: l' =>
      if (func_id info =? id) || (wcscmp (func_name info) nm =? 0)
      then Some (i, info)
      else find_func l' id nm (S i)
  end.

Definition add_func_info (data : func_table) (t : tid_t) (desc : FUNCDESC)
    (dti : ITypeInfo) (hk : option dispex_hook_invoke_t)
    (name_override : option string) : func_table :=
  let nm :=
    match name_override with
    | Some n => Some n
    | None =>
        if has_flag (wFuncFlags desc) FUNCFLAG_FRESTRICTED then None
        else
          let '(hres, n) := GetDocumentation dti (memid desc) in
          if FAILED hres then None else Some n
    end in
  match nm with
  | None => data
  | Some nm =>
      match find_func (funcs data) (memid desc) nm 0 with
      | Some (i, info) =>
          if negb (tid info =? t)%nat then data    (* Duplicated in other interface *)
          else
            let '(info', cnt) := fill_func_info dti desc (func_disp_cnt data) info in
            {| funcs := <[i := info']> (funcs data); func_disp_cnt := cnt |}
      | None =>
          let '(info', cnt) :=
            fill_func_info dti desc (func_disp_cnt data)
              (new_func_info (memid desc) nm t hk) in
          {| funcs := funcs data ++ [info']; func_disp_cnt := cnt |}
      end
  end.

Fixpoint find_hook (hooks : list dispex_hook_t) (id : DISPID) : option dispex_hook_t :=
  match hooks with
  | [] => None
  | hk :: hooks' => if hook_dispid hk =? id then Some hk else find_hook hooks' id
  end.

(** The loop of process_interface over the FUNCDESCs from index 7 on. *)
Fixpoint process_funcdescs (data : func_table) (t : tid_t) (dti : ITypeInfo)
    (hooks : option (list dispex_hook_t)) (descs : list FUNCDESC) : func_table :=
  match descs with
  | [] => data
  | funcdesc :: descs' =>
      let hk := match hooks with
                | Some hs => find_hook hs (memid funcdesc)
                | None => None
                end in
      let data' :=
        match hk with
        | None => add_func_info data t funcdesc dti None None
        | Some k =>
            if bool_decide (is_Some (hook_invoke k)) || bool_decide (is_Some (hook_name k))
            then add_func_info data t funcdesc dti (hook_invoke k) (hook_name k)
            else data
        end in
      process_funcdescs data' t dti hooks descs'
  end.

Definition process_interface (data : func_table) (t : tid_t)
    (disp_typeinfo : option ITypeInfo) (hooks : option (list dispex_hook_t))
    : HRESULT * func_table :=
  match get_typeinfo H t with
  | (hres, Some typeinfo) =>
      if FAILED hres then (hres, data)
      else
        (S_OK,
         process_funcdescs data t
           (match disp_typeinfo with Some dti => dti | None => typeinfo end)
           hooks (drop 7 (GetFuncDesc typeinfo)))
  | (hres, None) => (hres, data)
  end.

Definition dispex_info_add_interface (info : func_table) (t : tid_t)
    (hooks : option (list dispex_hook_t)) : func_table :=
  snd (process_interface info t None hooks).

(** The loop [for(tid = desc->iface_tids; *tid; tid++)], which stops at
    the first interface that fails. *)
Fixpoint process_interfaces (data : func_table) (dti : option ITypeInfo)
    (tids : list tid_t) : func_table :=
  match tids with
  | [] => data
  | t :: tids' =>
      let '(hres, data') := process_interface data t dti None in
      if FAILED hres then data' else process_interfaces data' dti tids'
  end.

Definition dispid_cmp (p1 p2 : func_info_t) : Z :=
  LONG (func_id p1 - func_id p2).

Definition func_name_cmp (l : list func_info_t) (p1 p2 : nat) : Z :=
  wcsicmp (func_name (nth p1 l zero_func_info))
          (func_name (nth p2 l zero_func_info)).

(** qsort belongs to the C library; it is modelled by insertion sort on the
    comparator it is given.  Every comparison sort returns the same array
    when the comparator is a strict total order on the elements. *)
Fixpoint qsort_insert {A} (cmp : A -> A -> Z) (x : A) (l : list A) : list A :=
  match l with
  | [] => [x]
  | y :: l' => if cmp x y <=? 0 then x :: y :: l' else y :: qsort_insert cmp x l'
  end.

Fixpoint qsort {A} (cmp : A -> A -> Z) (l : list A) : list A :=
  match l with
  | [] => []
  | x :: l' => qsort_insert cmp x (qsort cmp l')
  end.

(** The calls of dispex_info_add_interface that the init_info hook of
    another file makes. *)
Fixpoint add_interfaces (info : func_table)
    (calls : list (tid_t * option (list dispex_hook_t))) : func_table :=
  match calls with
  | [] => info
  | (t, hooks) :: calls' =>
      add_interfaces (dispex_info_add_interface info t hooks) calls'
  end.

(** The global list of tables and the [info_cache] slots of the class
    descriptors; a descriptor is identified by its address [d], a table by
    its position in [dispex_data_list]. *)
Record cache_state := {
  dispex_data_list : list dispex_data_t;
  info_cache : gmap (nat * Z) nat
}.

(** The two arrays that legacy_prototype_init_dispex_info goes through.
    Their elements come from the prototype lists of mshtml_private.h:
    [legacy_prototype_dispex] is the address of the first element of the
    array of that name (its elements are counted in units of one), and
    entry [i] of [prototype_static_data] is the pointer
    [prototype_static_data[i].desc] together with the descriptor it
    points to. *)
Record prototype_tables := {
  legacy_prototype_dispex : nat;
  prototype_static_data : list (nat * dispex_static_data_t)
}.

Context (PT : prototype_tables).

(** The result of table resolution: [None] is a run that has no defined
    result, [Some (st, None)] is the NULL result. *)
Definition ensure_t : Type :=
  cache_state -> nat -> dispex_static_data_t -> compat_mode_t ->
  option (cache_state * option nat).

(** legacy_prototype_init_dispex_info on the table [info] of the
    descriptor at address [d]; its call of ensure_dispex_info is [ensure].
    [realloc] to the size of an empty table frees [info->funcs], which
    preprocess_dispex_data frees again: no result is defined then. *)
Definition legacy_prototype_init_dispex_info (ensure : ensure_t)
    (st : cache_state) (d : nat) (info : func_table) (mode : compat_mode_t)
    : option (cache_state * func_table) :=
  if (d <? legacy_prototype_dispex PT)%nat then None
  else
    '(pd, pdesc) ← prototype_static_data PT !! (d - legacy_prototype_dispex PT)%nat;
    '(st1, r) ← ensure st pd pdesc mode;
    match r with
    | None => Some (st1, info)
    | Some p =>
        data ← dispex_data_list st1 !! p;
        if (func_cnt (table data) =? 0)%nat then None
        else Some (st1, {| funcs := funcs (table data);
                           func_disp_cnt := func_disp_cnt (table data) |})
    end.

(** [Some (st, None)] is the NULL result (the dispatch type info is not
    available).  The new table is linked into [dispex_data_list] before
    the init_info hook runs and filled in place; here its place [p] is
    taken by the empty table and written at the end.  With
    [disp_tid = 0] the variable [dti] is never assigned: the loop over a
    non-empty [iface_tids] hands its indeterminate value to
    process_interface, and no result is defined (the descriptors that
    dispex.c declares with NULL_tid all have no_iface_tids, for which the
    loop does not run). *)
Definition preprocess_dispex_data (ensure : ensure_t) (st : cache_state)
    (d : nat) (desc : dispex_static_data_t) (mode : compat_mode_t)
    : option (cache_state * option nat) :=
  let disp :=
    if negb (disp_tid desc =? 0)%nat then
      match get_typeinfo H (disp_tid desc) with
      | (hres, Some ti) => if FAILED hres then None else Some (Some ti)
      | (_, None) => None
      end
    else Some None in
  match disp with
  | None => Some (st, None)
  | Some dti =>
      let p := length (dispex_data_list st) in
      let data0 := {| funcs := []; func_disp_cnt := 0 |} in
      let st0 :=
        {| dispex_data_list :=
             dispex_data_list st ++
             [{| desc := desc; compat_mode := mode; table := data0;
                 name_table := [] |}];
           info_cache := info_cache st |} in
      '(st1, data1) ←
        match init_info desc with
        | None => Some (st0, data0)
        | Some (init_info_interfaces calls) =>
            Some (st0, add_interfaces data0 (calls mode))
        | Some init_info_legacy_prototype =>
            legacy_prototype_init_dispex_info ensure st0 d data0 mode
        end;
      data2 ←
        match iface_tids desc, dti with
        | [], _ => Some data1
        | tids, Some ti => Some (process_interfaces data1 (Some ti) tids)
        | _ :: _, None => None
        end;
      let sorted := qsort dispid_cmp (funcs data2) in
      let data :=
        {| desc := desc; compat_mode := mode;
           table := {| funcs := sorted; func_disp_cnt := func_disp_cnt data2 |};
           name_table := qsort (func_name_cmp sorted) (seq 0 (length sorted)) |} in
      Some ({| dispex_data_list := <[p := data]> (dispex_data_list st1);
               info_cache := info_cache st1 |}, Some p)
  end.

(** [fuel] bounds the nesting of table resolutions (a legacy prototype
    resolves the table of its class from inside its own resolution). *)
Fixpoint ensure_dispex_info (fuel : nat) (st : cache_state) (d : nat)
    (desc : dispex_static_data_t) (mode : compat_mode_t)
    : option (cache_state * option nat) :=
  match fuel with
  | O => None
  | S fuel' =>
      match info_cache st !! (d, mode) with
      | Some p => Some (st, Some p)
      | None =>
          (* EnterCriticalSection(&cs_dispex_static_data) *)
          match info_cache st !! (d, mode) with
          | Some p => Some (st, Some p)
          | None =>
              '(st1, r) ← preprocess_dispex_data (ensure_dispex_info fuel')
                            st d desc mode;
              match r with
              | Some p =>
                  Some ({| dispex_data_list := dispex_data_list st1;
                           info_cache := <[(d, mode) := p]> (info_cache st1) |},
                        Some p)
              | None => Some (st1, None)
              end
          end
      end
  end.

End Reflection.

(** ** Vocabulary of the statements *)

(** A well-shaped put request: exactly one argument and, when a named
    argument is used, a single one that is DISPID_PROPERTYPUT. *)
Definition put_shape_ok (dp : DISPPARAMS) : Prop :=
  cArgs dp = 1%nat /\
  (rgdispidNamedArgs dp = [] \/ rgdispidNamedArgs dp = [DISPID_PROPERTYPUT]).







(** ** A concrete class used to exercise the statements

    The class Widget has one reflected method
    [area(w : I4, h : I4, mode : I4 = 0) : I4] in native slot 7 and a
    read-only property in get slot 8. *)

Definition widget_obj : objref := 1%nat.

Definition i4 (n : Z) : VARIANT := mkVARIANT VT_I4 (D_int n).
Definition bstr (s : string) : VARIANT := mkVARIANT VT_BSTR (D_bstr (Some s)).
Definition disp (o : objref) : VARIANT := mkVARIANT VT_DISPATCH (D_disp (Some o)).

Definition args (l : list VARIANT) : DISPPARAMS := mkDISPPARAMS l [].

Definition area_info : func_info_t :=
  {| func_id := 1000; func_name := "area"; tid := 1%nat; hook := None;
     call_vtbl_off := 7; put_vtbl_off := 0; get_vtbl_off := 0;
     func_disp_idx := 0; argc := 3; default_value_cnt := 1; prop_vt := VT_I4;
     arg_types := [VT_I4; VT_I4; VT_I4; Z.lor VT_BYREF VT_I4];
     arg_info := [zero_arg_info; zero_arg_info;
                  {| iid := IID_NULL; default_value := i4 0 |}] |}.

Definition readonly_info : func_info_t :=
  {| func_id := 1001; func_name := "perimeter"; tid := 1%nat; hook := None;
     call_vtbl_off := 0; put_vtbl_off := 0; get_vtbl_off := 8;
     func_disp_idx := -1; argc := 0; default_value_cnt := 0; prop_vt := VT_I4;
     arg_types := []; arg_info := [] |}.

(** Script-side objects of the concrete host: object 7 is an array-like
    [{length: 2, 0: 3, 1: 4}], object 8 is an array-like whose length
    getter fails with E_FAIL, object 9 is [{length: 2, 1: 4}]. *)
Definition script_get_id (o : objref) (nm : string) : HRESULT * DISPID :=
  if String.eqb nm "length" then (S_OK, 100)
  else if String.eqb nm "0" then
    if (o =? 9)%nat then (DISP_E_UNKNOWNNAME, DISPID_UNKNOWN) else (S_OK, 200)
  else if String.eqb nm "1" then (S_OK, 201)
  else (DISP_E_UNKNOWNNAME, DISPID_UNKNOWN).

Definition script_get (o : objref) (id : DISPID) : HRESULT * VARIANT :=
  if id =? 100 then
    if (o =? 8)%nat then (E_FAIL, VariantInit) else (S_OK, i4 2)
  else if id =? 200 then (S_OK, i4 3)
  else if id =? 201 then (S_OK, i4 4)
  else (DISP_E_MEMBERNOTFOUND, VariantInit).

Definition widget_host : host_t :=
  {| get_typeinfo := fun _ => (E_FAIL, None);
     tid_ids := fun t => Z.of_nat t + 100;
     VariantChangeType := fun _ _ => (E_FAIL, VariantInit);
     QueryInterface := fun o _ => (S_OK, Some o);
     get_dispex_for_hook := fun _ => None;
     DispCallFunc := fun _ _ _ a =>
       match a with
       | [w; h; _] => (S_OK, S_OK, D_int (V_I4 w * V_I4 h))
       | _ => (E_FAIL, E_FAIL, D_none)
       end;
     vtbl_get := fun _ _ => (S_OK, D_int 14);
     vtbl_get_variant := fun _ _ => (S_OK, mkVARIANT VT_I4 (D_int 14));
     vtbl_put := fun _ _ _ => S_OK;
     IDispatchEx_GetDispID := fun o nm _ => script_get_id o nm;
     IDispatch_GetIDsOfNames := script_get_id;
     IDispatchEx_InvokeEx := fun o id _ _ _ => script_get o id;
     IDispatch_Invoke := fun o id _ _ => script_get o id;
     sizeof_ptr := 8 |}.

Definition empty_desc : dispex_static_data_t :=
  {| desc_name := "Widget"; vtbl := None; disp_tid := 0%nat; iface_tids := [];
     init_info := None |}.

Definition widget_info (mode : compat_mode_t) : dispex_data_t :=
  {| desc := empty_desc; compat_mode := mode;
     table := {| funcs := [area_info; readonly_info]; func_disp_cnt := 1 |};
     name_table := [0%nat; 1%nat] |}.

Definition widget (mode : compat_mode_t) : DispatchEx :=
  {| info := widget_info mode; prototype := None; dynamic_data := None |}.

(** An instance (object 1) and its prototype (object 2) in IE8 mode: the
    prototype owns the dynamic property "x" = 5, the instance holds a
    PROTREF slot for it. *)
Definition proto_obj : DispatchEx :=
  {| info := widget_info COMPAT_MODE_IE8; prototype := None;
     dynamic_data :=
       Some {| buf_size := 4;
               props := [ {| var := i4 5; name := "x"; flags := 0 |} ] |} |}.

Definition inst_obj : DispatchEx :=
  {| info := widget_info COMPAT_MODE_IE8; prototype := Some 2%nat;
     dynamic_data :=
       Some {| buf_size := 4;
               props := [ {| var := mkVARIANT VT_EMPTY (D_int 0); name := "x";
                             flags := DYNPROP_PROTREF |} ] |} |}.

Definition demo_heap : heap := <[1%nat := inst_obj]> (<[2%nat := proto_obj]> ∅).

(** A stand-in for the builtin branch of dispex_invoke where it is not
    exercised. *)
Definition no_builtin_prop (h : heap) (this this_obj : objref) (id : DISPID)
    (wFlags : Z) (pdp : DISPPARAMS) (res : bool)
    (caller : option IServiceProvider)
    : option (heap * HRESULT * option VARIANT) :=
  Some (h, DISP_E_MEMBERNOTFOUND, None).

(** What a caller observes of a router call: the HRESULT and the value. *)
Definition outcome (r : option (heap * HRESULT * option VARIANT))
  : option (HRESULT * option VARIANT) :=
  match r with
  | Some (_, hres, v) => Some (hres, v)
  | None => None
  end.

(** A chain of three objects, to look at what a fixup does not follow:
    object 3 owns "x", object 2 refers to it and has object 3 as its
    prototype, object 1 refers to the slot of object 2. *)
Definition chain_heap : heap :=
  <[1%nat := inst_obj]>
  (<[2%nat := {| info := widget_info COMPAT_MODE_IE8; prototype := Some 3%nat;
                 dynamic_data :=
                   Some {| buf_size := 4;
                           props := [ {| var := mkVARIANT VT_EMPTY (D_int 0);
                                         name := "x";
                                         flags := DYNPROP_PROTREF |} ] |} |}]>
   (<[3%nat := proto_obj]> ∅)).

(** The store of an object as get_dynamic_data presents it. *)
Definition the_props (This : DispatchEx) : list dynamic_prop_t :=
  props (snd (get_dynamic_data This)).

(** Every slot flagged PROTREF holds an index into the prototype's store
    [pd]; with [pd = None] (no prototype) no slot is flagged PROTREF. *)
Definition refs_ok (l : list dynamic_prop_t) (pd : option dispex_dynamic_data_t)
  : bool :=
  forallb (fun q =>
             if has_flag (flags q) DYNPROP_PROTREF then
               match pd with
               | Some d => (V_UI4 (var q) <? prop_cnt d)%nat
               | None => false
               end
             else true) l.

(** The pointers that get_dynamic_prop follows from [this] are valid: the
    object exists; its prototype, if any, is another existing object that
    has no prototype of its own (get_legacy_prototype passes no window to
    init_dispatch, which leaves [prototype] NULL); and PROTREF slots index
    the prototype's store. *)
Definition store_ok (h : heap) (this : objref) : bool :=
  match h !! this with
  | None => false
  | Some This =>
      match prototype This with
      | None => refs_ok (the_props This) None
      | Some p =>
          negb (p =? this)%nat &&
          match h !! p with
          | None => false
          | Some P =>
              negb (bool_decide (is_Some (prototype P))) &&
              refs_ok (the_props P) None &&
              refs_ok (the_props This) (dynamic_data P)
          end
      end
  end.

(** What a creating lookup establishes: the slot [i] it returns is the
    first one matching the name and is not a tombstone, the pointers stay
    valid, and when the name was already in the store [l0] nothing was
    appended. *)
Definition ensured (h' : heap) (this : objref) (nm : string) (fl : Z) (i : nat)
    (l0 : list dynamic_prop_t) : Prop :=
  exists This' d',
    h' !! this = Some This' /\ dynamic_data This' = Some d' /\
    store_ok h' this = true /\
    find_prop (props d') nm fl 0 = Some i /\
    (exists q, props d' !! i = Some q /\
               has_flag (flags q) DYNPROP_DELETED = false) /\
    (forall i0, find_prop l0 nm fl 0 = Some i0 ->
       i = i0 /\ length (props d') = length l0).

(** The IDispatchEx interface of the array-like object, when it has one. *)
Definition array_dispex (H : host_t) (disp : objref) : option objref :=
  match QueryInterface H disp IID_IDispatchEx with
  | (hres, Some dx) => if SUCCEEDED hres then Some dx else None
  | (_, None) => None
  end.

(** The HRESULT of a function_apply run. *)
Definition apply_hres (r : option (HRESULT * option VARIANT)) : option HRESULT :=
  match r with
  | Some (hres, _) => Some hres
  | None => None
  end.

(** A wrapper bound to [area] of the Widget object. *)
Definition area_func : func_disp_t :=
  {| fn_obj := Some widget_obj; fn_idx := 0; fn_info := Some area_info |}.

(** ** Concrete type information

    Interface 1 declares two read-only properties with the identifiers
    0x80010000 (DISPID_XOBJ_MIN) and 0x00010001; interface 2 declares the
    properties [height] (identifier 5) and [width] (identifier 3), in
    this order.  The first seven FUNCDESCs stand for the IDispatch
    methods. *)
Definition getter_desc (id : DISPID) (off : Z) : FUNCDESC :=
  {| memid := id; invkind := DISPATCH_PROPERTYGET; wFuncFlags := 0;
     cParamsOpt := 0; elemdescFunc_vt := VT_I4; lprgelemdescParam := [];
     oVft := off |}.

Definition idispatch_descs : list FUNCDESC := replicate 7 (getter_desc 0 0).

Definition member_name (id : DISPID) : HRESULT * string :=
  if id =? -2147418112 then (S_OK, "style")
  else if id =? 65537 then (S_OK, "far")
  else if id =? 5 then (S_OK, "height")
  else if id =? 3 then (S_OK, "width")
  else (E_FAIL, "").

Definition make_typeinfo (descs : list FUNCDESC) : ITypeInfo :=
  {| GetFuncDesc := idispatch_descs ++ descs;
     GetDocumentation := member_name;
     GetRefTypeGuid := fun _ => (E_FAIL, IID_NULL);
     ITypeInfo_Invoke := fun _ _ _ _ => (E_NOTIMPL, None) |}.

Definition reflect_host : host_t :=
  {| get_typeinfo := fun t =>
       if (t =? 1)%nat
       then (S_OK, Some (make_typeinfo [getter_desc (-2147418112) 64;
                                        getter_desc 65537 72]))
       else if (t =? 2)%nat
       then (S_OK, Some (make_typeinfo [getter_desc 5 64; getter_desc 3 72]))
       else (E_FAIL, None);
     tid_ids := tid_ids widget_host;
     VariantChangeType := VariantChangeType widget_host;
     QueryInterface := QueryInterface widget_host;
     get_dispex_for_hook := get_dispex_for_hook widget_host;
     DispCallFunc := DispCallFunc widget_host;
     vtbl_get := vtbl_get widget_host;
     vtbl_get_variant := vtbl_get_variant widget_host;
     vtbl_put := vtbl_put widget_host;
     IDispatchEx_GetDispID := IDispatchEx_GetDispID widget_host;
     IDispatch_GetIDsOfNames := IDispatch_GetIDsOfNames widget_host;
     IDispatchEx_InvokeEx := IDispatchEx_InvokeEx widget_host;
     IDispatch_Invoke := IDispatch_Invoke widget_host;
     sizeof_ptr := 8 |}.

(** Interface 3 declares the method [open(n : I4) : I4], the read-only
    property [state] and the method [close() : I4]. *)
Definition method_desc (id : DISPID) (off : Z) (params : list ELEMDESC)
    : FUNCDESC :=
  {| memid := id; invkind := DISPATCH_METHOD; wFuncFlags := 0;
     cParamsOpt := 0; elemdescFunc_vt := VT_I4; lprgelemdescParam := params;
     oVft := off |}.

Definition method_typeinfo : ITypeInfo :=
  {| GetFuncDesc :=
       idispatch_descs ++
       [method_desc 10 56 [{| tdesc_vt := VT_I4; lptdesc_vt := VT_EMPTY;
                              hreftype := 0; wParamFlags := 0;
                              varDefaultValue := VariantInit |}];
        getter_desc 11 64;
        method_desc 12 72 []];
     GetDocumentation := fun id =>
       if id =? 10 then (S_OK, "open"%string)
       else if id =? 11 then (S_OK, "state"%string)
       else if id =? 12 then (S_OK, "close"%string)
       else (E_FAIL, ""%string);
     GetRefTypeGuid := fun _ => (E_FAIL, IID_NULL);
     ITypeInfo_Invoke := fun _ _ _ _ => (E_NOTIMPL, None) |}.

Definition method_host : host_t :=
  {| get_typeinfo := fun t =>
       if (t =? 3)%nat then (S_OK, Some method_typeinfo)
       else get_typeinfo reflect_host t;
     tid_ids := tid_ids widget_host;
     VariantChangeType := VariantChangeType widget_host;
     QueryInterface := QueryInterface widget_host;
     get_dispex_for_hook := get_dispex_for_hook widget_host;
     DispCallFunc := DispCallFunc widget_host;
     vtbl_get := vtbl_get widget_host;
     vtbl_get_variant := vtbl_get_variant widget_host;
     vtbl_put := vtbl_put widget_host;
     IDispatchEx_GetDispID := IDispatchEx_GetDispID widget_host;
     IDispatch_GetIDsOfNames := IDispatch_GetIDsOfNames widget_host;
     IDispatchEx_InvokeEx := IDispatchEx_InvokeEx widget_host;
     IDispatch_Invoke := IDispatch_Invoke widget_host;
     sizeof_ptr := 8 |}.

(** A class whose dispinterface and only interface is [t]. *)
Definition iface_desc (t : tid_t) : dispex_static_data_t :=
  {| desc_name := "Element"; vtbl := None; disp_tid := t;
     iface_tids := [t]; init_info := None |}.

(** A legacy prototype: element 0 of legacy_prototype_dispex, at address
    100, whose class is the one of interface 2, at address 7. *)
Definition legacy_desc : dispex_static_data_t :=
  {| desc_name := "[Interface prototype object]"; vtbl := None;
     disp_tid := 0%nat; iface_tids := [];
     init_info := Some init_info_legacy_prototype |}.

Definition reflect_prototypes : prototype_tables :=
  {| legacy_prototype_dispex := 100;
     prototype_static_data := [(7%nat, iface_desc 2%nat)] |}.

Definition empty_cache : cache_state :=
  {| dispex_data_list := []; info_cache := ∅ |}.

(** The identifiers of a member table, in table order. *)
Definition table_ids (data : dispex_data_t) : list DISPID :=
  map func_id (funcs (table data)).

(** The comparator of the table sort does not overflow on the members of
    [l]: all pairwise differences of identifiers fit a 32-bit int. *)
Definition ids_fit (l : list func_info_t) : Prop :=
  forall a b, In a l -> In b l ->
    -2147483648 <= func_id a - func_id b <= 2147483647.

(** ** Vocabulary of the enumeration order *)

(** The identifiers of the plain properties of a member table, in table
    order. *)
Fixpoint builtin_ids (l : list func_info_t) : list DISPID :=
  match l with
  | [] => []
  | fi :: l' =>
      if func_disp_idx fi =? -1 then func_id fi :: builtin_ids l'
      else builtin_ids l'
  end.

(** The identifiers of the slots of a store that carry none of DELETED,
    HIDDEN, PROTREF, in store order; [k] is the index of the head. *)
Fixpoint dynamic_ids (l : list dynamic_prop_t) (k : nat) : list DISPID :=
  match l with
  | [] => []
  | p :: l' =>
      if has_flag (flags p) dynamic_skip_mask then dynamic_ids l' (S k)
      else dynprop_id k :: dynamic_ids l' (S k)
  end.

(** The class hook enumerates the custom identifiers [l] after [from]:
    each call returns the next one with S_OK, the last one is followed by
    S_FALSE. *)
Fixpoint hook_chain (next : DISPID -> HRESULT * DISPID) (from : DISPID)
    (l : list DISPID) : Prop :=
  match l with
  | [] => fst (next from) = S_FALSE
  | c :: l' =>
      next from = (S_OK, c) /\ is_custom_dispid c = true /\ hook_chain next c l'
  end.

Definition custom_ids (This : DispatchEx) (l : list DISPID) : Prop :=
  match vtbl (desc (info This)) with
  | Some v =>
      match next_dispid v with
      | Some next => hook_chain next DISPID_STARTENUM l
      | None => l = []
      end
  | None => l = []
  end.

(** One call of GetNextDispID followed by the rest of the enumeration. *)
Definition enum_cont (fuel : nat) (this : objref)
    (r : option (heap * HRESULT * option DISPID))
  : option (list DISPID * (HRESULT * option DISPID)) :=
  '(h1, hres, pid) ← r;
  match pid with
  | Some next =>
      if hres =? S_OK
      then '(l, e) ← enumerate fuel h1 this next; Some (next :: l, e)
      else Some ([], (hres, pid))
  | None => Some ([], (hres, None))
  end.

(** The end of an enumeration: S_FALSE with the start sentinel. *)
Definition enum_end : HRESULT * option DISPID := (S_FALSE, Some DISPID_STARTENUM).

(** A Widget-like object whose table is reflected from interface 2. *)
Definition reflected_obj (data : dispex_data_t) : DispatchEx :=
  {| info := data; prototype := None; dynamic_data := None |}.

(** An object with the Widget table, a class hook that enumerates two
    custom identifiers, and five dynamic slots of which the second and the
    last are enumerable. *)
Definition two_customs (id : DISPID) : HRESULT * DISPID :=
  if id =? DISPID_STARTENUM then (S_OK, MSHTML_DISPID_CUSTOM_MIN)
  else if id =? MSHTML_DISPID_CUSTOM_MIN then (S_OK, MSHTML_DISPID_CUSTOM_MIN + 1)
  else (S_FALSE, DISPID_STARTENUM).

Definition enum_obj : DispatchEx :=
  {| info :=
       {| desc := {| desc_name := "Widget";
                     vtbl := Some {| vtbl_invoke := None; vtbl_delete := None;
                                     next_dispid := Some two_customs;
                                     populate_props := None |};
                     disp_tid := 0%nat; iface_tids := []; init_info := None |};
          compat_mode := COMPAT_MODE_IE9;
          table := {| funcs := [area_info; readonly_info]; func_disp_cnt := 1 |};
          name_table := [0%nat; 1%nat] |};
     prototype := None;
     dynamic_data :=
       Some {| buf_size := 8;
               props := [ {| var := i4 1; name := "a"; flags := DYNPROP_HIDDEN |};
                          {| var := i4 2; name := "tag"; flags := 0 |};
                          {| var := VariantInit; name := "gone";
                             flags := DYNPROP_DELETED |};
                          {| var := mkVARIANT VT_EMPTY (D_int 0); name := "x";
                             flags := DYNPROP_PROTREF |};
                          {| var := bstr "v"; name := "last"; flags := 0 |} ] |} |}.

Definition enum_heap : heap := <[1%nat := enum_obj]> ∅.

(** ** Lookup of a member by name, and the remaining IDispatchEx entry points *)

(** The hooks of dispex_static_data_vtbl_t that answer for names.  They
    are fields of the same C struct as the hooks of
    [dispex_static_data_vtbl_t] above, kept in a record of their own; as
    there, a hook acts on what it is given. *)
Record dispex_name_vtbl_t := {
  get_static_dispid : option (compat_mode_t -> string -> Z -> HRESULT * DISPID);
  get_dispid : option (string -> Z -> HRESULT * DISPID);
  get_name : option (DISPID -> HRESULT * option string)
}.

(** The binary search of dispex_get_builtin_id over [name_table] on
    [min..max].  [Some (Some id)] is the member found, [Some None] the end
    of the loop without one (also by the [break] on a name that matches
    only up to case), [None] a run that reads outside the tables or needs
    more than [fuel] iterations. *)
Fixpoint get_builtin_id_loop (fuel : nat) (data : dispex_data_t) (nm : string)
    (grfdex : Z) (min max : Z) : option (option DISPID) :=
  match fuel with
  | O => None
  | S fuel' =>
      if min <=? max then
        let n := (min + max) / 2 in
        p ← name_table data !! Z.to_nat n;
        fi ← funcs (table data) !! p;
        let c := wcsicmp (func_name fi) nm in
        if c =? 0 then
          if has_flag grfdex fdexNameCaseSensitive &&
             negb (wcscmp (func_name fi) nm =? 0)
          then Some None
          else Some (Some (func_id fi))
        else if 0 <? c
        then get_builtin_id_loop fuel' data nm grfdex min (n - 1)
        else get_builtin_id_loop fuel' data nm grfdex (n + 1) max
      else Some None
  end.

Definition get_builtin_id (data : dispex_data_t) (nm : string) (grfdex : Z)
  : option (option DISPID) :=
  get_builtin_id_loop (S (func_cnt (table data))) data nm grfdex
    0 (Z.of_nat (func_cnt (table data)) - 1).

(** dispex_to_string; [None] is the failed [assert(len <= 36)]. *)
Definition dispex_to_string (This : DispatchEx) : option string :=
  if dispex_compat_mode This <? COMPAT_MODE_IE9 then Some "[object]"%string
  else
    let nm := desc_name (desc (info This)) in
    if (String.length nm <=? 36)%nat
    then Some ("[object " +:+ nm +:+ "]")%string
    else None.

Definition dispex_value (This : DispatchEx) (flags : Z)
  : option (HRESULT * option VARIANT) :=
  if flags =? DISPATCH_PROPERTYGET then
    s ← dispex_to_string This;
    Some (S_OK, Some (mkVARIANT VT_BSTR (D_bstr (Some s))))
  else Some (E_NOTIMPL, None).

Section NameLookup.

(** The name hooks of a vtbl. *)
Context (names_of : dispex_static_data_vtbl_t -> dispex_name_vtbl_t).

Definition dispex_get_builtin_id (This : DispatchEx) (nm : string) (grfdex : Z)
  : option (HRESULT * option DISPID) :=
  found ← get_builtin_id (info This) nm grfdex;
  match found with
  | Some id => Some (S_OK, Some id)
  | None =>
      match vtbl (desc (info This)) with
      | Some v =>
          let by_static :=
            match get_static_dispid (names_of v) with
            | Some hook =>
                let r := hook (dispex_compat_mode This) nm grfdex in
                if negb (fst r =? DISP_E_UNKNOWNNAME) then Some r else None
            | None => None
            end in
          match by_static with
          | Some r => Some (fst r, Some (snd r))
          | None =>
              match get_dispid (names_of v) with
              | Some hook =>
                  let r := hook nm grfdex in
                  if negb (fst r =? DISP_E_UNKNOWNNAME)
                  then Some (fst r, Some (snd r))
                  else Some (DISP_E_UNKNOWNNAME, None)
              | None => Some (DISP_E_UNKNOWNNAME, None)
              end
          end
      | None => Some (DISP_E_UNKNOWNNAME, None)
      end
  end.

Definition DispatchEx_GetDispID (fuel : nat) (h : heap) (this : objref)
    (nm : string) (grfdex : Z) : option (heap * HRESULT * option DISPID) :=
  This ← h !! this;
  '(hres, pid) ← dispex_get_builtin_id This nm grfdex;
  if negb (hres =? DISP_E_UNKNOWNNAME) then Some (h, hres, pid)
  else
    '(h1, hres, i) ← get_dynamic_prop fuel h this nm grfdex;
    if FAILED hres then Some (h1, hres, None)
    else Some (h1, S_OK, Some (dynprop_id i)).

(** Only the first name is looked up, and nothing at all when there is
    none. *)
Definition DispatchEx_GetIDsOfNames (fuel : nat) (h : heap) (this : objref)
    (rgszNames : list string) : option (heap * HRESULT * option DISPID) :=
  match rgszNames with
  | [] => Some (h, S_OK, None)
  | nm :: _ => DispatchEx_GetDispID fuel h this nm 0
  end.

Definition DispatchEx_DeleteMemberByName (fuel : nat) (h : heap) (this : objref)
    (nm : string) (grfdex : Z) : option (heap * HRESULT) :=
  This ← h !! this;
  '(h1, hres, pid) ←
    DispatchEx_GetDispID fuel h this nm (Z.land grfdex (Z.lnot fdexNameEnsure));
  if FAILED hres
  then Some (h1, if dispex_compat_mode This <? COMPAT_MODE_IE8 then E_NOTIMPL
                 else hres)
  else id ← pid; dispex_delete_prop h1 this id.

Definition DispatchEx_DeleteMemberByDispID (h : heap) (this : objref) (id : DISPID)
  : option (heap * HRESULT) :=
  dispex_delete_prop h this id.

Definition DispatchEx_GetMemberName (h : heap) (this : objref) (id : DISPID)
  : option (heap * HRESULT * option string) :=
  This0 ← h !! this;
  if is_custom_dispid id then
    match vtbl (desc (info This0)) with
    | Some v =>
        match get_name (names_of v) with
        | Some hook => let r := hook id in Some (h, fst r, snd r)
        | None => Some (h, DISP_E_MEMBERNOTFOUND, None)
        end
    | None => Some (h, DISP_E_MEMBERNOTFOUND, None)
    end
  else if is_dynamic_dispid id then
    let idx := DWORD_sub id DISPID_DYNPROP_0 in
    let '(This1, data) := get_dynamic_data This0 in
    let h1 := <[this := This1]> h in
    if (prop_cnt data <=? idx)%nat then Some (h1, DISP_E_MEMBERNOTFOUND, None)
    else prop ← props data !! idx; Some (h1, S_OK, Some (name prop))
  else
    match get_builtin_func (info This0) id with
    | None => Some (h, DISP_E_MEMBERNOTFOUND, None)
    | Some n =>
        fi ← funcs (table (info This0)) !! n;
        Some (h, S_OK, Some (func_name fi))
    end.

End NameLookup.

(** dispex_get_dprop_ref; the slot index stands for the pointer
    [&prop->var] it returns. *)
Definition dispex_get_dprop_ref (fuel : nat) (h : heap) (this : objref)
    (nm : string) (alloc : bool) : option (heap * HRESULT * nat) :=
  '(h1, hres, i) ←
    get_dynamic_prop fuel h this nm (if alloc then fdexNameEnsure else 0);
  if FAILED hres then Some (h1, hres, 0%nat)
  else
    Some (upd_prop h1 this i
            (fun q => set_flags q
               (Z.land (if alloc then Z.lor (flags q) DYNPROP_HIDDEN else flags q)
                       (Z.lnot DYNPROP_PROTREF))),
          S_OK, i).

(** ** Vocabulary of the lookups *)

(** The name of the member a [name_table] entry points to. *)
Definition name_of (data : dispex_data_t) (p : nat) : string :=
  func_name (nth p (funcs (table data)) zero_func_info).

(** The precondition of the binary search by name: [name_table] lists
    every index of [funcs] once, in strictly increasing order of the names
    compared without case. *)
Definition name_table_ok (data : dispex_data_t) : Prop :=
  Permutation (name_table data) (seq 0 (length (funcs (table data)))) /\
  StronglySorted (fun p q => wcsicmp (name_of data p) (name_of data q) < 0)
    (name_table data).

(** No two members have names that differ only in case. *)
Definition names_distinct_nocase (l : list func_info_t) : Prop :=
  forall i j fi fj,
    l !! i = Some fi -> l !! j = Some fj ->
    wcsicmp (func_name fi) (func_name fj) = 0 -> i = j.

(** A class without name hooks. *)
Definition no_name_hooks (v : dispex_static_data_vtbl_t) : dispex_name_vtbl_t :=
  {| get_static_dispid := None; get_dispid := None; get_name := None |}.

(** ** Vocabulary of the table invariants *)

(** The function-object slots are in bounds and not shared: every
    [func_disp_idx] is below [func_disp_cnt], and two entries with the
    same nonnegative [func_disp_idx] are the same entry. *)
Definition disp_idx_ok (t : func_table) : Prop :=
  (forall fi, In fi (funcs t) -> func_disp_idx fi < Z.of_nat (func_disp_cnt t)) /\
  (forall i j fi fj,
     funcs t !! i = Some fi -> funcs t !! j = Some fj ->
     0 <= func_disp_idx fi -> func_disp_idx fi = func_disp_idx fj -> i = j).

(** The table that preprocess_dispex_data publishes for the members [t]
    it has collected: the members sorted by identifier, and the name
    table sorted by name. *)
Definition sorted_table (desc : dispex_static_data_t) (mode : compat_mode_t)
    (t : func_table) : dispex_data_t :=
  let sorted := qsort dispid_cmp (funcs t) in
  {| desc := desc; compat_mode := mode;
     table := {| funcs := sorted; func_disp_cnt := func_disp_cnt t |};
     name_table := qsort (func_name_cmp sorted) (seq 0 (length sorted)) |}.

(** Every table of the global list satisfies [Q]. *)
Definition cache_tables (Q : dispex_data_t -> Prop) (st : cache_state) : Prop :=
  Forall Q (dispex_data_list st).

(** From [st] to [st1] the cache has only grown: the tables of the global
    list are where they were, with new ones after them, and every slot
    that held a table still holds it. *)
Definition cache_grows (st st1 : cache_state) : Prop :=
  (exists l, dispex_data_list st1 = dispex_data_list st ++ l) /\
  (forall k q, info_cache st !! k = Some q -> info_cache st1 !! k = Some q).

(** The table just linked into the global list, before it is filled. *)
Definition empty_table (desc : dispex_static_data_t) (mode : compat_mode_t)
    : dispex_data_t :=
  {| desc := desc; compat_mode := mode;
     table := {| funcs := []; func_disp_cnt := 0 |}; name_table := [] |}.

(** ** Vocabulary of the dynamic lookups *)

(** The slot a lookup by name answers with: the first slot whose name
    matches, unless that slot is a tombstone. *)
Definition live_slot (l : list dynamic_prop_t) (nm : string) (fl : Z) : option nat :=
  i ← find_prop l nm fl 0;
  q ← l !! i;
  if has_flag (flags q) DYNPROP_DELETED then None else Some i.

(** The slot is left out by the enumeration. *)
Definition skipped (q : dynamic_prop_t) : bool := has_flag (flags q) dynamic_skip_mask.

(** [flags & ~fdexNameEnsure] *)
Definition without_ensure (grfdex : Z) : Z := Z.land grfdex (Z.lnot fdexNameEnsure).

(** The store after slot [i] was deleted. *)
Definition tombstone (q : dynamic_prop_t) : dynamic_prop_t :=
  {| var := VariantClear (var q); name := name q;
     flags := Z.lor (flags q) DYNPROP_DELETED |}.

(** An IE9-mode object with three properties of its own, the second one
    hidden. *)
Definition bag_obj : DispatchEx :=
  {| info := widget_info COMPAT_MODE_IE9; prototype := None;
     dynamic_data :=
       Some {| buf_size := 4;
               props := [ {| var := i4 1; name := "one"; flags := 0 |};
                          {| var := i4 2; name := "two"; flags := DYNPROP_HIDDEN |};
                          {| var := bstr "3"; name := "three"; flags := 0 |} ] |} |}.

Definition bag_heap : heap := <[1%nat := bag_obj]> ∅.

(** What dispex_get_dynid does to the flags of the slot of a hidden
    property. *)
Definition hide (q : dynamic_prop_t) : dynamic_prop_t :=
  set_flags q (Z.land (Z.lor (flags q) DYNPROP_HIDDEN) (Z.lnot DYNPROP_PROTREF)).

(** Every object of [h] is still there in [h'], with the same table and
    prototype, and its slots keep their places and names (the store has
    at most grown at the end). *)
Definition slots_kept (h h' : heap) : Prop :=
  forall o O, h !! o = Some O ->
    exists O', h' !! o = Some O' /\ info O' = info O /\
               prototype O' = prototype O /\
               map name (the_props O) `prefix_of` map name (the_props O').

(** The setter of an integer property: one VT_I4 parameter. *)
Definition i4_param : ELEMDESC :=
  {| tdesc_vt := VT_I4; lptdesc_vt := VT_EMPTY; hreftype := 0; wParamFlags := 0;
     varDefaultValue := VariantInit |}.

Definition setter_desc (id : DISPID) (off : Z) : FUNCDESC :=
  {| memid := id; invkind := DISPATCH_PROPERTYPUT; wFuncFlags := 0;
     cParamsOpt := 0; elemdescFunc_vt := VT_VOID; lprgelemdescParam := [i4_param];
     oVft := off |}.

(** * Properties *)

(** ** Argument shape of a property put, and the missing setter *)


Lemma put_shape_ok_spec dp :
  put_shape_ok dp <-> put_args_invalid dp = false.
Proof.
  unfold put_shape_ok, put_args_invalid, cArgs, cNamedArgs.
  destruct dp as [args named]; simpl.
  split.
  - intros [Hargs [Hn | Hn]]; rewrite Hargs, Hn; reflexivity.
  - intros Hb.
    apply orb_false_iff in Hb as [Hb Hmany].
    apply orb_false_iff in Hb as [Hone Hmis].
    apply negb_false_iff, Nat.eqb_eq in Hone.
    split; [exact Hone|].
    destruct named as [|d [|d' named]]; [now left| |simpl in Hmany; discriminate].
    right. simpl in Hmis.
    apply negb_false_iff, Z.eqb_eq in Hmis. now subst.
Qed.

(** C2. A builtin property put needs exactly one argument and no
    mismatching named argument, otherwise it is E_INVALIDARG; when the
    member has no put slot, the put is S_OK exactly when the compatibility
    mode of the object is at least COMPAT_MODE_IE9, and E_FAIL below. *)
Theorem builtin_propput_shape_and_missing_setter
    (H : host_t) (This : DispatchEx) (iface : objref) (func : func_info_t)
    (dp : DISPPARAMS) (caller : option IServiceProvider) :
  (~ put_shape_ok dp ->
     builtin_propput H This iface func dp caller = E_INVALIDARG) /\
  (put_shape_ok dp -> put_vtbl_off func = 0 ->
     (builtin_propput H This iface func dp caller = S_OK <->
        COMPAT_MODE_IE9 <= dispex_compat_mode This) /\
     (dispex_compat_mode This < COMPAT_MODE_IE9 ->
        builtin_propput H This iface func dp caller = E_FAIL)).
Proof.
  split.
  - intros Hbad.
    assert (Hinv : put_args_invalid dp = true).
    { destruct (put_args_invalid dp) eqn:E; [reflexivity|].
      exfalso. apply Hbad. now apply put_shape_ok_spec. }
    unfold builtin_propput. unfold put_args_invalid in Hinv. now rewrite Hinv.
  - intros Hok Hoff.
    apply put_shape_ok_spec in Hok. unfold put_args_invalid in Hok.
    unfold builtin_propput. rewrite Hok, Hoff. simpl.
    destruct (COMPAT_MODE_IE9 <=? dispex_compat_mode This) eqn:E.
    + apply Z.leb_le in E. split; [tauto | lia].
    + apply Z.leb_gt in E. split; [|reflexivity].
      split; [discriminate | lia].
Qed.

(** ** The function wrapper *)

(** Without a result slot, a read of the value with a caller does not
    return: the string is stored through the NULL [res]. *)
Lemma function_value_get_needs_result (H : host_t) (This : func_disp_t)
    (params : DISPPARAMS) (c : IServiceProvider) :
  function_value H This DISPATCH_PROPERTYGET params false (Some c) = None.
Proof.
  unfold function_value. simpl.
  destruct (fn_info This); simpl; [reflexivity|].
  now destruct (function_props !! fn_idx This).
Qed.

(** C7. Reading the value of a function wrapper without a caller is
    E_ACCESSDENIED and writes no result, with or without a result slot.
    With a caller, the read into the result slot is S_OK and the result
    is the string "\nfunction <name>() {\n    [native code]\n}\n", where
    <name> is the name of the bound member, or "apply"/"call" for the
    two intrinsic facets. *)
Theorem function_value_get_signature
    (H : host_t) (This : func_disp_t) (o : option objref) (i : nat)
    (fi : func_info_t) (params : DISPPARAMS) (c : IServiceProvider) :
  let signature (nm : string) :=
    mkVARIANT VT_BSTR
      (D_bstr (Some (nl +:+ "function " +:+ nm +:+ "() {" +:+ nl +:+
                     "    [native code]" +:+ nl +:+ "}" +:+ nl))) in
  (forall res,
     function_value H This DISPATCH_PROPERTYGET params res None
     = Some (E_ACCESSDENIED, None)) /\
  function_value H {| fn_obj := o; fn_idx := i; fn_info := Some fi |}
    DISPATCH_PROPERTYGET params true (Some c)
  = Some (S_OK, Some (signature (func_name fi))) /\
  function_value H {| fn_obj := o; fn_idx := 0; fn_info := None |}
    DISPATCH_PROPERTYGET params true (Some c)
  = Some (S_OK, Some (signature "apply")) /\
  function_value H {| fn_obj := o; fn_idx := 1; fn_info := None |}
    DISPATCH_PROPERTYGET params true (Some c)
  = Some (S_OK, Some (signature "call")).
Proof. simpl. repeat split. Qed.

(** C10. A wrapper that stands for an intrinsic facet (no member info)
    resolves no name, not even "apply" or "call", and names no
    identifier. *)
Theorem intrinsic_facet_has_no_members (o : option objref) (i : nat) :
  let facet := {| fn_obj := o; fn_idx := i; fn_info := None |} in
  (forall nm flags,
     function_get_dispid facet nm flags = (DISP_E_UNKNOWNNAME, None)) /\
  (forall id, function_get_name facet id = (DISP_E_MEMBERNOTFOUND, None)).
Proof.
  simpl. split.
  - intros nm flags. reflexivity.
  - intros id. unfold function_get_name. simpl.
    now rewrite orb_true_r.
Qed.

(** ** Argument counts and default values of a native method call *)


Section MarshalLemmas.

Context (H : host_t) (func : func_info_t) (caller : option IServiceProvider).






End MarshalLemmas.

Section MarshalPlain.

Context (H : host_t) (func : func_info_t) (caller : option IServiceProvider).






End MarshalPlain.





(** The scenario of the specification: [area(3, 4)] is 12 with the
    default [mode], [area(3)] is refused, and of [area(3, 4, 5, 8, 9)]
    the first three positional arguments are used. *)
Example area_3_4 :
  invoke_builtin_function widget_host widget_obj area_info (args [i4 4; i4 3]) true None
  = (S_OK, Some (i4 12)).
Proof. reflexivity. Qed.

Example area_3 :
  invoke_builtin_function widget_host widget_obj area_info (args [i4 3]) true None
  = (E_INVALIDARG, None).
Proof. reflexivity. Qed.

Example area_excess :
  invoke_builtin_function widget_host widget_obj area_info
    (args [i4 9; i4 8; i4 5; i4 4; i4 3]) true None
  = (S_OK, Some (i4 12)).
Proof. reflexivity. Qed.

Lemma builtin_propput_shape_and_missing_setter_witness :
  builtin_propput widget_host (widget COMPAT_MODE_IE8) widget_obj readonly_info
    (args [i4 1; i4 2]) None = E_INVALIDARG /\
  (builtin_propput widget_host (widget COMPAT_MODE_IE9) widget_obj readonly_info
     (args [i4 1]) None = S_OK <->
   COMPAT_MODE_IE9 <= dispex_compat_mode (widget COMPAT_MODE_IE9)) /\
  builtin_propput widget_host (widget COMPAT_MODE_IE8) widget_obj readonly_info
    (args [i4 1]) None = E_FAIL.
Proof.
  assert (Hshape : put_shape_ok (args [i4 1])) by (split; [reflexivity | now left]).
  split; [|split].
  - destruct (builtin_propput_shape_and_missing_setter widget_host
                (widget COMPAT_MODE_IE8) widget_obj readonly_info
                (args [i4 1; i4 2]) None) as [Hbad _].
    apply Hbad. intros [Hc _]. discriminate Hc.
  - destruct (builtin_propput_shape_and_missing_setter widget_host
                (widget COMPAT_MODE_IE9) widget_obj readonly_info
                (args [i4 1]) None) as [_ Hgood].
    exact (proj1 (Hgood Hshape eq_refl)).
  - destruct (builtin_propput_shape_and_missing_setter widget_host
                (widget COMPAT_MODE_IE8) widget_obj readonly_info
                (args [i4 1]) None) as [_ Hgood].
    apply (proj2 (Hgood Hshape eq_refl)). reflexivity.
Defined.

(** ** The dynamic property store: auxiliary facts *)

(** ** Flags *)

Lemma has_flag_land_lnot f m b :
  Z.land b m = b -> has_flag (Z.land f (Z.lnot m)) b = false.
Proof.
  intros Hb. unfold has_flag. apply negb_false_iff, Z.eqb_eq.
  apply Z.bits_inj'. intros n Hn.
  rewrite !Z.land_spec, Z.lnot_spec, Z.bits_0 by exact Hn.
  assert (Hbit : Z.testbit b n = Z.testbit b n && Z.testbit m n)
    by (now rewrite <- Z.land_spec, Hb).
  destruct (Z.testbit b n), (Z.testbit m n), (Z.testbit f n);
    simpl in *; congruence.
Qed.

Lemma has_flag_lor_deleted f : has_flag (Z.lor f DYNPROP_DELETED) DYNPROP_DELETED = true.
Proof.
  unfold has_flag. apply negb_true_iff, Z.eqb_neq. intros Hz.
  assert (Hbit : Z.testbit (Z.land (Z.lor f DYNPROP_DELETED) DYNPROP_DELETED) 0 = true).
  { rewrite Z.land_spec, Z.lor_spec. simpl. now rewrite orb_true_r. }
  rewrite Hz in Hbit. discriminate.
Qed.

(** ** The heap *)

Lemma get_dynamic_data_Some This This1 data :
  get_dynamic_data This = (This1, data) ->
  dynamic_data This1 = Some data /\ prototype This1 = prototype This /\
  info This1 = info This.
Proof.
  unfold get_dynamic_data. destruct (dynamic_data This) as [d|] eqn:E.
  - intros [= <- <-]. auto.
  - intros [= <- <-]. auto.
Qed.

Lemma get_dynamic_data_fix This data :
  dynamic_data This = Some data -> get_dynamic_data This = (This, data).
Proof. intros E. unfold get_dynamic_data. now rewrite E. Qed.

Lemma read_prop_lookup (h : heap) this This data i :
  h !! this = Some This -> dynamic_data This = Some data ->
  read_prop h this i = props data !! i.
Proof. intros Hl Hd. unfold read_prop. rewrite Hl. simpl. now rewrite Hd. Qed.

Lemma upd_prop_lookup (h : heap) this This data i f :
  h !! this = Some This -> dynamic_data This = Some data ->
  upd_prop h this i f
  = <[this := set_dynamic_data This (set_props data (alter f i (props data)))]> h.
Proof. intros Hl Hd. unfold upd_prop. now rewrite Hl, Hd. Qed.

Lemma fixup_live (rec : heap -> objref -> string -> Z -> dynres) (h : heap) this This data i prop :
  h !! this = Some This -> dynamic_data This = Some data ->
  props data !! i = Some prop ->
  has_flag (flags prop) DYNPROP_DELETED = false ->
  has_flag (flags prop) DYNPROP_PROTREF = false ->
  fixup_prop_ref_with rec h this i = Some h.
Proof.
  intros Hl Hd Hp Hdel Hpr. unfold fixup_prop_ref_with.
  rewrite Hl. simpl. rewrite (read_prop_lookup _ _ _ _ _ Hl Hd), Hp. simpl.
  now rewrite Hdel, Hpr.
Qed.

Lemma dispex_invoke_get_live H ibp fuel (h : heap) this that This data id prop pdp caller :
  h !! this = Some This -> dynamic_data This = Some data ->
  is_dynamic_dispid id = true ->
  props data !! DWORD_sub id DISPID_DYNPROP_0 = Some prop ->
  has_flag (flags prop) DYNPROP_DELETED = false ->
  has_flag (flags prop) DYNPROP_PROTREF = false ->
  dispex_invoke H ibp fuel h this that id DISPATCH_PROPERTYGET pdp true caller
  = Some (h, S_OK, Some (var prop)).
Proof.
  intros Hl Hd Hid Hp Hdel Hpr.
  unfold dispex_invoke. rewrite Hl. simpl.
  unfold get_dispid_type. rewrite Hid.
  rewrite (get_dynamic_data_fix _ _ Hd).
  rewrite (insert_id _ _ _ Hl).
  destruct (prop_cnt data <=? DWORD_sub id DISPID_DYNPROP_0)%nat eqn:E.
  { apply Nat.leb_le in E. apply lookup_lt_Some in Hp. unfold prop_cnt in E. lia. }
  unfold fixup_prop_ref.
  rewrite (fixup_live _ _ _ _ _ _ _ Hl Hd Hp Hdel Hpr). simpl.
  rewrite (read_prop_lookup _ _ _ _ _ Hl Hd), Hp. simpl. rewrite Hdel.
  unfold deref_prop. rewrite Hl. simpl.
  rewrite (read_prop_lookup _ _ _ _ _ Hl Hd), Hp. simpl. rewrite Hpr.
  reflexivity.
Qed.

Lemma dispex_invoke_put H ibp fuel (h : heap) this that This id pdp res caller :
  h !! this = Some This ->
  is_dynamic_dispid id = true ->
  (DWORD_sub id DISPID_DYNPROP_0 < prop_cnt (snd (get_dynamic_data This)))%nat ->
  put_args_invalid pdp = false ->
  dispex_invoke H ibp fuel h this that id DISPATCH_PROPERTYPUT pdp res caller
  = Some (<[this := set_dynamic_data (fst (get_dynamic_data This))
                      (set_props (snd (get_dynamic_data This))
                         (alter (fun q => {| var := hd VariantInit (rgvarg pdp);
                                             name := name q;
                                             flags := Z.land (flags q)
                                                        (Z.lnot (Z.lor DYNPROP_DELETED
                                                                       DYNPROP_PROTREF)) |})
                                (DWORD_sub id DISPID_DYNPROP_0)
                                (props (snd (get_dynamic_data This)))))]> h,
           S_OK, None).
Proof.
  intros Hl Hd Hi Hp.
  unfold dispex_invoke. rewrite Hl. simpl.
  unfold get_dispid_type. rewrite Hd.
  destruct (get_dynamic_data This) as [This1 data] eqn:Eg. simpl in *.
  destruct (prop_cnt data <=? DWORD_sub id DISPID_DYNPROP_0)%nat eqn:E.
  { apply Nat.leb_le in E. lia. }
  rewrite Hp.
  destruct (get_dynamic_data_Some _ _ _ Eg) as (Hdd & _ & _).
  rewrite (upd_prop_lookup _ _ This1 data) by (try apply lookup_insert_eq; exact Hdd).
  now rewrite insert_insert_eq.
Qed.

Lemma dispex_delete_prop_other (h h' : heap) p id hr o :
  dispex_delete_prop h p id = Some (h', hr) -> o <> p -> h' !! o = h !! o.
Proof.
  intros Hdel Hne. unfold dispex_delete_prop in Hdel.
  destruct (h !! p) as [P|] eqn:Hl; simpl in Hdel; [|discriminate].
  destruct (if is_custom_dispid id then _ else _) as [del|].
  { now injection Hdel as <- _. }
  destruct (dispex_compat_mode P <? COMPAT_MODE_IE8).
  { now injection Hdel as <- _. }
  destruct (get_dispid_type id).
  - now injection Hdel as <- _.
  - destruct (get_dynamic_data P) as [P1 data] eqn:Eg.
    destruct (get_dynamic_data_Some _ _ _ Eg) as (Hdd & _ & _).
    destruct (prop_cnt data <=? _)%nat.
    { injection Hdel as <- _. now rewrite lookup_insert_ne. }
    destruct (props data !! _) as [prop|]; simpl in Hdel; [|discriminate].
    destruct (negb _).
    + injection Hdel as <- _.
      rewrite (upd_prop_lookup _ _ P1 data) by (try apply lookup_insert_eq; exact Hdd).
      now rewrite !lookup_insert_ne.
    + injection Hdel as <- _. now rewrite lookup_insert_ne.
  - destruct (get_builtin_func _ _); now injection Hdel as <- _.
Qed.

(** ** A put makes a dynamic slot live *)

(** C9. A well-shaped put on a valid dynamic identifier succeeds, stores
    the value and clears DELETED and PROTREF, whatever the slot was before
    (live, tombstone or prototype reference).  A later get of the same
    identifier returns the stored value, and it still does after any
    deletion performed on another object, the prototype included. *)
Theorem dynamic_put_makes_slot_live
    (H : host_t)
    (ibp : heap -> objref -> objref -> DISPID -> Z -> DISPPARAMS -> bool ->
           option IServiceProvider -> option (heap * HRESULT * option VARIANT))
    (fuel : nat) (h : heap) (this that : objref) (This : DispatchEx)
    (id : DISPID) (v : VARIANT) (named : list DISPID) (res : bool)
    (caller : option IServiceProvider) :
  h !! this = Some This ->
  is_dynamic_dispid id = true ->
  (DWORD_sub id DISPID_DYNPROP_0 < prop_cnt (snd (get_dynamic_data This)))%nat ->
  put_shape_ok (mkDISPPARAMS [v] named) ->
  exists h',
    dispex_invoke H ibp fuel h this that id DISPATCH_PROPERTYPUT
      (mkDISPPARAMS [v] named) res caller = Some (h', S_OK, None) /\
    (exists slot,
       read_prop h' this (DWORD_sub id DISPID_DYNPROP_0) = Some slot /\
       var slot = v /\
       has_flag (flags slot) DYNPROP_DELETED = false /\
       has_flag (flags slot) DYNPROP_PROTREF = false) /\
    (forall fuel' that' pdp' caller',
       dispex_invoke H ibp fuel' h' this that' id DISPATCH_PROPERTYGET
         pdp' true caller' = Some (h', S_OK, Some v)) /\
    (forall p pid h'' hr fuel' that' pdp' caller',
       p <> this ->
       dispex_delete_prop h' p pid = Some (h'', hr) ->
       dispex_invoke H ibp fuel' h'' this that' id DISPATCH_PROPERTYGET
         pdp' true caller' = Some (h'', S_OK, Some v)).
Proof.
  intros Hl Hid Hidx Hshape.
  apply put_shape_ok_spec in Hshape.
  rewrite (dispex_invoke_put H ibp fuel h this that This id _ res caller
             Hl Hid Hidx Hshape).
  destruct (get_dynamic_data This) as [This1 data] eqn:Eg. simpl in *.
  destruct (get_dynamic_data_Some _ _ _ Eg) as (Hdd & _ & _).
  destruct (lookup_lt_is_Some_2 (props data) _ Hidx) as [q Hq].
  set (f := fun q : dynamic_prop_t =>
              {| var := v; name := name q;
                 flags := Z.land (flags q)
                            (Z.lnot (Z.lor DYNPROP_DELETED DYNPROP_PROTREF)) |}).
  set (idx := DWORD_sub id DISPID_DYNPROP_0) in *.
  set (data2 := set_props data (alter f idx (props data))).
  set (This2 := set_dynamic_data This1 data2).
  assert (Hdd2 : dynamic_data This2 = Some data2) by reflexivity.
  assert (Hp2 : props data2 !! idx = Some (f q)).
  { unfold data2. simpl. now rewrite list_lookup_alter_eq, Hq. }
  assert (Hdel : has_flag (flags (f q)) DYNPROP_DELETED = false)
    by (apply has_flag_land_lnot; reflexivity).
  assert (Hpr : has_flag (flags (f q)) DYNPROP_PROTREF = false)
    by (apply has_flag_land_lnot; reflexivity).
  eexists. split; [reflexivity|]. split; [|split].
  - exists (f q). split; [|now repeat split].
    rewrite (read_prop_lookup _ _ This2 data2);
      [exact Hp2 | apply lookup_insert_eq | exact Hdd2].
  - intros fuel' that' pdp' caller'.
    apply (dispex_invoke_get_live H ibp fuel' _ this that' This2 data2 id (f q));
      try assumption.
    apply lookup_insert_eq.
  - intros p pid h'' hr fuel' that' pdp' caller' Hne Hdelp.
    apply (dispex_invoke_get_live H ibp fuel' _ this that' This2 data2 id (f q));
      try assumption.
    rewrite (dispex_delete_prop_other _ _ _ _ _ this Hdelp) by auto.
    apply lookup_insert_eq.
Qed.

Lemma dynamic_put_makes_slot_live_witness :
  exists h',
    dispex_invoke widget_host no_builtin_prop 0 demo_heap 1%nat 1%nat
      DISPID_DYNPROP_0 DISPATCH_PROPERTYPUT (mkDISPPARAMS [i4 7] []) false None
    = Some (h', S_OK, None) /\
    (exists slot,
       read_prop h' 1%nat (DWORD_sub DISPID_DYNPROP_0 DISPID_DYNPROP_0) = Some slot /\
       var slot = i4 7 /\
       has_flag (flags slot) DYNPROP_DELETED = false /\
       has_flag (flags slot) DYNPROP_PROTREF = false) /\
    (forall fuel' that' pdp' caller',
       dispex_invoke widget_host no_builtin_prop fuel' h' 1%nat that'
         DISPID_DYNPROP_0 DISPATCH_PROPERTYGET pdp' true caller'
       = Some (h', S_OK, Some (i4 7))) /\
    (forall p pid h'' hr fuel' that' pdp' caller',
       p <> 1%nat ->
       dispex_delete_prop h' p pid = Some (h'', hr) ->
       dispex_invoke widget_host no_builtin_prop fuel' h'' 1%nat that'
         DISPID_DYNPROP_0 DISPATCH_PROPERTYGET pdp' true caller'
       = Some (h'', S_OK, Some (i4 7))).
Proof.
  apply (dynamic_put_makes_slot_live widget_host no_builtin_prop 0 demo_heap
           1%nat 1%nat inst_obj DISPID_DYNPROP_0 (i4 7) [] false None).
  - reflexivity.
  - reflexivity.
  - vm_compute. lia.
  - split; [reflexivity | now left].
Defined.

(** ** Deleting around a prototype reference *)

Lemma dynprop_id_valid idx :
  dynprop_id idx <= DISPID_DYNPROP_MAX ->
  is_dynamic_dispid (dynprop_id idx) = true /\
  is_custom_dispid (dynprop_id idx) = false /\
  DWORD_sub (dynprop_id idx) DISPID_DYNPROP_0 = idx.
Proof.
  unfold is_dynamic_dispid, is_custom_dispid, dynprop_id, DWORD_sub,
    DISPID_DYNPROP_0, DISPID_DYNPROP_MAX, MSHTML_DISPID_CUSTOM_MIN,
    MSHTML_DISPID_CUSTOM_MAX.
  intros Hi.
  repeat split.
  - apply andb_true_iff. split; apply Z.leb_le; lia.
  - apply andb_false_iff. left. apply Z.leb_gt. lia.
  - replace (1342177280 + Z.of_nat idx - 1342177280) with (Z.of_nat idx) by lia.
    rewrite Z.mod_small by lia. apply Nat2Z.id.
Qed.

Lemma read_prop_upd (h : heap) this This d i f :
  h !! this = Some This -> dynamic_data This = Some d ->
  read_prop (upd_prop h this i f) this i = f <$> props d !! i.
Proof.
  intros Hl Hd. rewrite (upd_prop_lookup _ _ _ _ _ _ Hl Hd).
  rewrite (read_prop_lookup _ _ (set_dynamic_data This (set_props d (alter f i (props d))))
             (set_props d (alter f i (props d))));
    [|apply lookup_insert_eq|reflexivity].
  simpl. apply list_lookup_alter_eq.
Qed.

(** Reading a slot that refers to the prototype: the outcome is decided by
    the prototype's slot alone. *)
Lemma dispex_invoke_get_protref H ibp fuel (h : heap) this that This d idx slot p
    pdp caller :
  h !! this = Some This -> dynamic_data This = Some d ->
  props d !! idx = Some slot ->
  has_flag (flags slot) DYNPROP_DELETED = false ->
  has_flag (flags slot) DYNPROP_PROTREF = true ->
  prototype This = Some p ->
  dynprop_id idx <= DISPID_DYNPROP_MAX ->
  dispex_invoke H ibp fuel h this that (dynprop_id idx) DISPATCH_PROPERTYGET
    pdp true caller
  = match read_prop h p (V_UI4 (var slot)) with
    | Some ps =>
        if has_flag (flags ps) DYNPROP_DELETED
        then Some (upd_prop h this idx (fun q => set_flags q DYNPROP_DELETED),
                   DISP_E_MEMBERNOTFOUND, None)
        else Some (h, S_OK, Some (var ps))
    | None => None
    end.
Proof.
  intros Hl Hd Hp Hdel Hpr Hproto Hidx.
  destruct (dynprop_id_valid idx Hidx) as (Hdyn & _ & Hsub).
  unfold dispex_invoke. rewrite Hl. simpl.
  unfold get_dispid_type. rewrite Hdyn, Hsub.
  rewrite (get_dynamic_data_fix _ _ Hd), (insert_id _ _ _ Hl).
  destruct (prop_cnt d <=? idx)%nat eqn:E.
  { apply Nat.leb_le in E. apply lookup_lt_Some in Hp. unfold prop_cnt in E. lia. }
  unfold fixup_prop_ref, fixup_prop_ref_with. rewrite Hl. simpl.
  rewrite (read_prop_lookup _ _ _ _ _ Hl Hd), Hp. simpl.
  rewrite Hdel, Hpr, Hproto. simpl.
  destruct (read_prop h p (V_UI4 (var slot))) as [ps|] eqn:Eps; simpl;
    [|reflexivity].
  destruct (has_flag (flags ps) DYNPROP_DELETED) eqn:Epd; simpl.
  - rewrite (read_prop_upd _ _ _ _ _ _ Hl Hd), Hp. simpl. reflexivity.
  - rewrite (read_prop_lookup _ _ _ _ _ Hl Hd), Hp. simpl. rewrite Hdel.
    unfold deref_prop. rewrite Hl. simpl.
    rewrite (read_prop_lookup _ _ _ _ _ Hl Hd), Hp. simpl.
    rewrite Hpr, Hproto. simpl. rewrite Eps. reflexivity.
Qed.

Lemma dispex_delete_prop_dynamic (h : heap) this This d idx slot :
  h !! this = Some This -> dynamic_data This = Some d ->
  props d !! idx = Some slot ->
  dynprop_id idx <= DISPID_DYNPROP_MAX ->
  dispex_delete_prop h this (dynprop_id idx)
  = if dispex_compat_mode This <? COMPAT_MODE_IE8 then Some (h, E_NOTIMPL)
    else if has_flag (flags slot) DYNPROP_PROTREF then Some (h, S_OK)
    else Some (<[this := set_dynamic_data This
                           (set_props d
                              (alter (fun q => {| var := VariantClear (var q);
                                                  name := name q;
                                                  flags := Z.lor (flags q)
                                                                 DYNPROP_DELETED |})
                                     idx (props d)))]> h, S_OK).
Proof.
  intros Hl Hd Hp Hidx.
  destruct (dynprop_id_valid idx Hidx) as (Hdyn & Hcus & Hsub).
  unfold dispex_delete_prop. rewrite Hl. simpl. rewrite Hcus.
  destruct (dispex_compat_mode This <? COMPAT_MODE_IE8); [reflexivity|].
  unfold get_dispid_type. rewrite Hdyn, Hsub.
  rewrite (get_dynamic_data_fix _ _ Hd), (insert_id _ _ _ Hl).
  destruct (prop_cnt d <=? idx)%nat eqn:E.
  { apply Nat.leb_le in E. apply lookup_lt_Some in Hp. unfold prop_cnt in E. lia. }
  rewrite Hp. simpl.
  destruct (has_flag (flags slot) DYNPROP_PROTREF); simpl; [reflexivity|].
  now rewrite (upd_prop_lookup _ _ _ _ _ _ Hl Hd).
Qed.

(** C4. An instance slot that refers to its prototype's slot:
    - deleting it on the instance changes nothing (the slot keeps its
      value and flags);
    - once the prototype's own entry is deleted, a read of the instance
      slot is fixed up to DELETED and reports DISP_E_MEMBERNOTFOUND;
    - the outcome of the read depends on the instance and on its direct
      prototype only: no further prototype is consulted. *)
Theorem protref_delete_and_fixup
    (H : host_t)
    (ibp : heap -> objref -> objref -> DISPID -> Z -> DISPPARAMS -> bool ->
           option IServiceProvider -> option (heap * HRESULT * option VARIANT))
    (h : heap) (this p : objref) (This P : DispatchEx)
    (d pd : dispex_dynamic_data_t) (idx : nat) (slot pslot : dynamic_prop_t) :
  h !! this = Some This -> dynamic_data This = Some d ->
  props d !! idx = Some slot ->
  has_flag (flags slot) DYNPROP_DELETED = false ->
  has_flag (flags slot) DYNPROP_PROTREF = true ->
  prototype This = Some p -> p <> this ->
  h !! p = Some P -> dynamic_data P = Some pd ->
  props pd !! V_UI4 (var slot) = Some pslot ->
  has_flag (flags pslot) DYNPROP_PROTREF = false ->
  COMPAT_MODE_IE8 <= dispex_compat_mode P ->
  dynprop_id idx <= DISPID_DYNPROP_MAX ->
  dynprop_id (V_UI4 (var slot)) <= DISPID_DYNPROP_MAX ->
  (exists hr, dispex_delete_prop h this (dynprop_id idx) = Some (h, hr)) /\
  (exists h1,
     dispex_delete_prop h p (dynprop_id (V_UI4 (var slot))) = Some (h1, S_OK) /\
     forall fuel that pdp caller,
       exists h2,
         dispex_invoke H ibp fuel h1 this that (dynprop_id idx)
           DISPATCH_PROPERTYGET pdp true caller
         = Some (h2, DISP_E_MEMBERNOTFOUND, None) /\
         exists slot',
           read_prop h2 this idx = Some slot' /\ flags slot' = DYNPROP_DELETED) /\
  (forall (h' : heap) fuel fuel' that pdp caller,
     h' !! this = h !! this -> h' !! p = h !! p ->
     outcome (dispex_invoke H ibp fuel' h' this that (dynprop_id idx)
                DISPATCH_PROPERTYGET pdp true caller)
     = outcome (dispex_invoke H ibp fuel h this that (dynprop_id idx)
                  DISPATCH_PROPERTYGET pdp true caller)).
Proof.
  intros Hl Hd Hp Hdel Hpr Hproto Hne Hlp Hpd Hps Hppr Hmode Hidx Hj.
  split; [|split].
  - rewrite (dispex_delete_prop_dynamic _ _ _ _ _ _ Hl Hd Hp Hidx), Hpr.
    destruct (dispex_compat_mode This <? COMPAT_MODE_IE8); eauto.
  - rewrite (dispex_delete_prop_dynamic _ _ _ _ _ _ Hlp Hpd Hps Hj), Hppr.
    destruct (dispex_compat_mode P <? COMPAT_MODE_IE8) eqn:E;
      [apply Z.ltb_lt in E; lia|].
    eexists. split; [reflexivity|].
    intros fuel that pdp caller.
    set (del := fun q : dynamic_prop_t =>
                  {| var := VariantClear (var q); name := name q;
                     flags := Z.lor (flags q) DYNPROP_DELETED |}).
    set (pd' := set_props pd (alter del (V_UI4 (var slot)) (props pd))).
    assert (Hl1 : <[p := set_dynamic_data P pd']> h !! this = Some This)
      by (now rewrite lookup_insert_ne).
    rewrite (dispex_invoke_get_protref H ibp fuel _ this that This d idx slot p
               pdp caller Hl1 Hd Hp Hdel Hpr Hproto Hidx).
    rewrite (read_prop_lookup _ _ (set_dynamic_data P pd') pd');
      [|apply lookup_insert_eq|reflexivity].
    unfold pd' at 1. simpl. rewrite list_lookup_alter_eq, Hps. simpl.
    rewrite has_flag_lor_deleted.
    eexists. split; [reflexivity|].
    rewrite (read_prop_upd _ _ _ _ _ _ Hl1 Hd), Hp. simpl. eauto.
  - intros h' fuel fuel' that pdp caller Hsame Hsamep.
    rewrite Hl in Hsame.
    rewrite (dispex_invoke_get_protref H ibp fuel' h' this that This d idx slot p
               pdp caller Hsame Hd Hp Hdel Hpr Hproto Hidx).
    rewrite (dispex_invoke_get_protref H ibp fuel h this that This d idx slot p
               pdp caller Hl Hd Hp Hdel Hpr Hproto Hidx).
    unfold read_prop. rewrite Hsamep.
    destruct (h !! p ≫= _) as [ps|]; [|reflexivity].
    simpl. now destruct (has_flag (flags ps) DYNPROP_DELETED).
Qed.

Lemma protref_delete_and_fixup_witness :
  (exists hr, dispex_delete_prop demo_heap 1%nat (dynprop_id 0) = Some (demo_heap, hr)) /\
  (exists h1,
     dispex_delete_prop demo_heap 2%nat (dynprop_id (V_UI4 (mkVARIANT VT_EMPTY (D_int 0))))
     = Some (h1, S_OK) /\
     forall fuel that pdp caller,
       exists h2,
         dispex_invoke widget_host no_builtin_prop fuel h1 1%nat that (dynprop_id 0)
           DISPATCH_PROPERTYGET pdp true caller
         = Some (h2, DISP_E_MEMBERNOTFOUND, None) /\
         exists slot',
           read_prop h2 1%nat 0 = Some slot' /\ flags slot' = DYNPROP_DELETED) /\
  (forall (h' : heap) fuel fuel' that pdp caller,
     h' !! 1%nat = demo_heap !! 1%nat -> h' !! 2%nat = demo_heap !! 2%nat ->
     outcome (dispex_invoke widget_host no_builtin_prop fuel' h' 1%nat that
                (dynprop_id 0) DISPATCH_PROPERTYGET pdp true caller)
     = outcome (dispex_invoke widget_host no_builtin_prop fuel demo_heap 1%nat that
                  (dynprop_id 0) DISPATCH_PROPERTYGET pdp true caller)).
Proof.
  apply (protref_delete_and_fixup widget_host no_builtin_prop demo_heap 1%nat 2%nat
           inst_obj proto_obj
           {| buf_size := 4;
              props := [ {| var := mkVARIANT VT_EMPTY (D_int 0); name := "x";
                            flags := DYNPROP_PROTREF |} ] |}
           {| buf_size := 4;
              props := [ {| var := i4 5; name := "x"; flags := 0 |} ] |}
           0%nat
           {| var := mkVARIANT VT_EMPTY (D_int 0); name := "x";
              flags := DYNPROP_PROTREF |}
           {| var := i4 5; name := "x"; flags := 0 |});
    try reflexivity; try discriminate; vm_compute; discriminate.
Defined.

(** The fixup is not transitive: in a chain of three objects, deleting the
    entry of the far end is not seen by a read at the near end, which
    still succeeds (with the middle slot as it stands). *)
Example fixup_is_one_level_deep :
  exists h1,
    dispex_delete_prop chain_heap 3%nat (dynprop_id 0) = Some (h1, S_OK) /\
    outcome (dispex_invoke widget_host no_builtin_prop 3 h1 1%nat 1%nat
               (dynprop_id 0) DISPATCH_PROPERTYGET (args []) true None)
    = Some (S_OK, Some (mkVARIANT VT_EMPTY (D_int 0))).
Proof. eexists. split; reflexivity. Qed.

(** ** Creating, deleting and creating again *)

Lemma wcscmp_refl a : wcscmp a a = 0.
Proof. induction a as [|x a IH]; simpl; [reflexivity|]. now rewrite Nat.eqb_refl. Qed.

Lemma name_matches_refl fl q nm : name q = nm -> name_matches fl q nm = true.
Proof.
  intros <-. unfold name_matches, wcsicmp.
  destruct (has_flag fl fdexNameCaseInsensitive); now rewrite wcscmp_refl.
Qed.

Lemma find_prop_names l l' nm fl : forall k,
  map name l = map name l' -> find_prop l nm fl k = find_prop l' nm fl k.
Proof.
  revert l'. induction l as [|q l IH]; intros [|q' l'] k Hn; simpl in *;
    try discriminate; [reflexivity|].
  injection Hn as Hq Hl. unfold name_matches. rewrite Hq.
  destruct (if has_flag fl fdexNameCaseInsensitive then _ else _);
    [reflexivity | now apply IH].
Qed.

Lemma find_prop_Some l nm fl : forall k i,
  find_prop l nm fl k = Some i ->
  (k <= i)%nat /\ exists q, l !! (i - k)%nat = Some q.
Proof.
  induction l as [|q l IH]; intros k i Hf; simpl in Hf; [discriminate|].
  destruct (name_matches fl q nm).
  - injection Hf as <-. split; [lia|]. rewrite Nat.sub_diag. now exists q.
  - apply IH in Hf as [Hle [q' Hq']]. split; [lia|]. exists q'.
    replace (i - k)%nat with (S (i - S k)) by lia. exact Hq'.
Qed.

Lemma find_prop_app l nm fl q : forall k,
  find_prop l nm fl k = None -> name_matches fl q nm = true ->
  find_prop (l ++ [q]) nm fl k = Some (k + length l)%nat.
Proof.
  induction l as [|q0 l IH]; intros k Hf Hm; simpl in *.
  - rewrite Hm. f_equal. lia.
  - destruct (name_matches fl q0 nm); [discriminate|].
    rewrite IH by assumption. f_equal. lia.
Qed.

Lemma refs_ok_lookup l pd i q :
  refs_ok l pd = true -> l !! i = Some q ->
  has_flag (flags q) DYNPROP_PROTREF = true ->
  exists d, pd = Some d /\ (V_UI4 (var q) < prop_cnt d)%nat.
Proof.
  intros Hr Hq Hf. unfold refs_ok in Hr. rewrite forallb_forall in Hr.
  specialize (Hr q). rewrite Hf in Hr.
  destruct pd as [d|].
  - exists d. split; [reflexivity|]. apply Nat.ltb_lt, Hr.
    apply list_elem_of_In, list_elem_of_lookup. eauto.
  - discriminate Hr. apply list_elem_of_In, list_elem_of_lookup. eauto.
Qed.

Lemma refs_ok_alter l pd i f :
  refs_ok l pd = true ->
  (forall q, l !! i = Some q -> refs_ok [f q] pd = true) ->
  refs_ok (alter f i l) pd = true.
Proof.
  revert i. induction l as [|q0 l IH]; intros i Hr Hf; [reflexivity|].
  simpl in Hr. apply andb_true_iff in Hr as [H0 Hr].
  destruct i as [|i]; simpl.
  - rewrite Hr, andb_true_r.
    specialize (Hf q0 eq_refl). simpl in Hf. now rewrite andb_true_r in Hf.
  - rewrite H0. simpl. apply IH; [exact Hr|]. intros q Hq. now apply Hf.
Qed.

Lemma refs_ok_app l pd q :
  refs_ok l pd = true -> refs_ok [q] pd = true -> refs_ok (l ++ [q]) pd = true.
Proof.
  intros Hl Hq. unfold refs_ok in *. rewrite forallb_app, Hl. exact Hq.
Qed.

Lemma the_props_Some This d : dynamic_data This = Some d -> the_props This = props d.
Proof. intros Hd. unfold the_props. now rewrite (get_dynamic_data_fix _ _ Hd). Qed.

Lemma the_props_init This This1 d :
  get_dynamic_data This = (This1, d) -> the_props This = props d /\ the_props This1 = props d.
Proof.
  intros Eg. unfold the_props at 1. rewrite Eg. split; [reflexivity|].
  apply the_props_Some. now destruct (get_dynamic_data_Some _ _ _ Eg).
Qed.

(** If the object already has its dynamic data, initialising it again
    changes nothing. *)
Lemma get_dynamic_data_same This This1 d d0 :
  get_dynamic_data This = (This1, d) -> dynamic_data This = Some d0 ->
  This1 = This /\ d = d0.
Proof.
  intros Eg Hd. rewrite (get_dynamic_data_fix _ _ Hd) in Eg. now injection Eg as <- <-.
Qed.

Lemma get_dynamic_prop_unfold fuel (h : heap) this nm fl :
  get_dynamic_prop (S fuel) h this nm fl
  = (This0 ← h !! this;
     let '(This, data) := get_dynamic_data This0 in
     let h := <[this := This]> h in
     let alloc := has_flag fl fdexNameEnsure in
     match find_prop (props data) nm fl 0 with
     | Some i =>
         h ← fixup_prop_ref_with (get_dynamic_prop fuel) h this i;
         prop ← read_prop h this i;
         if has_flag (flags prop) DYNPROP_DELETED then
           if alloc then
             Some (upd_prop h this i
                     (fun q => set_flags q (Z.land (flags q) (Z.lnot DYNPROP_DELETED))),
                   S_OK, i)
           else Some (h, DISP_E_UNKNOWNNAME, i)
         else Some (h, S_OK, i)
     | None =>
         let create (h : heap) (prot_prop : option nat) : dynres :=
           if negb alloc && negb (bool_decide (is_Some prot_prop))
           then Some (h, DISP_E_UNKNOWNNAME, 0%nat)
           else
             This' ← h !! this;
             d ← dynamic_data This';
             Some (<[this := set_dynamic_data This' (append_prop d nm prot_prop)]> h,
                   S_OK, prop_cnt d) in
         match prototype This with
         | Some p =>
             '(h1, hres, j) ← get_dynamic_prop fuel h p nm fdexNameCaseSensitive;
             if hres =? DISP_E_UNKNOWNNAME then create h1 None
             else if FAILED hres then Some (h1, hres, 0%nat)
             else
               prot_prop ← read_prop h1 p j;
               if has_flag (flags prot_prop) DYNPROP_DELETED
               then create h1 None
               else create h1 (Some j)
         | None => create h None
         end
     end).
Proof. reflexivity. Qed.

(** A lookup without creation on an object that has no prototype: the
    only change to the heap is the initialisation of its dynamic data. *)
Lemma get_dynamic_prop_proto fuel (h : heap) p P nm :
  h !! p = Some P -> prototype P = None ->
  refs_ok (the_props P) None = true ->
  exists hres j,
    get_dynamic_prop (S fuel) h p nm fdexNameCaseSensitive
    = Some (<[p := fst (get_dynamic_data P)]> h, hres, j) /\
    (hres = DISP_E_UNKNOWNNAME \/
     hres = S_OK /\
     exists q, the_props P !! j = Some q /\
               has_flag (flags q) DYNPROP_DELETED = false).
Proof.
  intros Hl Hproto Hrefs.
  rewrite get_dynamic_prop_unfold, Hl. simpl.
  destruct (get_dynamic_data P) as [P1 pd] eqn:Eg. simpl.
  destruct (get_dynamic_data_Some _ _ _ Eg) as (Hdd & Hpp & _).
  destruct (the_props_init _ _ _ Eg) as [Htp _]. rewrite Htp in *.
  assert (Hl1 : <[p := P1]> h !! p = Some P1) by apply lookup_insert_eq.
  change (has_flag fdexNameCaseSensitive fdexNameEnsure) with false. simpl.
  destruct (find_prop (props pd) nm fdexNameCaseSensitive 0) as [j|] eqn:Ef.
  - destruct (find_prop_Some _ _ _ _ _ Ef) as [_ [q Hq]].
    rewrite Nat.sub_0_r in Hq.
    assert (Hfix : fixup_prop_ref_with (get_dynamic_prop fuel) (<[p := P1]> h) p j
                   = Some (<[p := P1]> h)).
    { unfold fixup_prop_ref_with. rewrite Hl1. simpl.
      rewrite (read_prop_lookup _ _ _ _ _ Hl1 Hdd), Hq. simpl.
      rewrite Hpp, Hproto.
      destruct (has_flag (flags q) DYNPROP_DELETED); [reflexivity|].
      destruct (has_flag (flags q) DYNPROP_PROTREF) eqn:Epr; [|reflexivity].
      destruct (refs_ok_lookup _ _ _ _ Hrefs Hq Epr) as (d & Hd & _).
      discriminate. }
    rewrite Hfix. simpl.
    rewrite (read_prop_lookup _ _ _ _ _ Hl1 Hdd), Hq. simpl.
    destruct (has_flag (flags q) DYNPROP_DELETED) eqn:Edel.
    + exists DISP_E_UNKNOWNNAME, j. split; [reflexivity | now left].
    + exists S_OK, j. split; [reflexivity|]. right. eauto.
  - rewrite Hpp, Hproto. simpl.
    exists DISP_E_UNKNOWNNAME, 0%nat. split; [reflexivity | now left].
Qed.

Lemma refs_ok_init l P P1 pd :
  get_dynamic_data P = (P1, pd) ->
  refs_ok l (dynamic_data P) = true -> refs_ok l (Some pd) = true.
Proof.
  intros Eg Hr. destruct (dynamic_data P) as [d0|] eqn:Hd.
  - now destruct (get_dynamic_data_same _ _ _ _ Eg Hd) as [_ ->].
  - unfold refs_ok in *. rewrite forallb_forall in *. intros q Hq.
    specialize (Hr q Hq). now destruct (has_flag (flags q) DYNPROP_PROTREF).
Qed.

Lemma has_flag_clear_deleted f :
  has_flag (Z.land f (Z.lnot DYNPROP_DELETED)) DYNPROP_PROTREF
  = has_flag f DYNPROP_PROTREF.
Proof.
  unfold has_flag. do 2 f_equal.
  apply Z.bits_inj'. intros n Hn.
  rewrite !Z.land_spec, Z.lnot_spec by exact Hn.
  destruct (Z.eq_dec n 2) as [->|Hne].
  - simpl. now rewrite andb_true_r.
  - replace (Z.testbit DYNPROP_PROTREF n) with false; [now rewrite !andb_false_r|].
    symmetry. unfold DYNPROP_PROTREF.
    destruct n as [|n|n]; try reflexivity; try lia.
    destruct n as [n|n|]; try reflexivity.
    destruct n; try reflexivity. lia.
Qed.

Lemma store_ok_proto (h : heap) this This p P :
  h !! this = Some This -> prototype This = Some p -> p <> this ->
  h !! p = Some P -> prototype P = None ->
  refs_ok (the_props P) None = true ->
  refs_ok (the_props This) (dynamic_data P) = true ->
  store_ok h this = true.
Proof.
  intros Hl Hp Hne Hlp Hpp Hrp Hr. unfold store_ok.
  rewrite Hl, Hp, Hlp, Hpp, Hrp, Hr.
  destruct (p =? this)%nat eqn:E; [apply Nat.eqb_eq in E; contradiction|].
  reflexivity.
Qed.

Lemma store_ok_noproto (h : heap) this This :
  h !! this = Some This -> prototype This = None ->
  refs_ok (the_props This) None = true ->
  store_ok h this = true.
Proof. intros Hl Hp Hr. unfold store_ok. now rewrite Hl, Hp. Qed.

Lemma store_ok_inv (h : heap) this This :
  store_ok h this = true -> h !! this = Some This ->
  match prototype This with
  | None => refs_ok (the_props This) None = true
  | Some p =>
      p <> this /\
      exists P, h !! p = Some P /\ prototype P = None /\
                refs_ok (the_props P) None = true /\
                refs_ok (the_props This) (dynamic_data P) = true
  end.
Proof.
  intros Hok Hl. unfold store_ok in Hok. rewrite Hl in Hok.
  destruct (prototype This) as [p|]; [|exact Hok].
  apply andb_true_iff in Hok as [Hne Hok].
  apply negb_true_iff, Nat.eqb_neq in Hne. split; [exact Hne|].
  destruct (h !! p) as [P|]; [|discriminate].
  exists P. apply andb_true_iff in Hok as [Hok Hr].
  apply andb_true_iff in Hok as [Hpp Hrp].
  apply negb_true_iff, bool_decide_eq_false in Hpp.
  repeat split; try assumption.
  destruct (prototype P); [|reflexivity]. exfalso. apply Hpp. eauto.
Qed.

(** The state reached by writing the slots [l'] of [this]. *)
Lemma written_state (h : heap) this This data l' :
  dynamic_data This = Some data ->
  let This' := set_dynamic_data This (set_props data l') in
  <[this := This']> h !! this = Some This' /\
  dynamic_data This' = Some (set_props data l') /\
  prototype This' = prototype This /\
  the_props This' = l'.
Proof.
  intros Hd This'. repeat split.
  - apply lookup_insert_eq.
Qed.

Arguments get_dynamic_prop : simpl never.

Lemma ensured_found (h' : heap) this This' d' nm fl i l0 :
  h' !! this = Some This' -> dynamic_data This' = Some d' ->
  store_ok h' this = true ->
  map name (props d') = map name l0 ->
  find_prop l0 nm fl 0 = Some i ->
  forall q, props d' !! i = Some q ->
  has_flag (flags q) DYNPROP_DELETED = false ->
  ensured h' this nm fl i l0.
Proof.
  intros Hl Hd Hok Hn Hf q Hq Hdel. exists This', d'.
  split; [exact Hl|]. split; [exact Hd|]. split; [exact Hok|].
  split; [now rewrite (find_prop_names _ _ _ _ _ Hn)|].
  split; [eauto|].
  intros i0 Hi0. rewrite Hf in Hi0. injection Hi0 as <-. split; [reflexivity|].
  rewrite <- (length_map name (props d')), Hn. apply length_map.
Qed.

Lemma map_name_alter (f : dynamic_prop_t -> dynamic_prop_t) i l :
  (forall q, name (f q) = name q) -> map name (alter f i l) = map name l.
Proof.
  intros Hf. apply list_eq. intros j. rewrite !list_lookup_fmap.
  destruct (decide (i = j)) as [->|Hne].
  - rewrite list_lookup_alter_eq. destruct (l !! j) as [q|]; simpl; [|reflexivity].
    now rewrite Hf.
  - now rewrite list_lookup_alter_ne.
Qed.

Lemma ensure_noproto fuel (h : heap) this This0 nm fl :
  h !! this = Some This0 -> prototype This0 = None ->
  refs_ok (the_props This0) None = true ->
  has_flag fl fdexNameEnsure = true ->
  exists h' i,
    get_dynamic_prop (S fuel) h this nm fl = Some (h', S_OK, i) /\
    ensured h' this nm fl i (the_props This0).
Proof.
  intros Hl Hproto Hrefs Halloc.
  rewrite get_dynamic_prop_unfold, Hl. simpl.
  destruct (get_dynamic_data This0) as [This data] eqn:Eg. simpl.
  destruct (get_dynamic_data_Some _ _ _ Eg) as (Hdd & Hpp & _).
  destruct (the_props_init _ _ _ Eg) as [Htp Htp1]. rewrite Htp in *.
  rewrite Hproto in Hpp.
  assert (HlA : <[this := This]> h !! this = Some This) by apply lookup_insert_eq.
  rewrite Halloc.
  destruct (find_prop (props data) nm fl 0) as [i|] eqn:Ef.
  - destruct (find_prop_Some _ _ _ _ _ Ef) as [_ [q Hq]].
    rewrite Nat.sub_0_r in Hq.
    assert (Hfix : fixup_prop_ref_with (get_dynamic_prop fuel) (<[this := This]> h) this i
                   = Some (<[this := This]> h)).
    { unfold fixup_prop_ref_with. rewrite HlA. simpl.
      rewrite (read_prop_lookup _ _ _ _ _ HlA Hdd), Hq. simpl. rewrite Hpp.
      destruct (has_flag (flags q) DYNPROP_DELETED); [reflexivity|].
      destruct (has_flag (flags q) DYNPROP_PROTREF) eqn:Epr; [|reflexivity].
      destruct (refs_ok_lookup _ _ _ _ Hrefs Hq Epr) as (d & Hd & _).
      discriminate. }
    rewrite Hfix. simpl.
    rewrite (read_prop_lookup _ _ _ _ _ HlA Hdd), Hq. simpl.
    destruct (has_flag (flags q) DYNPROP_DELETED) eqn:Edel.
    + rewrite (upd_prop_lookup _ _ _ _ _ _ HlA Hdd), insert_insert_eq.
      eexists _, i. split; [reflexivity|].
      set (f := fun q : dynamic_prop_t =>
                  set_flags q (Z.land (flags q) (Z.lnot DYNPROP_DELETED))).
      destruct (written_state h this This data (alter f i (props data)) Hdd)
        as (Hl' & Hd' & Hp' & Ht').
      apply (ensured_found _ this _ _ nm fl i (props data) Hl' Hd') with (q := f q).
      * eapply store_ok_noproto; [exact Hl' | congruence |].
        rewrite Ht'. apply refs_ok_alter; [exact Hrefs|].
        intros q0 Hq0. rewrite Hq in Hq0. injection Hq0 as <-.
        simpl. rewrite has_flag_clear_deleted.
        destruct (has_flag (flags q) DYNPROP_PROTREF) eqn:Epr; [|reflexivity].
        destruct (refs_ok_lookup _ _ _ _ Hrefs Hq Epr) as (d & Hd & _).
        discriminate.
      * simpl. now apply map_name_alter.
      * exact Ef.
      * simpl. now rewrite list_lookup_alter_eq, Hq.
      * apply has_flag_land_lnot. reflexivity.
    + eexists _, i. split; [reflexivity|].
      apply (ensured_found _ this _ _ nm fl i (props data) HlA Hdd) with (q := q);
        [|reflexivity|exact Ef|exact Hq|exact Edel].
      eapply store_ok_noproto; [exact HlA | exact Hpp | now rewrite Htp1].
  - rewrite Hpp. simpl. rewrite HlA. simpl. rewrite Hdd. simpl.
    rewrite insert_insert_eq.
    eexists _, _. split; [reflexivity|].
    destruct (written_state h this This data
                (props data ++ [ {| var := VariantInit; name := nm; flags := 0 |} ]) Hdd)
      as (Hl' & Hd' & Hp' & Ht').
    unfold append_prop. simpl.
    eexists _, _. split; [apply lookup_insert_eq|]. split; [reflexivity|].
    split; [|split; [|split]].
    + eapply store_ok_noproto; [apply lookup_insert_eq | exact Hpp |].
      unfold the_props. simpl. apply refs_ok_app; [exact Hrefs | reflexivity].
    + simpl. rewrite (find_prop_app _ _ _ _ _ Ef); [reflexivity|].
      now apply name_matches_refl.
    + simpl. unfold prop_cnt. rewrite lookup_app_r, Nat.sub_diag by lia.
      eexists. split; reflexivity.
    + intros i0 Hi0. congruence.
Qed.

Lemma refs_ok_one q pd :
  (has_flag (flags q) DYNPROP_PROTREF = true ->
   exists d, pd = Some d /\ (V_UI4 (var q) < prop_cnt d)%nat) ->
  refs_ok [q] pd = true.
Proof.
  intros Hq. simpl. rewrite andb_true_r.
  destruct (has_flag (flags q) DYNPROP_PROTREF); [|reflexivity].
  destruct (Hq eq_refl) as (d & -> & Hlt). now apply Nat.ltb_lt.
Qed.

Lemma ensure_proto fuel (h : heap) this This0 p P nm fl :
  h !! this = Some This0 -> prototype This0 = Some p -> p <> this ->
  h !! p = Some P -> prototype P = None ->
  refs_ok (the_props P) None = true ->
  refs_ok (the_props This0) (dynamic_data P) = true ->
  has_flag fl fdexNameEnsure = true ->
  exists h' i,
    get_dynamic_prop (S (S fuel)) h this nm fl = Some (h', S_OK, i) /\
    ensured h' this nm fl i (the_props This0).
Proof.
  intros Hl Hproto Hne Hlp HprotoP HrefsP Hrefs Halloc.
  rewrite get_dynamic_prop_unfold, Hl. simpl.
  destruct (get_dynamic_data This0) as [This data] eqn:Eg. simpl.
  destruct (get_dynamic_data_Some _ _ _ Eg) as (Hdd & Hpp & _).
  destruct (the_props_init _ _ _ Eg) as [Htp Htp1]. rewrite Htp in *.
  rewrite Hproto in Hpp.
  set (hA := <[this := This]> h).
  assert (HlA : hA !! this = Some This) by apply lookup_insert_eq.
  assert (HlAp : hA !! p = Some P) by (unfold hA; now rewrite lookup_insert_ne).
  destruct (get_dynamic_data P) as [P1 pd] eqn:EgP.
  destruct (get_dynamic_data_Some _ _ _ EgP) as (HddP & HppP & _).
  destruct (the_props_init _ _ _ EgP) as [HtpP HtpP1]. rewrite HtpP in *.
  rewrite HprotoP in HppP.
  pose proof (refs_ok_init _ _ _ _ EgP Hrefs) as HrefsB.
  set (hB := <[p := P1]> hA).
  assert (HlB : hB !! this = Some This) by (unfold hB; now rewrite lookup_insert_ne).
  assert (HlBp : hB !! p = Some P1) by apply lookup_insert_eq.
  assert (Hrec : forall nm', exists hres j,
             get_dynamic_prop (S fuel) hA p nm' fdexNameCaseSensitive
             = Some (hB, hres, j) /\
             (hres = DISP_E_UNKNOWNNAME \/
              hres = S_OK /\
              exists q, props pd !! j = Some q /\
                        has_flag (flags q) DYNPROP_DELETED = false)).
  { intros nm'.
    destruct (get_dynamic_prop_proto fuel hA p P nm' HlAp HprotoP) as (hres & j & Hr & Hc).
    - now rewrite HtpP.
    - rewrite EgP in Hr. simpl in Hr. rewrite HtpP in Hc. eauto. }
  (* the three shapes of the final heap *)
  assert (HokA : forall l',
             map name l' = map name (props data) ->
             refs_ok l' (dynamic_data P) = true ->
             forall i q', find_prop (props data) nm fl 0 = Some i ->
             l' !! i = Some q' -> has_flag (flags q') DYNPROP_DELETED = false ->
             ensured (<[this := set_dynamic_data This (set_props data l')]> hA)
               this nm fl i (props data)).
  { intros l' Hn Hr' i q' Hf Hq' Hdel'.
    destruct (written_state hA this This data l' Hdd) as (Hl' & Hd' & Hp' & Ht').
    apply (ensured_found _ this _ _ nm fl i (props data) Hl' Hd') with (q := q');
      [|exact Hn|exact Hf|exact Hq'|exact Hdel'].
    eapply (store_ok_proto _ this _ p P);
      [exact Hl' | congruence | exact Hne | now rewrite lookup_insert_ne
      | exact HprotoP | now rewrite HtpP | now rewrite Ht']. }
  assert (HokB : forall l',
             map name l' = map name (props data) ->
             refs_ok l' (Some pd) = true ->
             forall i q', find_prop (props data) nm fl 0 = Some i ->
             l' !! i = Some q' -> has_flag (flags q') DYNPROP_DELETED = false ->
             ensured (<[this := set_dynamic_data This (set_props data l')]> hB)
               this nm fl i (props data)).
  { intros l' Hn Hr' i q' Hf Hq' Hdel'.
    destruct (written_state hB this This data l' Hdd) as (Hl' & Hd' & Hp' & Ht').
    apply (ensured_found _ this _ _ nm fl i (props data) Hl' Hd') with (q := q');
      [|exact Hn|exact Hf|exact Hq'|exact Hdel'].
    eapply (store_ok_proto _ this _ p P1);
      [exact Hl' | congruence | exact Hne | now rewrite lookup_insert_ne
      | exact HppP | now rewrite HtpP1 | now rewrite Ht', HddP]. }
  rewrite Halloc.
  destruct (find_prop (props data) nm fl 0) as [i|] eqn:Ef.
  - destruct (find_prop_Some _ _ _ _ _ Ef) as [_ [q Hq]].
    rewrite Nat.sub_0_r in Hq.
    unfold fixup_prop_ref_with. fold hA. rewrite HlA. simpl.
    rewrite (read_prop_lookup _ _ _ _ _ HlA Hdd), Hq. simpl. rewrite Hpp.
    destruct (has_flag (flags q) DYNPROP_DELETED) eqn:Edel.
    + destruct (Hrec (name q)) as (hres & j & Hr & Hc). rewrite Hr. simpl.
      destruct Hc as [-> | [-> (qj & Hqj & Hqjdel)]].
      * change (FAILED DISP_E_UNKNOWNNAME) with true. simpl.
        rewrite (read_prop_lookup _ _ _ _ _ HlB Hdd), Hq. simpl. rewrite Edel.
        rewrite (upd_prop_lookup _ _ _ _ _ _ HlB Hdd).
        eexists _, i. split; [reflexivity|].
        eapply HokB;
          [now apply map_name_alter | | reflexivity
          | now rewrite list_lookup_alter_eq, Hq
          | apply has_flag_land_lnot; reflexivity].
        apply refs_ok_alter; [exact HrefsB|].
        intros q0 Hq0. rewrite Hq in Hq0. injection Hq0 as <-.
        apply refs_ok_one. simpl. rewrite has_flag_clear_deleted. intros Epr.
        exact (refs_ok_lookup _ _ _ _ HrefsB Hq Epr).
      * change (FAILED S_OK) with false. simpl.
        rewrite (read_prop_lookup _ _ _ _ _ HlBp HddP), Hqj. simpl. rewrite Hqjdel.
        simpl.
        rewrite (read_prop_upd _ _ _ _ _ _ HlB Hdd), Hq. simpl.
        change (has_flag DYNPROP_PROTREF DYNPROP_DELETED) with false. simpl.
        rewrite (upd_prop_lookup _ _ _ _ _ _ HlB Hdd).
        eexists _, i. split; [reflexivity|].
        eapply HokB;
          [now apply map_name_alter | | reflexivity
          | now rewrite list_lookup_alter_eq, Hq
          | reflexivity].
        apply refs_ok_alter; [exact HrefsB|].
        intros q0 _. apply refs_ok_one. intros _. exists pd. split; [reflexivity|].
        simpl. unfold V_UI4, V_I4. simpl. rewrite Nat2Z.id.
        apply lookup_lt_Some in Hqj. exact Hqj.
    + destruct (has_flag (flags q) DYNPROP_PROTREF) eqn:Epr.
      * simpl.
        destruct (refs_ok_lookup _ _ _ _ Hrefs Hq Epr) as (pd0 & Hpd0 & Href).
        destruct (lookup_lt_is_Some_2 (props pd0) _ Href) as [ps Hps].
        rewrite (read_prop_lookup _ _ _ _ _ HlAp Hpd0), Hps. simpl.
        destruct (has_flag (flags ps) DYNPROP_DELETED) eqn:Epsd; simpl.
        -- rewrite (read_prop_upd _ _ _ _ _ _ HlA Hdd), Hq. simpl.
           change (has_flag DYNPROP_DELETED DYNPROP_DELETED) with true. simpl.
           rewrite (upd_prop_lookup _ _ _ _ _ _ HlA Hdd).
           erewrite (upd_prop_lookup _ this); [|apply lookup_insert_eq|reflexivity].
           rewrite insert_insert_eq. simpl.
           eexists _, i. split; [reflexivity|].
           eapply HokA;
             [| | reflexivity
              | now rewrite !list_lookup_alter_eq, Hq
              | reflexivity].
           ++ rewrite !map_name_alter; [reflexivity | reflexivity | reflexivity].
           ++ apply refs_ok_alter.
              ** apply refs_ok_alter; [exact Hrefs|]. intros q0 _. reflexivity.
              ** intros q0 Hq0. rewrite list_lookup_alter_eq, Hq in Hq0.
                 injection Hq0 as <-. reflexivity.
        -- rewrite (read_prop_lookup _ _ _ _ _ HlA Hdd), Hq. simpl. rewrite Edel.
           eexists _, i. split; [reflexivity|].
           apply (ensured_found _ this _ _ nm fl i (props data) HlA Hdd) with (q := q);
             [|reflexivity|exact Ef|exact Hq|exact Edel].
           eapply (store_ok_proto _ this _ p P);
             [exact HlA | exact Hpp | exact Hne | exact HlAp | exact HprotoP
             | now rewrite HtpP | now rewrite Htp1].
      * simpl.
        rewrite (read_prop_lookup _ _ _ _ _ HlA Hdd), Hq. simpl. rewrite Edel.
        eexists _, i. split; [reflexivity|].
        apply (ensured_found _ this _ _ nm fl i (props data) HlA Hdd) with (q := q);
          [|reflexivity|exact Ef|exact Hq|exact Edel].
        eapply (store_ok_proto _ this _ p P);
          [exact HlA | exact Hpp | exact Hne | exact HlAp | exact HprotoP
          | now rewrite HtpP | now rewrite Htp1].
  - fold hA. rewrite Hpp.
    destruct (Hrec nm) as (hres & j & Hr & Hc). rewrite Hr. simpl.
    assert (Hnew : forall prot_prop,
               refs_ok [ match prot_prop with
                         | Some j => {| var := mkVARIANT VT_EMPTY (D_int (Z.of_nat j));
                                        name := nm; flags := DYNPROP_PROTREF |}
                         | None => {| var := VariantInit; name := nm; flags := 0 |}
                         end ] (Some pd) = true ->
               exists h' i,
                 (This' ← hB !! this;
                  d ← dynamic_data This';
                  Some (<[this := set_dynamic_data This' (append_prop d nm prot_prop)]> hB,
                        S_OK, prop_cnt d)) = Some (h', S_OK, i) /\
                 ensured h' this nm fl i (props data)).
    { intros prot_prop Hr'. rewrite HlB. simpl. rewrite Hdd. simpl.
      eexists _, _. split; [reflexivity|].
      eexists _, _. split; [apply lookup_insert_eq|]. split; [reflexivity|].
      split; [|split; [|split]].
      - eapply (store_ok_proto _ this _ p P1);
          [apply lookup_insert_eq | exact Hpp | exact Hne
          | now rewrite lookup_insert_ne | exact HppP | now rewrite HtpP1 |].
        unfold the_props. simpl. rewrite HddP.
        apply refs_ok_app; [exact HrefsB | exact Hr'].
      - simpl. rewrite (find_prop_app _ _ _ _ _ Ef); [reflexivity|].
        apply name_matches_refl. now destruct prot_prop.
      - simpl. unfold prop_cnt. rewrite lookup_app_r, Nat.sub_diag by lia.
        eexists. split; [reflexivity|]. now destruct prot_prop.
      - intros i0 Hi0. congruence. }
    destruct Hc as [-> | [-> (qj & Hqj & Hqjdel)]].
    + change (DISP_E_UNKNOWNNAME =? DISP_E_UNKNOWNNAME) with true. simpl.
      apply (Hnew None). reflexivity.
    + change (S_OK =? DISP_E_UNKNOWNNAME) with false.
      change (FAILED S_OK) with false. simpl.
      rewrite (read_prop_lookup _ _ _ _ _ HlBp HddP), Hqj. simpl. rewrite Hqjdel.
      simpl. apply (Hnew (Some j)).
      apply refs_ok_one. intros _. exists pd. split; [reflexivity|].
      unfold V_UI4, V_I4. simpl. rewrite Nat2Z.id.
      apply lookup_lt_Some in Hqj. exact Hqj.
Qed.

Lemma get_dynamic_prop_ensure fuel (h : heap) this This0 nm fl :
  store_ok h this = true -> h !! this = Some This0 ->
  has_flag fl fdexNameEnsure = true ->
  exists h' i,
    get_dynamic_prop (S (S fuel)) h this nm fl = Some (h', S_OK, i) /\
    ensured h' this nm fl i (the_props This0).
Proof.
  intros Hok Hl Halloc.
  pose proof (store_ok_inv _ _ _ Hok Hl) as Hinv.
  destruct (prototype This0) as [p|] eqn:Hp.
  - destruct Hinv as (Hne & P & Hlp & HpP & HrP & Hr).
    now apply (ensure_proto fuel h this This0 p P).
  - now apply ensure_noproto.
Qed.

Lemma has_flag_set_deleted f :
  has_flag (Z.lor f DYNPROP_DELETED) DYNPROP_PROTREF = has_flag f DYNPROP_PROTREF.
Proof.
  unfold has_flag. do 2 f_equal.
  apply Z.bits_inj'. intros n Hn.
  rewrite !Z.land_spec, Z.lor_spec.
  destruct (Z.eq_dec n 2) as [->|Hne].
  - simpl. now rewrite orb_false_r.
  - replace (Z.testbit DYNPROP_PROTREF n) with false; [now rewrite !andb_false_r|].
    symmetry. unfold DYNPROP_PROTREF.
    destruct n as [|n|n]; try reflexivity; try lia.
    destruct n as [n|n|]; try reflexivity.
    destruct n; try reflexivity. lia.
Qed.

Lemma dispex_delete_prop_keeps (h : heap) this This d nm fl i :
  store_ok h this = true -> h !! this = Some This -> dynamic_data This = Some d ->
  find_prop (props d) nm fl 0 = Some i ->
  dynprop_id i <= DISPID_DYNPROP_MAX ->
  exists h' hr This' d',
    dispex_delete_prop h this (dynprop_id i) = Some (h', hr) /\
    h' !! this = Some This' /\ dynamic_data This' = Some d' /\
    store_ok h' this = true /\
    find_prop (props d') nm fl 0 = Some i /\
    length (props d') = length (props d).
Proof.
  intros Hok Hl Hd Hf Hid.
  destruct (find_prop_Some _ _ _ _ _ Hf) as [_ [q Hq]].
  rewrite Nat.sub_0_r in Hq.
  rewrite (dispex_delete_prop_dynamic _ _ _ _ _ _ Hl Hd Hq Hid).
  destruct (dispex_compat_mode This <? COMPAT_MODE_IE8).
  { exists h, E_NOTIMPL, This, d. now repeat split. }
  destruct (has_flag (flags q) DYNPROP_PROTREF) eqn:Epr.
  { exists h, S_OK, This, d. now repeat split. }
  set (del := fun q : dynamic_prop_t =>
                {| var := VariantClear (var q); name := name q;
                   flags := Z.lor (flags q) DYNPROP_DELETED |}).
  destruct (written_state h this This d (alter del i (props d)) Hd)
    as (Hl' & Hd' & Hp' & Ht').
  eexists _, S_OK, _, _. split; [reflexivity|].
  split; [exact Hl'|]. split; [exact Hd'|].
  assert (Hrefs : forall pd, refs_ok (props d) pd = true ->
                             refs_ok (alter del i (props d)) pd = true).
  { intros pd Hr. apply refs_ok_alter; [exact Hr|].
    intros q0 Hq0. rewrite Hq in Hq0. injection Hq0 as <-.
    apply refs_ok_one. simpl. rewrite has_flag_set_deleted, Epr. discriminate. }
  split; [|split].
  - pose proof (store_ok_inv _ _ _ Hok Hl) as Hinv.
    rewrite (the_props_Some _ _ Hd) in Hinv.
    destruct (prototype This) as [p|] eqn:Hp.
    + destruct Hinv as (Hne & P & Hlp & HpP & HrP & Hr).
      eapply (store_ok_proto _ this _ p P);
        [exact Hl' | congruence | exact Hne | now rewrite lookup_insert_ne
        | exact HpP | exact HrP | rewrite Ht'; now apply Hrefs].
    + eapply store_ok_noproto; [exact Hl' | congruence | rewrite Ht'; now apply Hrefs].
  - simpl. rewrite (find_prop_names _ (props d)); [exact Hf|].
    now apply map_name_alter.
  - simpl. apply length_alter.
Qed.

(** C3. Creating a dynamic property by name, deleting it by the
    identifier obtained, and creating it again with the same request.
    The first creation returns a slot [i] that is no tombstone.  The
    deletion is refused with E_NOTIMPL below IE8 and leaves a slot that
    refers to the prototype as it is; otherwise it returns S_OK and turns
    slot [i], and no other, into a tombstone: DELETED is set and the value
    is cleared.  The second creation returns the same slot [i], hence the
    same identifier [DISPID_DYNPROP_0 + i]; the store has not grown, and
    the slot is no tombstone afterwards.  The valid-pointer condition
    [store_ok] and a recursion budget of two levels (instance and
    prototype) make the calls return. *)
Theorem create_delete_create_reuses_slot
    (fuel : nat) (h : heap) (this : objref) (x : string) (fl : Z) :
  store_ok h this = true ->
  has_flag fl fdexNameEnsure = true ->
  (2 <= fuel)%nat ->
  exists h1 i This1 slot1,
    get_dynamic_prop fuel h this x fl = Some (h1, S_OK, i) /\
    h1 !! this = Some This1 /\
    the_props This1 !! i = Some slot1 /\
    has_flag (flags slot1) DYNPROP_DELETED = false /\
    (dynprop_id i <= DISPID_DYNPROP_MAX ->
     let refused := dispex_compat_mode This1 <? COMPAT_MODE_IE8 in
     let deletes := negb refused && negb (has_flag (flags slot1) DYNPROP_PROTREF) in
     exists h2 h3 This2 This3 slot2 slot3,
       dispex_delete_prop h1 this (dynprop_id i)
         = Some (h2, if refused then E_NOTIMPL else S_OK) /\
       h2 !! this = Some This2 /\
       the_props This2
         = (if deletes then alter tombstone i (the_props This1)
            else the_props This1) /\
       the_props This2 !! i = Some slot2 /\
       has_flag (flags slot2) DYNPROP_DELETED = deletes /\
       get_dynamic_prop fuel h2 this x fl = Some (h3, S_OK, i) /\
       h3 !! this = Some This3 /\
       length (the_props This3) = length (the_props This2) /\
       the_props This3 !! i = Some slot3 /\
       has_flag (flags slot3) DYNPROP_DELETED = false).
Proof.
  intros Hok Halloc Hfuel.
  destruct fuel as [|[|fuel]]; try lia.
  assert (Hl : exists This0, h !! this = Some This0).
  { unfold store_ok in Hok. destruct (h !! this); [eauto | discriminate]. }
  destruct Hl as [This0 Hl].
  destruct (get_dynamic_prop_ensure fuel h this This0 x fl Hok Hl Halloc)
    as (h1 & i & Hcreate & This1 & d1 & Hl1 & Hd1 & Hok1 & Hf1 &
        (slot1 & Hslot1 & Hlive1) & _).
  exists h1, i, This1, slot1.
  rewrite (the_props_Some _ _ Hd1).
  split; [exact Hcreate|]. split; [exact Hl1|]. split; [exact Hslot1|].
  split; [exact Hlive1|].
  intros Hid refused deletes.
  destruct (dispex_delete_prop_keeps h1 this This1 d1 x fl i Hok1 Hl1 Hd1 Hf1 Hid)
    as (h2 & hr & This2 & d2 & Hdel & Hl2 & Hd2 & Hok2 & Hf2 & Hlen2).
  destruct (get_dynamic_prop_ensure fuel h2 this This2 x fl Hok2 Hl2 Halloc)
    as (h3 & i' & Hagain & This3 & d3 & Hl3 & Hd3 & _ & _ & (slot3 & Hslot3 & Hlive3) & Hsame).
  rewrite (the_props_Some _ _ Hd2) in Hsame.
  destruct (Hsame i Hf2) as [-> Hlen3].
  pose proof (dispex_delete_prop_dynamic h1 this This1 d1 i slot1 Hl1 Hd1 Hslot1 Hid)
    as Hexact.
  rewrite Hdel in Hexact. fold refused in Hexact.
  assert (Hshape :
            hr = (if refused then E_NOTIMPL else S_OK) /\
            props d2 = (if deletes then alter tombstone i (props d1) else props d1)).
  { unfold deletes. destruct refused; simpl.
    - injection Hexact as -> ->. rewrite Hl1 in Hl2. injection Hl2 as <-.
      rewrite Hd1 in Hd2. now injection Hd2 as <-.
    - destruct (has_flag (flags slot1) DYNPROP_PROTREF); simpl.
      + injection Hexact as -> ->. rewrite Hl1 in Hl2. injection Hl2 as <-.
        rewrite Hd1 in Hd2. now injection Hd2 as <-.
      + injection Hexact as -> ->.
        rewrite lookup_insert_eq in Hl2. injection Hl2 as <-.
        simpl in Hd2. now injection Hd2 as <-. }
  destruct Hshape as [-> Hprops].
  assert (Hslot2 : exists slot2, props d2 !! i = Some slot2 /\
                     has_flag (flags slot2) DYNPROP_DELETED = deletes).
  { rewrite Hprops. destruct deletes.
    - exists (tombstone slot1). split.
      + rewrite list_lookup_alter_eq, Hslot1. reflexivity.
      + apply has_flag_lor_deleted.
    - now exists slot1. }
  destruct Hslot2 as (slot2 & Hslot2 & Hflag2).
  exists h2, h3, This2, This3, slot2, slot3.
  rewrite (the_props_Some _ _ Hd2), (the_props_Some _ _ Hd3).
  repeat split; assumption.
Qed.

Lemma create_delete_create_reuses_slot_witness :
  exists h1 i This1 slot1,
    get_dynamic_prop 2 demo_heap 1%nat "tag" fdexNameEnsure = Some (h1, S_OK, i) /\
    h1 !! 1%nat = Some This1 /\
    the_props This1 !! i = Some slot1 /\
    has_flag (flags slot1) DYNPROP_DELETED = false /\
    (dynprop_id i <= DISPID_DYNPROP_MAX ->
     let refused := dispex_compat_mode This1 <? COMPAT_MODE_IE8 in
     let deletes := negb refused && negb (has_flag (flags slot1) DYNPROP_PROTREF) in
     exists h2 h3 This2 This3 slot2 slot3,
       dispex_delete_prop h1 1%nat (dynprop_id i)
         = Some (h2, if refused then E_NOTIMPL else S_OK) /\
       h2 !! 1%nat = Some This2 /\
       the_props This2
         = (if deletes then alter tombstone i (the_props This1)
            else the_props This1) /\
       the_props This2 !! i = Some slot2 /\
       has_flag (flags slot2) DYNPROP_DELETED = deletes /\
       get_dynamic_prop 2 h2 1%nat "tag" fdexNameEnsure = Some (h3, S_OK, i) /\
       h3 !! 1%nat = Some This3 /\
       length (the_props This3) = length (the_props This2) /\
       the_props This3 !! i = Some slot3 /\
       has_flag (flags slot3) DYNPROP_DELETED = false).
Proof.
  apply (create_delete_create_reuses_slot 2 demo_heap 1%nat "tag" fdexNameEnsure).
  - reflexivity.
  - reflexivity.
  - lia.
Defined.

(** The scenario of the specification on the instance of [demo_heap]:
    "tag" is created in slot 1; its deletion flags the slot DELETED, a
    lookup that may not create then fails with DISP_E_UNKNOWNNAME while
    the tombstone keeps its name; a creating lookup revives slot 1. *)
Example tag_scenario :
  exists h1 h2 h3 h4,
    get_dynamic_prop 2 demo_heap 1%nat "tag" fdexNameEnsure = Some (h1, S_OK, 1%nat) /\
    dispex_delete_prop h1 1%nat (dynprop_id 1) = Some (h2, S_OK) /\
    flags <$> read_prop h2 1%nat 1 = Some DYNPROP_DELETED /\
    get_dynamic_prop 2 h2 1%nat "tag" fdexNameCaseSensitive
      = Some (h3, DISP_E_UNKNOWNNAME, 1%nat) /\
    name <$> read_prop h3 1%nat 1 = Some "tag"%string /\
    get_dynamic_prop 2 h3 1%nat "tag" fdexNameEnsure = Some (h4, S_OK, 1%nat) /\
    flags <$> read_prop h4 1%nat 1 = Some 0 /\
    (length ∘ the_props) <$> h4 !! 1%nat = Some 2%nat.
Proof. do 4 eexists. repeat split; vm_compute; reflexivity. Qed.

(** ** The apply facet *)

Section ApplyFacet.

Context (H : host_t) (disp : objref) (dispex : option objref)
        (caller : option IServiceProvider).

(** The arguments collected by the loop: one per index, an empty VARIANT
    where the index is not a name of the array-like object, the value read
    otherwise. *)
Lemma apply_args_inr n : forall k argv,
  apply_args H disp dispex caller n k = inr argv ->
  length argv = n /\
  forall j, (j < n)%nat ->
    let r := array_get_id H disp dispex (index_name (k + j)) in
    if FAILED (fst r)
    then fst r = DISP_E_UNKNOWNNAME /\ argv !! j = Some VariantInit
    else exists hres v,
           array_get H disp dispex (snd r) None caller = (hres, v) /\
           FAILED hres = false /\ argv !! j = Some v.
Proof.
  induction n as [|n IH]; intros k argv Hr; simpl in Hr.
  - injection Hr as <-. split; [reflexivity|]. intros j Hj. lia.
  - destruct (array_get_id H disp dispex (index_name k)) as [hres dispid] eqn:Eid.
    assert (Hrest : forall a l,
               match apply_args H disp dispex caller n (S k) with
               | inl hres => inl hres
               | inr l => inr (a :: l)
               end = inr l ->
               exists l', l = a :: l' /\
                          apply_args H disp dispex caller n (S k) = inr l').
    { intros a l Hm.
      destruct (apply_args H disp dispex caller n (S k)) as [e|l'];
        [discriminate|]. injection Hm as <-. eauto. }
    assert (Htail : forall a l',
               apply_args H disp dispex caller n (S k) = inr l' ->
               length (a :: l') = S n /\
               forall j, (j < S n)%nat -> (0 < j)%nat ->
                 let r := array_get_id H disp dispex (index_name (k + j)) in
                 if FAILED (fst r)
                 then fst r = DISP_E_UNKNOWNNAME /\ (a :: l') !! j = Some VariantInit
                 else exists hres v,
                        array_get H disp dispex (snd r) None caller = (hres, v) /\
                        FAILED hres = false /\ (a :: l') !! j = Some v).
    { intros a l' Hl'. destruct (IH _ _ Hl') as [Hlen Hall].
      split; [simpl; lia|]. intros j Hj Hpos.
      destruct j as [|j]; [lia|].
      replace (k + S j)%nat with (S k + j)%nat by lia.
      apply Hall. lia. }
    destruct (FAILED hres) eqn:Ef.
    + destruct (hres =? DISP_E_UNKNOWNNAME) eqn:Eu; [|discriminate].
      apply Z.eqb_eq in Eu.
      destruct (Hrest _ _ Hr) as (l' & -> & Hl').
      destruct (Htail VariantInit l' Hl') as [Hlen Hall].
      split; [exact Hlen|]. intros j Hj.
      destruct j as [|j]; [|apply Hall; lia].
      rewrite Nat.add_0_r, Eid. simpl. rewrite Ef. auto.
    + destruct (array_get H disp dispex dispid None caller) as [hg v] eqn:Eg.
      destruct (FAILED hg) eqn:Efg; [discriminate|].
      destruct (Hrest _ _ Hr) as (l' & -> & Hl').
      destruct (Htail v l' Hl') as [Hlen Hall].
      split; [exact Hlen|]. intros j Hj.
      destruct j as [|j]; [|apply Hall; lia].
      rewrite Nat.add_0_r, Eid. simpl. rewrite Ef. eauto.
Qed.

(** The loop never fails on an index that is merely missing: it runs to
    the end as soon as every index either is unknown to the array-like
    object or can be read. *)
Lemma apply_args_total n : forall k,
  (forall j, (j < n)%nat ->
     let r := array_get_id H disp dispex (index_name (k + j)) in
     if FAILED (fst r) then fst r = DISP_E_UNKNOWNNAME
     else FAILED (fst (array_get H disp dispex (snd r) None caller)) = false) ->
  exists argv, apply_args H disp dispex caller n k = inr argv.
Proof.
  induction n as [|n IH]; intros k Hall; simpl; [eauto|].
  assert (Hk := Hall 0%nat ltac:(lia)). simpl in Hk. rewrite Nat.add_0_r in Hk.
  destruct (IH (S k)) as [l' Hl'].
  { intros j Hj. replace (S k + j)%nat with (k + S j)%nat by lia.
    apply Hall. lia. }
  rewrite Hl'.
  destruct (array_get_id H disp dispex (index_name k)) as [hres dispid].
  simpl in Hk. destruct (FAILED hres).
  - rewrite Hk. change (DISP_E_UNKNOWNNAME =? DISP_E_UNKNOWNNAME) with true. eauto.
  - destruct (array_get H disp dispex dispid None caller) as [hg v].
    simpl in Hk. rewrite Hk. eauto.
Qed.

End ApplyFacet.

Lemma function_apply_unfold (H : host_t) func fi dp caller rest target array
    this_obj disp :
  fn_info func = Some fi ->
  rgvarg dp = rest ++ [array; target] ->
  V_VT target = VT_DISPATCH -> V_DISPATCH target = Some this_obj ->
  Z.land (V_VT array) 49151 = VT_DISPATCH -> V_DISPATCH array = Some disp ->
  function_apply H func dp true caller
  = let dispex := array_dispex H disp in
    let '(hres, dispid) := array_get_id H disp dispex "length" in
    if FAILED hres || (dispid =? DISPID_UNKNOWN)
    then Some (CTL_E_ILLEGALFUNCTIONCALL, None)
    else
      let '(hres, len) :=
        array_get H disp dispex dispid (Some (mkDISPPARAMS [] [])) caller in
      if FAILED hres then Some (illegal_if_unexpected hres, Some len)
      else
        let conv := if V_VT len =? VT_I4 then (hres, len)
                    else change_type H len VT_I4 caller in
        if FAILED (fst conv) || (V_I4 (snd conv) <? 0)
        then Some (CTL_E_ILLEGALFUNCTIONCALL, Some VariantInit)
        else
          match apply_args H disp dispex caller (Z.to_nat (V_I4 (snd conv))) 0 with
          | inl hres => Some (illegal_if_unexpected hres, Some VariantInit)
          | inr argv =>
              let r := invoke_builtin_function H this_obj fi
                         (mkDISPPARAMS (rev argv) []) true caller in
              Some (illegal_if_unexpected (fst r),
                    match snd r with
                    | Some v => Some v
                    | None => Some VariantInit
                    end)
          end.
Proof.
  intros Hfi Hdp Hvt Hthis Hvt2 Hdisp.
  unfold function_apply, cArgs. rewrite Hdp, length_app. simpl length.
  replace (length rest + 2)%nat with (S (S (length rest))) by lia.
  replace (S (S (length rest)) - 1)%nat with (length rest + 1)%nat by lia.
  replace (S (S (length rest)) - 2)%nat with (length rest + 0)%nat by lia.
  rewrite !nth_lookup, !lookup_app_r by lia.
  replace (length rest + 1 - length rest)%nat with 1%nat by lia.
  replace (length rest + 0 - length rest)%nat with 0%nat by lia.
  simpl. rewrite Hthis, Hvt, Hvt2, Hdisp, Hfi.
  simpl. reflexivity.
Qed.

(** C6, as the code has it.  A call of the apply facet with a target and
    an array-like second argument:
    - fails with CTL_E_ILLEGALFUNCTIONCALL when "length" is not a name of
      the array-like object, or when the length read is negative or does
      not convert to an integer;
    - fails with the getter's own HRESULT when reading "length" fails
      (only E_UNEXPECTED is turned into CTL_E_ILLEGALFUNCTIONCALL);
    - otherwise reads the indices [0 .. length-1]; an index that is not a
      name of the object gives an empty argument, and the builtin is
      invoked on the target with the values in positional order (the
      argument array is their reverse). *)
Theorem function_apply_forwards
    (H : host_t) (func : func_disp_t) (fi : func_info_t) (dp : DISPPARAMS)
    (caller : option IServiceProvider) (rest : list VARIANT)
    (target array : VARIANT) (this_obj disp : objref)
    (hl : HRESULT) (idl : DISPID) :
  fn_info func = Some fi ->
  rgvarg dp = rest ++ [array; target] ->
  V_VT target = VT_DISPATCH -> V_DISPATCH target = Some this_obj ->
  Z.land (V_VT array) 49151 = VT_DISPATCH -> V_DISPATCH array = Some disp ->
  let dispex := array_dispex H disp in
  array_get_id H disp dispex "length" = (hl, idl) ->
  let run := function_apply H func dp true caller in
  let length_read :=
    array_get H disp dispex idl (Some (mkDISPPARAMS [] [])) caller in
  let conv :=
    if V_VT (snd length_read) =? VT_I4 then length_read
    else change_type H (snd length_read) VT_I4 caller in
  let n := Z.to_nat (V_I4 (snd conv)) in
  (FAILED hl = true \/ idl = DISPID_UNKNOWN ->
     apply_hres run = Some CTL_E_ILLEGALFUNCTIONCALL) /\
  (FAILED hl = false -> idl <> DISPID_UNKNOWN ->
     (FAILED (fst length_read) = true ->
        apply_hres run = Some (illegal_if_unexpected (fst length_read))) /\
     (FAILED (fst length_read) = false ->
        (FAILED (fst conv) = true \/ V_I4 (snd conv) < 0 ->
           apply_hres run = Some CTL_E_ILLEGALFUNCTIONCALL) /\
        (FAILED (fst conv) = false -> 0 <= V_I4 (snd conv) ->
           (forall argv,
              apply_args H disp dispex caller n 0 = inr argv ->
              apply_hres run
              = Some (illegal_if_unexpected
                        (fst (invoke_builtin_function H this_obj fi
                                (mkDISPPARAMS (rev argv) []) true caller))) /\
              length argv = n /\
              forall j, (j < n)%nat ->
                let r := array_get_id H disp dispex (index_name j) in
                if FAILED (fst r)
                then fst r = DISP_E_UNKNOWNNAME /\ argv !! j = Some VariantInit
                else exists hres v,
                       array_get H disp dispex (snd r) None caller = (hres, v) /\
                       FAILED hres = false /\ argv !! j = Some v) /\
           ((forall j, (j < n)%nat ->
               let r := array_get_id H disp dispex (index_name j) in
               if FAILED (fst r) then fst r = DISP_E_UNKNOWNNAME
               else FAILED (fst (array_get H disp dispex (snd r) None caller))
                    = false) ->
            exists argv, apply_args H disp dispex caller n 0 = inr argv)))).
Proof.
  intros Hfi Hdp Hvt Hthis Hvt2 Hdisp dispex Hlen run length_read conv n.
  assert (Hrun := function_apply_unfold H func fi dp caller rest target array
                    this_obj disp Hfi Hdp Hvt Hthis Hvt2 Hdisp).
  fold run in Hrun. cbv zeta in Hrun. fold dispex in Hrun.
  rewrite Hlen in Hrun.
  split.
  - intros Hbad.
    assert (Hb : FAILED hl || (idl =? DISPID_UNKNOWN) = true).
    { destruct Hbad as [-> | ->]; [reflexivity | apply orb_true_r]. }
    rewrite Hb in Hrun. now rewrite Hrun.
  - intros Hok Hid.
    assert (Hb : FAILED hl || (idl =? DISPID_UNKNOWN) = false).
    { rewrite Hok. simpl. now apply Z.eqb_neq. }
    rewrite Hb in Hrun. fold length_read in Hrun.
    assert (Hconv : conv = if V_VT (snd length_read) =? VT_I4
                           then (fst length_read, snd length_read)
                           else change_type H (snd length_read) VT_I4 caller).
    { unfold conv. now destruct length_read. }
    destruct length_read as [hg len] eqn:Elr. simpl in Hconv. simpl.
    split.
    + intros Hg. rewrite Hg in Hrun. now rewrite Hrun.
    + intros Hg. rewrite Hg in Hrun. rewrite <- Hconv in Hrun.
      split.
      * intros Hbad.
        assert (Hc : FAILED (fst conv) || (V_I4 (snd conv) <? 0) = true).
        { destruct Hbad as [-> | Hneg]; [reflexivity|].
          apply orb_true_iff. right. now apply Z.ltb_lt. }
        rewrite Hc in Hrun. now rewrite Hrun.
      * intros Hc Hpos.
        assert (Hcb : FAILED (fst conv) || (V_I4 (snd conv) <? 0) = false).
        { rewrite Hc. simpl. now apply Z.ltb_ge. }
        rewrite Hcb in Hrun. fold n in Hrun.
        split.
        -- intros argv Hargs. rewrite Hargs in Hrun. rewrite Hrun.
           split; [reflexivity|].
           destruct (apply_args_inr H disp dispex caller n 0 argv Hargs)
             as [Hlenv Hall].
           split; [exact Hlenv|]. exact Hall.
        -- intros Hall. apply apply_args_total. exact Hall.
Qed.

(** The claim as stated fails where the getter of "length" fails: object 8
    of the concrete host reports E_FAIL, and so does the call. *)
Lemma function_apply_length_read_failure :
  array_get widget_host 8%nat (array_dispex widget_host 8%nat) 100
    (Some (mkDISPPARAMS [] [])) None = (E_FAIL, VariantInit) /\
  apply_hres (function_apply widget_host area_func
                (args [disp 8%nat; disp widget_obj]) true None)
  = Some E_FAIL /\
  apply_hres (function_apply widget_host area_func
                (args [disp 8%nat; disp widget_obj]) true None)
  <> Some CTL_E_ILLEGALFUNCTIONCALL.
Proof. repeat split. discriminate. Qed.

Lemma function_apply_forwards_witness :
  apply_hres (function_apply widget_host area_func
                (args [disp 7%nat; disp widget_obj]) true None)
  = Some (illegal_if_unexpected
            (fst (invoke_builtin_function widget_host widget_obj area_info
                    (args (rev [i4 3; i4 4])) true None))) /\
  apply_hres (function_apply widget_host area_func
                (args [disp 8%nat; disp widget_obj]) true None)
  = Some (illegal_if_unexpected E_FAIL) /\
  exists argv,
    apply_args widget_host 9%nat (array_dispex widget_host 9%nat) None 2 0
    = inr argv.
Proof.
  split; [|split].
  - destruct (function_apply_forwards widget_host area_func area_info
                (args [disp 7%nat; disp widget_obj]) None []
                (disp widget_obj) (disp 7%nat) widget_obj 7%nat S_OK 100
                eq_refl eq_refl eq_refl eq_refl eq_refl eq_refl eq_refl)
      as [_ Hgood].
    destruct (Hgood eq_refl ltac:(discriminate)) as [_ Hread].
    destruct (Hread eq_refl) as [_ Hlen].
    destruct (Hlen eq_refl ltac:(discriminate)) as [Hfwd _].
    exact (proj1 (Hfwd [i4 3; i4 4] eq_refl)).
  - destruct (function_apply_forwards widget_host area_func area_info
                (args [disp 8%nat; disp widget_obj]) None []
                (disp widget_obj) (disp 8%nat) widget_obj 8%nat S_OK 100
                eq_refl eq_refl eq_refl eq_refl eq_refl eq_refl eq_refl)
      as [_ Hgood].
    destruct (Hgood eq_refl ltac:(discriminate)) as [Hfail _].
    exact (Hfail eq_refl).
  - destruct (function_apply_forwards widget_host area_func area_info
                (args [disp 9%nat; disp widget_obj]) None []
                (disp widget_obj) (disp 9%nat) widget_obj 9%nat S_OK 100
                eq_refl eq_refl eq_refl eq_refl eq_refl eq_refl eq_refl)
      as [_ Hgood].
    destruct (Hgood eq_refl ltac:(discriminate)) as [_ Hread].
    destruct (Hread eq_refl) as [_ Hlen].
    destruct (Hlen eq_refl ltac:(discriminate)) as [_ Htotal].
    apply Htotal. intros j Hj.
    destruct j as [|[|j]]; [reflexivity | reflexivity | vm_compute in Hj; lia].
Defined.

(** [area.apply(widget, {length: 2, 0: 3, 1: 4})] is [area(3, 4)]; with
    index 0 missing the first argument is empty, which the concrete host
    cannot convert to an integer: the call gets as far as the argument
    conversion of the builtin. *)
Example apply_area_3_4 :
  function_apply widget_host area_func (args [disp 7%nat; disp widget_obj]) true None
  = Some (S_OK, Some (i4 12)).
Proof. reflexivity. Qed.

Example apply_area_missing_index :
  apply_args widget_host 9%nat (array_dispex widget_host 9%nat) None 2 0
  = inr [VariantInit; i4 4].
Proof. reflexivity. Qed.

(** ** The reflection cache *)

(** Resolving a member table a second time returns the table published by
    the first resolution and changes nothing. *)
Lemma ensure_dispex_info_idempotent (H : host_t) (PT : prototype_tables)
    fuel fuel' st d desc mode st1 p :
  ensure_dispex_info H PT fuel st d desc mode = Some (st1, Some p) ->
  ensure_dispex_info H PT (S fuel') st1 d desc mode = Some (st1, Some p).
Proof.
  destruct fuel as [|fuel]; [discriminate|]. simpl.
  destruct (info_cache st !! (d, mode)) as [p0|] eqn:Ec.
  - intros [= <- <-]. now rewrite Ec.
  - destruct (preprocess_dispex_data H PT _ st d desc mode) as [[st2 [q|]]|];
      simpl; [|discriminate..].
    intros [= <- <-]. simpl. now rewrite lookup_insert_eq.
Qed.

(** A descriptor without dispinterface but with an interface makes
    preprocess_dispex_data use [dti] unassigned: the resolution has no
    defined result, whatever the budget. *)
Example ensure_dispex_info_unassigned_dti :
  forall fuel,
    ensure_dispex_info reflect_host reflect_prototypes fuel empty_cache 0%nat
      {| desc_name := "Element"; vtbl := None; disp_tid := 0%nat;
         iface_tids := [1%nat]; init_info := None |} COMPAT_MODE_IE8 = None.
Proof. intros [|fuel]; reflexivity. Qed.

(** C5, at the failing input: a class whose interface has two properties
    with the identifiers 0x80010000 and 0x00010001, which are more than
    2^31 apart.  The subtraction in dispid_cmp wraps around in both
    directions, so that whichever way the sort compares the two members
    the smaller identifier comes out after the larger; the published
    table is in descending order, and the binary search of
    get_builtin_func misses a member that is there. *)
Lemma table_not_sorted_on_wide_ids :
  exists st p data,
    ensure_dispex_info reflect_host reflect_prototypes 1 empty_cache 0%nat
      (iface_desc 1%nat) COMPAT_MODE_IE8 = Some (st, Some p) /\
    dispex_data_list st !! p = Some data /\
    table_ids data = [65537; -2147418112] /\
    dispid_cmp (new_func_info (-2147418112) "style" 1%nat None)
               (new_func_info 65537 "far" 1%nat None) = 2147483647 /\
    dispid_cmp (new_func_info 65537 "far" 1%nat None)
               (new_func_info (-2147418112) "style" 1%nat None) = -2147483647 /\
    get_builtin_func data 65537 = Some 0%nat /\
    get_builtin_func data (-2147418112) = None.
Proof. do 3 eexists. repeat split; vm_compute; reflexivity. Qed.

(** *** The table sort when the comparator does not overflow *)

Lemma LONG_small z : -2147483648 <= z <= 2147483647 -> LONG z = z.
Proof. intros Hz. unfold LONG. rewrite Z.mod_small by lia. lia. Qed.

Lemma qsort_insert_perm {A} (cmp : A -> A -> Z) x l :
  Permutation (qsort_insert cmp x l) (x :: l).
Proof.
  induction l as [|y l IH]; simpl; [reflexivity|].
  destruct (cmp x y <=? 0); [reflexivity|].
  rewrite IH. apply perm_swap.
Qed.

Lemma qsort_perm {A} (cmp : A -> A -> Z) l : Permutation (qsort cmp l) l.
Proof.
  induction l as [|x l IH]; simpl; [reflexivity|].
  rewrite qsort_insert_perm. now constructor.
Qed.

Section SortByKey.

Context {A : Type} (cmp : A -> A -> Z) (key : A -> Z).

Let le_key (a b : A) : Prop := key a <= key b.

Lemma qsort_insert_sorted x l :
  (forall y, In y l -> cmp x y = key x - key y) ->
  StronglySorted le_key l -> StronglySorted le_key (qsort_insert cmp x l).
Proof.
  intros Hcmp Hs. induction Hs as [|y l Hs IH Hy]; simpl.
  - repeat constructor.
  - rewrite (Hcmp y) by now left.
    destruct (key x - key y <=? 0) eqn:E.
    + apply Z.leb_le in E. constructor; [now constructor|].
      constructor; [unfold le_key; lia|].
      rewrite List.Forall_forall in *. intros z Hz. specialize (Hy z Hz).
      unfold le_key in *. lia.
    + apply Z.leb_gt in E. constructor.
      * apply IH. intros z Hz. apply Hcmp. now right.
      * rewrite List.Forall_forall in *. intros z Hz.
        apply (Permutation_in _ (qsort_insert_perm cmp x l)) in Hz.
        destruct Hz as [<- | Hz]; [unfold le_key; lia | now apply Hy].
Qed.

Lemma qsort_sorted l :
  (forall a b, In a l -> In b l -> cmp a b = key a - key b) ->
  StronglySorted le_key (qsort cmp l).
Proof.
  induction l as [|x l IH]; intros Hcmp; simpl; [constructor|].
  apply qsort_insert_sorted.
  - intros y Hy. apply Hcmp; [now left|].
    right. exact (Permutation_in _ (qsort_perm cmp l) Hy).
  - apply IH. intros a b Ha Hb. apply Hcmp; now right.
Qed.

End SortByKey.

Lemma sorted_nodup_strict (l : list Z) :
  StronglySorted Z.le l -> NoDup l -> StronglySorted Z.lt l.
Proof.
  intros Hs. induction Hs as [|x l Hs IH Hx]; intros Hnd; [constructor|].
  apply NoDup_cons in Hnd as [Hnin Hnd].
  constructor; [now apply IH|].
  rewrite List.Forall_forall in *. intros y Hy. specialize (Hx y Hy).
  assert (x <> y) by (intros ->; apply Hnin; now apply list_elem_of_In).
  lia.
Qed.

Lemma sorted_map_key {A} (key : A -> Z) (l : list A) :
  StronglySorted (fun a b => key a <= key b) l ->
  StronglySorted Z.le (map key l).
Proof.
  intros Hs. induction Hs as [|x l Hs IH Hx]; simpl; constructor; [exact IH|].
  rewrite List.Forall_forall in *. intros y Hy.
  apply in_map_iff in Hy as (z & <- & Hz). now apply Hx.
Qed.

(** *** Identifiers in a table are pairwise distinct *)

Section DistinctIds.

Context (H : host_t).

Lemma add_params_id dti params : forall i info,
  func_id (fst (add_params dti params i info)) = func_id info.
Proof.
  induction params as [|p params IH]; intros i info; simpl; [reflexivity|].
  destruct ((tdesc_vt p =? VT_PTR) && (lptdesc_vt p =? VT_USERDEFINED)).
  - destruct (GetRefTypeGuid dti (hreftype p)) as [hres guid].
    destruct (FAILED hres); [reflexivity|].
    destruct (has_flag (wParamFlags p) PARAMFLAG_FHASDEFAULT); now rewrite IH.
  - destruct (negb (is_arg_type_supported (nth i (arg_types info) VT_EMPTY)));
      [reflexivity|].
    destruct (has_flag (wParamFlags p) PARAMFLAG_FHASDEFAULT); now rewrite IH.
Qed.

Lemma fill_func_info_id dti desc cnt info :
  func_id (fst (fill_func_info H dti desc cnt info)) = func_id info.
Proof.
  unfold fill_func_info.
  destruct (has_flag (invkind desc) DISPATCH_METHOD).
  - destruct (negb (elemdescFunc_vt desc =? VT_VOID) && _ && _); [reflexivity|].
    destruct (negb (cParamsOpt desc =? 0)%nat); [reflexivity|].
    match goal with
    | |- context [add_params dti ?ps ?i ?inf] =>
        pose proof (add_params_id dti ps i inf) as Hid;
        destruct (add_params dti ps i inf) as [info3 complete]
    end.
    simpl in Hid. now destruct complete.
  - now destruct (has_flag (invkind desc) _).
Qed.

Lemma find_func_None l id nm : forall k,
  find_func l id nm k = None -> ~ In id (map func_id l).
Proof.
  induction l as [|info l IH]; intros k Hf; simpl in *; [tauto|].
  destruct (func_id info =? id) eqn:E; [discriminate|]. simpl in Hf.
  destruct (wcscmp (func_name info) nm =? 0); [discriminate|].
  apply Z.eqb_neq in E. intros [Heq | Hin]; [congruence|].
  exact (IH _ Hf Hin).
Qed.

Lemma find_func_Some l id nm : forall k i info,
  find_func l id nm k = Some (i, info) ->
  (k <= i)%nat /\ l !! (i - k)%nat = Some info.
Proof.
  induction l as [|info0 l IH]; intros k i info Hf; simpl in Hf; [discriminate|].
  destruct ((func_id info0 =? id) || (wcscmp (func_name info0) nm =? 0)).
  - injection Hf as <- <-. split; [lia|]. now rewrite Nat.sub_diag.
  - apply IH in Hf as [Hle Hl]. split; [lia|].
    replace (i - k)%nat with (S (i - S k)) by lia. exact Hl.
Qed.

Lemma add_func_info_ids data t desc dti hk name_override :
  NoDup (map func_id (funcs data)) ->
  NoDup (map func_id (funcs (add_func_info H data t desc dti hk name_override))).
Proof.
  intros Hnd. unfold add_func_info.
  assert (Hadd : forall nm,
            NoDup (map func_id (funcs
              match find_func (funcs data) (memid desc) nm 0 with
              | Some (i, info) =>
                  if negb (tid info =? t)%nat then data
                  else
                    let '(info', cnt) :=
                      fill_func_info H dti desc (func_disp_cnt data) info in
                    {| funcs := <[i := info']> (funcs data); func_disp_cnt := cnt |}
              | None =>
                  let '(info', cnt) :=
                    fill_func_info H dti desc (func_disp_cnt data)
                      (new_func_info (memid desc) nm t hk) in
                  {| funcs := funcs data ++ [info']; func_disp_cnt := cnt |}
              end))).
  { intros nm.
    destruct (find_func (funcs data) (memid desc) nm 0) as [[i info]|] eqn:Ef.
    - destruct (negb (tid info =? t)%nat); [exact Hnd|].
      pose proof (fill_func_info_id dti desc (func_disp_cnt data) info) as Hid.
      destruct (fill_func_info H dti desc (func_disp_cnt data) info) as [info' cnt].
      simpl in *.
      apply find_func_Some in Ef as [_ Hl]. rewrite Nat.sub_0_r in Hl.
      rewrite list_fmap_insert, Hid.
      rewrite list_insert_id; [exact Hnd|].
      now rewrite list_lookup_fmap, Hl.
    - pose proof (fill_func_info_id dti desc (func_disp_cnt data)
                    (new_func_info (memid desc) nm t hk)) as Hid.
      destruct (fill_func_info H dti desc (func_disp_cnt data) _) as [info' cnt].
      simpl in *. rewrite map_app. simpl. rewrite Hid.
      apply NoDup_app. split; [exact Hnd|]. split; [|apply NoDup_singleton].
      intros x Hx Hx'. apply list_elem_of_singleton in Hx'. subst x.
      apply (find_func_None _ _ _ _ Ef). now apply list_elem_of_In. }
  destruct name_override as [n|]; [apply Hadd|].
  destruct (has_flag (wFuncFlags desc) FUNCFLAG_FRESTRICTED); [exact Hnd|].
  destruct (GetDocumentation dti (memid desc)) as [hres n].
  destruct (FAILED hres); [exact Hnd | apply Hadd].
Qed.

Lemma process_funcdescs_ids t dti hooks descs : forall data,
  NoDup (map func_id (funcs data)) ->
  NoDup (map func_id (funcs (process_funcdescs H data t dti hooks descs))).
Proof.
  induction descs as [|funcdesc descs IH]; intros data Hnd; simpl; [exact Hnd|].
  apply IH.
  destruct (match hooks with Some hs => find_hook hs (memid funcdesc) | None => None end)
    as [k|].
  - destruct (bool_decide (is_Some (hook_invoke k)) || _);
      [now apply add_func_info_ids | exact Hnd].
  - now apply add_func_info_ids.
Qed.

Lemma process_interface_ids data t dti hooks :
  NoDup (map func_id (funcs data)) ->
  NoDup (map func_id (funcs (snd (process_interface H data t dti hooks)))).
Proof.
  intros Hnd. unfold process_interface.
  destruct (get_typeinfo H t) as [hres [typeinfo|]]; [|exact Hnd].
  destruct (FAILED hres); [exact Hnd|]. simpl.
  now apply process_funcdescs_ids.
Qed.

Lemma process_interfaces_ids dti tids : forall data,
  NoDup (map func_id (funcs data)) ->
  NoDup (map func_id (funcs (process_interfaces H data dti tids))).
Proof.
  induction tids as [|t tids IH]; intros data Hnd; simpl; [exact Hnd|].
  pose proof (process_interface_ids data t dti None Hnd) as Hnd'.
  destruct (process_interface H data t dti None) as [hres data']. simpl in Hnd'.
  destruct (FAILED hres); [exact Hnd' | now apply IH].
Qed.

End DistinctIds.

(** ** Enumeration *)

Arguments enumerate : simpl never.

Lemma sorted_lookup_lt (ks : list Z) :
  StronglySorted Z.lt ks ->
  forall i j a b, ks !! i = Some a -> ks !! j = Some b -> (i < j)%nat -> a < b.
Proof.
  intros Hs. induction Hs as [|x ks Hs IH Hx]; intros i j a b Hi Hj Hlt.
  - discriminate.
  - destruct j as [|j]; [lia|]. simpl in Hj.
    destruct i as [|i]; simpl in Hi.
    + injection Hi as <-. rewrite List.Forall_forall in Hx. apply Hx.
      apply list_elem_of_In, list_elem_of_lookup. eauto.
    + apply (IH i j); [assumption | assumption | lia].
Qed.

(** On a strictly sorted table the binary search finds every member. *)
Lemma get_builtin_func_loop_found (l : list func_info_t) n fi :
  StronglySorted Z.lt (map func_id l) -> l !! n = Some fi ->
  forall fuel lo hi,
    0 <= lo <= Z.of_nat n -> Z.of_nat n <= hi < Z.of_nat (length l) ->
    hi - lo < Z.of_nat fuel ->
    get_builtin_func_loop fuel l (func_id fi) lo hi = Some n.
Proof.
  intros Hs Hn. induction fuel as [|fuel IH]; intros lo hi Hlo Hhi Hfuel; [lia|].
  simpl. destruct (lo <=? hi) eqn:E; [|apply Z.leb_gt in E; lia].
  set (m := (lo + hi) / 2).
  assert (Hm : lo <= m <= hi).
  { unfold m. split.
    - apply Z.div_le_lower_bound; lia.
    - apply Z.div_le_upper_bound; lia. }
  destruct (lookup_lt_is_Some_2 l (Z.to_nat m)) as [fm Hfm]; [lia|].
  rewrite Hfm.
  assert (Hkn : map func_id l !! n = Some (func_id fi))
    by (now rewrite list_lookup_fmap, Hn).
  assert (Hkm : map func_id l !! Z.to_nat m = Some (func_id fm))
    by (now rewrite list_lookup_fmap, Hfm).
  destruct (func_id fm =? func_id fi) eqn:Eeq.
  - apply Z.eqb_eq in Eeq. f_equal.
    destruct (Nat.lt_trichotomy (Z.to_nat m) n) as [Hlt | [Heq | Hgt]].
    + pose proof (sorted_lookup_lt _ Hs _ _ _ _ Hkm Hkn Hlt). lia.
    + exact Heq.
    + pose proof (sorted_lookup_lt _ Hs _ _ _ _ Hkn Hkm Hgt). lia.
  - apply Z.eqb_neq in Eeq.
    destruct (func_id fm <? func_id fi) eqn:Elt.
    + apply Z.ltb_lt in Elt. apply IH; try lia.
      destruct (Nat.lt_trichotomy (Z.to_nat m) n) as [Hlt | [Heq | Hgt]]; try lia.
      * subst n. rewrite Hfm in Hn. injection Hn as ->. lia.
      * pose proof (sorted_lookup_lt _ Hs _ _ _ _ Hkn Hkm Hgt). lia.
    + apply Z.ltb_ge in Elt. apply IH; try lia.
      destruct (Nat.lt_trichotomy (Z.to_nat m) n) as [Hlt | [Heq | Hgt]]; try lia.
      * pose proof (sorted_lookup_lt _ Hs _ _ _ _ Hkm Hkn Hlt). lia.
      * subst n. rewrite Hfm in Hn. injection Hn as ->. lia.
Qed.

Lemma get_builtin_func_found data n fi :
  StronglySorted Z.lt (table_ids data) -> funcs (table data) !! n = Some fi ->
  get_builtin_func data (func_id fi) = Some n.
Proof.
  intros Hs Hn. unfold get_builtin_func.
  pose proof (lookup_lt_Some _ _ _ Hn) as Hlt.
  apply get_builtin_func_loop_found; try assumption; lia.
Qed.

Lemma enumerate_S fuel (h : heap) this id :
  enumerate (S fuel) h this id = enum_cont fuel this (DispatchEx_GetNextDispID h this id).
Proof. reflexivity. Qed.

(** *** The dynamic properties *)

Lemma dynamic_scan s : forall k,
  let i := next_dynamic_idx s k in
  (k <= i <= k + length s)%nat /\
  (i = (k + length s)%nat -> dynamic_ids s k = []) /\
  ((i < k + length s)%nat ->
   dynamic_ids s k = dynprop_id i :: dynamic_ids (drop (S (i - k)) s) (S i)).
Proof.
  induction s as [|p s IH]; intros k; simpl.
  - split; [lia|]. split; [reflexivity | lia].
  - destruct (has_flag (flags p) dynamic_skip_mask).
    + destruct (IH (S k)) as (Hb & Hend & Hnext).
      split; [lia|]. split.
      * intros Hi. apply Hend. lia.
      * intros Hi. rewrite Hnext by lia.
        replace (next_dynamic_idx s (S k) - k)%nat
          with (S (next_dynamic_idx s (S k) - S k)) by lia.
        reflexivity.
    + split; [lia|]. split; [lia|]. intros _.
      rewrite Nat.sub_diag. reflexivity.
Qed.

Lemma GetNextDispID_dynamic (h : heap) this This data k :
  h !! this = Some This -> dynamic_data This = Some data ->
  (k < length (props data))%nat -> dynprop_id k <= DISPID_DYNPROP_MAX ->
  DispatchEx_GetNextDispID h this (dynprop_id k)
  = Some (h, fst (next_dynamic_id data (S k)), Some (snd (next_dynamic_id data (S k)))).
Proof.
  intros Hl Hd Hk Hid.
  destruct (dynprop_id_valid k Hid) as (Hdyn & _ & Hsub).
  unfold DispatchEx_GetNextDispID. rewrite Hl. simpl. rewrite Hdyn, Hsub.
  rewrite (get_dynamic_data_fix _ _ Hd), (insert_id _ _ _ Hl).
  destruct (prop_cnt data <=? k)%nat eqn:E.
  { apply Nat.leb_le in E. unfold prop_cnt in E. lia. }
  now rewrite Nat.add_1_r.
Qed.

Lemma dynprop_id_mono i k : (i <= k)%nat -> dynprop_id i <= dynprop_id k.
Proof. unfold dynprop_id. lia. Qed.

(** From slot [k] on, the enumeration yields the enumerable slots in
    store order. *)
Lemma enumerate_dynamic (h : heap) this This data :
  h !! this = Some This -> dynamic_data This = Some data ->
  dynprop_id (length (props data)) <= DISPID_DYNPROP_MAX + 1 ->
  forall m k fuel,
    (length (props data) - k <= m)%nat -> (k <= length (props data))%nat ->
    (length (dynamic_ids (drop k (props data)) k) <= fuel)%nat ->
    enum_cont fuel this
      (Some (h, fst (next_dynamic_id data k), Some (snd (next_dynamic_id data k))))
    = Some (dynamic_ids (drop k (props data)) k, enum_end).
Proof.
  intros Hl Hd Hmax.
  induction m as [|m IH]; intros k fuel Hm Hk Hfuel.
  - assert (k = length (props data)) as -> by lia.
    unfold next_dynamic_id, prop_cnt. rewrite drop_all. simpl.
    now rewrite Nat.eqb_refl.
  - unfold next_dynamic_id, prop_cnt.
    destruct (dynamic_scan (drop k (props data)) k) as (Hb & Hend & Hnext).
    rewrite length_drop in *.
    set (i := next_dynamic_idx (drop k (props data)) k) in *.
    destruct (i =? length (props data))%nat eqn:E.
    + apply Nat.eqb_eq in E. simpl. rewrite Hend by lia. reflexivity.
    + apply Nat.eqb_neq in E. simpl.
      assert (Hi : (i < k + (length (props data) - k))%nat) by lia.
      rewrite (Hnext Hi) in *. simpl in Hfuel.
      destruct fuel as [|fuel]; [lia|].
      rewrite enumerate_S.
      rewrite (GetNextDispID_dynamic h this This data i Hl Hd); [|lia|].
      * rewrite drop_drop in *.
        replace (k + S (i - k))%nat with (S i) in * by lia.
        rewrite (IH (S i) fuel); [reflexivity | lia | lia | lia].
      * pose proof (dynprop_id_mono (S i) (length (props data)) ltac:(lia)).
        unfold dynprop_id in *. lia.
Qed.

Lemma enumerate_dynamic_start (h : heap) this This fuel :
  h !! this = Some This ->
  dynprop_id (length (the_props This)) <= DISPID_DYNPROP_MAX + 1 ->
  (length (dynamic_ids (the_props This) 0) <= fuel)%nat ->
  enum_cont fuel this (next_dispid_dynamic h this This)
  = Some (dynamic_ids (the_props This) 0, enum_end).
Proof.
  intros Hl Hmax Hfuel. unfold next_dispid_dynamic.
  destruct (get_dynamic_data This) as [This1 data] eqn:Eg.
  destruct (get_dynamic_data_Some _ _ _ Eg) as (Hdd & _ & _).
  destruct (the_props_init _ _ _ Eg) as [Htp _]. rewrite Htp in *.
  destruct (prop_cnt data =? 0)%nat eqn:E; simpl.
  - apply Nat.eqb_eq in E. unfold prop_cnt in E.
    destruct (props data); [reflexivity | discriminate].
  - rewrite <- (drop_0 (props data)) at 1.
    apply (enumerate_dynamic _ this This1 data) with (m := length (props data));
      [apply lookup_insert_eq | exact Hdd | exact Hmax | lia | lia |].
    now rewrite drop_0.
Qed.

(** *** The custom identifiers *)

Lemma custom_not_dynamic c : is_custom_dispid c = true -> is_dynamic_dispid c = false.
Proof.
  unfold is_custom_dispid, is_dynamic_dispid, MSHTML_DISPID_CUSTOM_MIN,
    DISPID_DYNPROP_MAX.
  intros Hc. apply andb_true_iff in Hc as [Hlo _]. apply Z.leb_le in Hlo.
  apply andb_false_iff. right. apply Z.leb_gt. lia.
Qed.

Lemma builtin_type_ranges id :
  get_dispid_type id = DISPEXPROP_BUILTIN ->
  is_dynamic_dispid id = false /\ is_custom_dispid id = false.
Proof.
  unfold get_dispid_type.
  destruct (is_dynamic_dispid id); [discriminate|].
  destruct (is_custom_dispid id); [discriminate | auto].
Qed.

Section EnumerationOrder.

Context (h : heap) (this : objref) (This : DispatchEx) (customs : list DISPID).
Context (Hl : h !! this = Some This).
Context (Hmax : dynprop_id (length (the_props This)) <= DISPID_DYNPROP_MAX + 1).

Let dynamics : list DISPID := dynamic_ids (the_props This) 0.

Lemma enumerate_custom next v :
  vtbl (desc (info This)) = Some v -> next_dispid v = Some next ->
  forall cs from fuel,
    hook_chain next from cs ->
    (length (cs ++ dynamics) <= fuel)%nat ->
    enum_cont fuel this (next_dispid_custom h this This from)
    = Some (cs ++ dynamics, enum_end).
Proof.
  intros Hv Hn. induction cs as [|c cs IH]; intros from fuel Hchain Hfuel.
  - simpl in *. unfold next_dispid_custom. rewrite Hv, Hn. simpl.
    rewrite Hchain. change (S_FALSE =? S_FALSE) with true. simpl.
    now apply enumerate_dynamic_start.
  - destruct Hchain as (Hnext & Hc & Hchain).
    unfold next_dispid_custom at 1. rewrite Hv, Hn. simpl. rewrite Hnext. simpl.
    change (S_OK =? S_FALSE) with false. simpl.
    change (S_OK =? S_OK) with true. simpl.
    simpl in Hfuel. destruct fuel as [|fuel]; [lia|].
    rewrite enumerate_S.
    unfold DispatchEx_GetNextDispID. rewrite Hl. simpl.
    rewrite (custom_not_dynamic _ Hc), Hc. simpl.
    rewrite (IH c fuel Hchain) by lia. reflexivity.
Qed.

Lemma enumerate_custom_start fuel :
  custom_ids This customs ->
  (length (customs ++ dynamics) <= fuel)%nat ->
  enum_cont fuel this (next_dispid_custom h this This DISPID_STARTENUM)
  = Some (customs ++ dynamics, enum_end).
Proof.
  intros Hcs Hfuel. unfold custom_ids in Hcs.
  destruct (vtbl (desc (info This))) as [v|] eqn:Hv.
  - destruct (next_dispid v) as [next|] eqn:Hn.
    + now apply (enumerate_custom next v).
    + subst customs. unfold next_dispid_custom. rewrite Hv, Hn.
      now apply enumerate_dynamic_start.
  - subst customs. unfold next_dispid_custom. rewrite Hv.
    now apply enumerate_dynamic_start.
Qed.

(** *** The builtin members *)

Lemma builtin_scan (s : list func_info_t) :
  match next_builtin s with
  | None => builtin_ids s = []
  | Some pid =>
      exists m fi,
        s !! m = Some fi /\ func_id fi = pid /\ func_disp_idx fi = -1 /\
        builtin_ids s = pid :: builtin_ids (drop (S m) s)
  end.
Proof.
  induction s as [|fi s IH]; simpl; [reflexivity|].
  destruct (func_disp_idx fi =? -1) eqn:E.
  - apply Z.eqb_eq in E. exists 0%nat, fi. now rewrite drop_0.
  - destruct (next_builtin s) as [pid|]; [|exact IH].
    destruct IH as (m & fm & Hm & Hid & Hidx & Hb).
    exists (S m), fm. auto.
Qed.

Let l : list func_info_t := funcs (table (info This)).

Context (Hsorted : StronglySorted Z.lt (map func_id l)).
Context (Hids : forall fi, In fi l -> func_disp_idx fi = -1 ->
                  get_dispid_type (func_id fi) = DISPEXPROP_BUILTIN /\
                  func_id fi <> DISPID_STARTENUM).
Context (Hcustoms : custom_ids This customs).

Lemma enumerate_builtin :
  forall m n fuel,
    (length l - n <= m)%nat -> (n <= length l)%nat ->
    (length (builtin_ids (drop n l) ++ customs ++ dynamics) <= fuel)%nat ->
    enum_cont fuel this
      (match next_builtin (drop n l) with
       | Some pid => Some (h, S_OK, Some pid)
       | None => next_dispid_custom h this This DISPID_STARTENUM
       end)
    = Some (builtin_ids (drop n l) ++ customs ++ dynamics, enum_end).
Proof.
  induction m as [|m IH]; intros n fuel Hm Hn Hfuel.
  - assert (n = length l) as -> by lia.
    rewrite drop_all in *. simpl in *. now apply enumerate_custom_start.
  - pose proof (builtin_scan (drop n l)) as Hscan.
    destruct (next_builtin (drop n l)) as [pid|].
    + destruct Hscan as (m0 & fi & Hm0 & Hid & Hidx & Hb).
      rewrite lookup_drop in Hm0.
      pose proof (lookup_lt_Some _ _ _ Hm0) as Hlt.
      rewrite Hb in *. rewrite drop_drop in *.
      replace (n + S m0)%nat with (S (n + m0)) in * by lia.
      simpl. change (S_OK =? S_OK) with true. simpl.
      simpl in Hfuel. destruct fuel as [|fuel]; [lia|].
      rewrite enumerate_S.
      assert (Hin : In fi l)
        by (apply list_elem_of_In, list_elem_of_lookup; eauto).
      destruct (Hids fi Hin Hidx) as [Hty Hstart]. rewrite Hid in *.
      destruct (builtin_type_ranges _ Hty) as [Hdyn Hcus].
      unfold DispatchEx_GetNextDispID. rewrite Hl. simpl.
      rewrite Hdyn, Hcus. simpl.
      destruct (pid =? DISPID_STARTENUM) eqn:E; [apply Z.eqb_eq in E; contradiction|].
      rewrite <- Hid.
      rewrite (get_builtin_func_found (info This) (n + m0) fi Hsorted Hm0). simpl.
      fold l. rewrite (IH (S (n + m0)) fuel) by lia. rewrite Hid. reflexivity.
    + rewrite Hscan in *. simpl in *. now apply enumerate_custom_start.
Qed.

Lemma enumerate_all fuel :
  (length (builtin_ids l ++ customs ++ dynamics) < fuel)%nat ->
  enumerate fuel h this DISPID_STARTENUM
  = Some (builtin_ids l ++ customs ++ dynamics, enum_end).
Proof.
  intros Hfuel. destruct fuel as [|fuel]; [lia|].
  rewrite enumerate_S.
  unfold DispatchEx_GetNextDispID. rewrite Hl. simpl.
  change (is_dynamic_dispid DISPID_STARTENUM) with false.
  change (is_custom_dispid DISPID_STARTENUM) with false. simpl.
  change (DISPID_STARTENUM =? DISPID_STARTENUM) with true. simpl.
  fold l. rewrite drop_0.
  pose proof (enumerate_builtin (length l) 0 fuel) as Hb.
  rewrite drop_0 in Hb. apply Hb; lia.
Qed.

End EnumerationOrder.

Lemma builtin_ids_sub (l : list func_info_t) x :
  In x (builtin_ids l) -> In x (map func_id l).
Proof.
  induction l as [|fi l IH]; simpl; [tauto|].
  destruct (func_disp_idx fi =? -1); simpl; tauto.
Qed.

Lemma builtin_ids_sorted (l : list func_info_t) :
  StronglySorted Z.lt (map func_id l) -> StronglySorted Z.lt (builtin_ids l).
Proof.
  induction l as [|fi l IH]; simpl; intros Hs; [constructor|].
  apply StronglySorted_inv in Hs as [Hs Hx].
  destruct (func_disp_idx fi =? -1); [|auto].
  constructor; [auto|].
  rewrite List.Forall_forall in *. intros x Hin. apply Hx.
  now apply builtin_ids_sub.
Qed.

(** C8 (as amended).  Started from DISPID_STARTENUM on an object whose
    member table is strictly sorted by identifier, repeated GetNextDispID
    calls yield first the plain properties of the table in table order,
    which is ascending identifier order (methods and hidden accessors,
    whose func_disp_idx is not -1, are skipped), then the custom
    identifiers the class hook
    enumerates, then the identifiers of the dynamic slots in store order
    without those flagged DELETED, HIDDEN or PROTREF; the call after the
    last one returns S_FALSE with DISPID_STARTENUM. *)
Theorem enumerate_order (h : heap) (this : objref) (This : DispatchEx)
    (customs : list DISPID) (fuel : nat) :
  h !! this = Some This ->
  StronglySorted Z.lt (table_ids (info This)) ->
  (forall fi, In fi (funcs (table (info This))) -> func_disp_idx fi = -1 ->
     get_dispid_type (func_id fi) = DISPEXPROP_BUILTIN /\
     func_id fi <> DISPID_STARTENUM) ->
  custom_ids This customs ->
  dynprop_id (length (the_props This)) <= DISPID_DYNPROP_MAX + 1 ->
  let builtins := builtin_ids (funcs (table (info This))) in
  let dynamics := dynamic_ids (the_props This) 0 in
  (length (builtins ++ customs ++ dynamics) < fuel)%nat ->
  enumerate fuel h this DISPID_STARTENUM
    = Some (builtins ++ customs ++ dynamics, enum_end) /\
  StronglySorted Z.lt builtins.
Proof.
  intros Hl Hs Hids Hcs Hmax builtins dynamics Hfuel. split.
  - now apply enumerate_all.
  - now apply builtin_ids_sorted.
Qed.

Lemma enumerate_order_witness :
  enumerate 10 enum_heap 1%nat DISPID_STARTENUM
    = Some ([1001; MSHTML_DISPID_CUSTOM_MIN; MSHTML_DISPID_CUSTOM_MIN + 1;
             DISPID_DYNPROP_0 + 1; DISPID_DYNPROP_0 + 4], enum_end).
Proof.
  destruct (enumerate_order enum_heap 1%nat enum_obj
              [MSHTML_DISPID_CUSTOM_MIN; MSHTML_DISPID_CUSTOM_MIN + 1] 10)
    as [He _].
  - reflexivity.
  - repeat constructor; vm_compute; reflexivity.
  - intros fi [<- | [<- | []]]; vm_compute; intros; split; congruence.
  - vm_compute. repeat split.
  - vm_compute. discriminate.
  - vm_compute. lia.
  - exact He.
Defined.

(** The members of interface 2 are declared as height (identifier 5), then
    width (identifier 3); the table built from it, and so the enumeration,
    has width before height. *)
Lemma enumeration_not_in_declaration_order :
  exists ti st data,
    get_typeinfo reflect_host 2%nat = (S_OK, Some ti) /\
    map memid (drop 7 (GetFuncDesc ti)) = [5; 3] /\
    ensure_dispex_info reflect_host reflect_prototypes 1 empty_cache 7%nat
      (iface_desc 2%nat) COMPAT_MODE_IE9 = Some (st, Some 0%nat) /\
    dispex_data_list st !! 0%nat = Some data /\
    table_ids data = [3; 5] /\
    enumerate 3 (<[1%nat := reflected_obj data]> ∅) 1%nat DISPID_STARTENUM
      = Some ([3; 5], enum_end) /\
    enumerate 3 (<[1%nat := reflected_obj data]> ∅) 1%nat DISPID_STARTENUM
      <> Some (map memid (drop 7 (GetFuncDesc ti)), enum_end).
Proof.
  do 3 eexists. repeat split; try (vm_compute; reflexivity).
  vm_compute. discriminate.
Qed.

(** What the statement above leaves out: on the table that the overflow
    of dispid_cmp leaves unsorted, the enumeration is in table order but
    loses its place after the second member and ends with
    DISP_E_MEMBERNOTFOUND instead of S_FALSE. *)
Example enumeration_of_unsorted_table :
  exists st data,
    ensure_dispex_info reflect_host reflect_prototypes 1 empty_cache 0%nat
      (iface_desc 1%nat) COMPAT_MODE_IE8 = Some (st, Some 0%nat) /\
    dispex_data_list st !! 0%nat = Some data /\
    enumerate 5 (<[1%nat := reflected_obj data]> ∅) 1%nat DISPID_STARTENUM
      = Some ([65537; -2147418112], (DISP_E_MEMBERNOTFOUND, None)).
Proof. do 2 eexists. repeat split; vm_compute; reflexivity. Qed.

(** ** Lookup of builtin members by identifier and by name *)

(** *** The string comparisons are orders *)

Lemma wcscmp_eq a : forall b, wcscmp a b = 0 -> a = b.
Proof.
  induction a as [|x a IH]; intros [|y b]; simpl; try discriminate; [reflexivity|].
  destruct (Nat.eqb_spec (nat_of_ascii x) (nat_of_ascii y)) as [E|E].
  - intros Hc. f_equal; [|now apply IH].
    rewrite <- (ascii_nat_embedding x), <- (ascii_nat_embedding y). now rewrite E.
  - destruct (nat_of_ascii x <? nat_of_ascii y)%nat; discriminate.
Qed.

Lemma wcscmp_antisym a : forall b, wcscmp b a = - wcscmp a b.
Proof.
  induction a as [|x a IH]; intros [|y b]; simpl; try reflexivity.
  destruct (Nat.eqb_spec (nat_of_ascii x) (nat_of_ascii y)) as [E|E].
  - rewrite E, Nat.eqb_refl. apply IH.
  - destruct (Nat.eqb_spec (nat_of_ascii y) (nat_of_ascii x)) as [E'|E'];
      [congruence|].
    destruct (Nat.ltb_spec (nat_of_ascii x) (nat_of_ascii y)),
             (Nat.ltb_spec (nat_of_ascii y) (nat_of_ascii x)); try reflexivity; lia.
Qed.

Lemma wcscmp_trans a : forall b c,
  wcscmp a b <= 0 -> wcscmp b c <= 0 -> wcscmp a c <= 0.
Proof.
  induction a as [|x a IH]; intros [|y b] [|z c]; simpl; try lia.
  destruct (Nat.eqb_spec (nat_of_ascii x) (nat_of_ascii y)) as [E1|E1],
           (Nat.eqb_spec (nat_of_ascii y) (nat_of_ascii z)) as [E2|E2],
           (Nat.eqb_spec (nat_of_ascii x) (nat_of_ascii z)) as [E3|E3];
    try (exfalso; congruence); try (apply IH);
    repeat match goal with
           | |- context [(?u <? ?v)%nat] => destruct (Nat.ltb_spec u v)
           end; try lia.
Qed.

Lemma wcsicmp_eq a b : wcsicmp a b = 0 <-> wcslwr a = wcslwr b.
Proof.
  unfold wcsicmp. split; [apply wcscmp_eq | intros ->; apply wcscmp_refl].
Qed.

Lemma wcscmp_wcsicmp a b : wcscmp a b = 0 -> wcsicmp a b = 0.
Proof. intros Hc. apply wcscmp_eq in Hc as ->. apply wcscmp_refl. Qed.

(** *** Sorting with a comparator that is a total preorder *)

Section SortByOrder.

Context {A : Type} (cmp : A -> A -> Z).
Context (cmp_total : forall a b, 0 < cmp a b -> cmp b a <= 0).
Context (cmp_trans : forall a b c, cmp a b <= 0 -> cmp b c <= 0 -> cmp a c <= 0).

Let le_cmp (a b : A) : Prop := cmp a b <= 0.

Lemma qsort_insert_ordered x l :
  StronglySorted le_cmp l -> StronglySorted le_cmp (qsort_insert cmp x l).
Proof.
  intros Hs. induction Hs as [|y l Hs IH Hy]; simpl.
  - repeat constructor.
  - destruct (cmp x y <=? 0) eqn:E.
    + apply Z.leb_le in E. constructor; [now constructor|].
      constructor; [exact E|].
      rewrite List.Forall_forall in *. intros z Hz.
      exact (cmp_trans x y z E (Hy z Hz)).
    + apply Z.leb_gt in E. constructor; [exact IH|].
      rewrite List.Forall_forall in *. intros z Hz.
      apply (Permutation_in _ (qsort_insert_perm cmp x l)) in Hz.
      destruct Hz as [<- | Hz]; [now apply cmp_total | now apply Hy].
Qed.

Lemma qsort_ordered l : StronglySorted le_cmp (qsort cmp l).
Proof.
  induction l as [|x l IH]; simpl; [constructor | now apply qsort_insert_ordered].
Qed.

End SortByOrder.

Lemma StronglySorted_lookup {A} (R : A -> A -> Prop) (l : list A) :
  StronglySorted R l ->
  forall i j a b, l !! i = Some a -> l !! j = Some b -> (i < j)%nat -> R a b.
Proof.
  intros Hs. induction Hs as [|x l Hs IH Hx]; intros i j a b Hi Hj Hlt.
  - discriminate.
  - destruct j as [|j]; [lia|]. simpl in Hj.
    destruct i as [|i]; simpl in Hi.
    + injection Hi as <-. rewrite List.Forall_forall in Hx. apply Hx.
      apply list_elem_of_In, list_elem_of_lookup. eauto.
    + apply (IH i j); [assumption | assumption | lia].
Qed.

(** *** The binary search by name *)

Lemma name_of_lookup data p fi :
  funcs (table data) !! p = Some fi -> name_of data p = func_name fi.
Proof. intros Hp. unfold name_of. now rewrite (nth_lookup_Some _ _ _ _ Hp). Qed.

Lemma name_table_lookup data k p :
  name_table_ok data -> name_table data !! k = Some p ->
  exists fi, funcs (table data) !! p = Some fi.
Proof.
  intros [Hperm _] Hk.
  assert (Hin : In p (seq 0 (length (funcs (table data))))).
  { apply (Permutation_in _ Hperm), list_elem_of_In, list_elem_of_lookup. eauto. }
  apply in_seq in Hin. apply lookup_lt_is_Some_2. lia.
Qed.

Lemma name_table_length data :
  name_table_ok data -> length (name_table data) = length (funcs (table data)).
Proof.
  intros [Hperm _]. rewrite (Permutation_length Hperm). apply length_seq.
Qed.

Lemma name_table_index data p fi :
  name_table_ok data -> funcs (table data) !! p = Some fi ->
  exists k, name_table data !! k = Some p.
Proof.
  intros [Hperm _] Hp. apply list_elem_of_lookup, list_elem_of_In.
  apply (Permutation_in _ (Permutation_sym Hperm)), in_seq.
  pose proof (lookup_lt_Some _ _ _ Hp). lia.
Qed.

(** The search returns, whatever the table. *)
Lemma get_builtin_id_loop_sound data nm grfdex : forall fuel lo hi id,
  get_builtin_id_loop fuel data nm grfdex lo hi = Some (Some id) ->
  exists p fi,
    In p (name_table data) /\ funcs (table data) !! p = Some fi /\
    func_id fi = id /\ wcsicmp (func_name fi) nm = 0 /\
    (has_flag grfdex fdexNameCaseSensitive = true -> func_name fi = nm).
Proof.
  induction fuel as [|fuel IH]; intros lo hi id; simpl; [discriminate|].
  destruct (lo <=? hi); [|discriminate].
  destruct (name_table data !! Z.to_nat ((lo + hi) / 2)) as [p|] eqn:Hp;
    [|discriminate]. simpl.
  destruct (funcs (table data) !! p) as [fi|] eqn:Hfi; [|discriminate]. simpl.
  destruct (wcsicmp (func_name fi) nm =? 0) eqn:Ec.
  - apply Z.eqb_eq in Ec.
    destruct (has_flag grfdex fdexNameCaseSensitive) eqn:Ecs; simpl.
    + destruct (wcscmp (func_name fi) nm =? 0) eqn:Ew; simpl; [|discriminate].
      intros [= <-]. apply Z.eqb_eq in Ew. exists p, fi.
      repeat split; try assumption.
      * apply list_elem_of_In, list_elem_of_lookup. eauto.
      * intros _. now apply wcscmp_eq.
    + intros [= <-]. exists p, fi. repeat split; try assumption.
      * apply list_elem_of_In, list_elem_of_lookup. eauto.
      * discriminate.
  - destruct (0 <? wcsicmp (func_name fi) nm); apply IH.
Qed.

Section SearchByName.

Context (data : dispex_data_t) (Hok : name_table_ok data).

Lemma get_builtin_id_loop_total nm grfdex : forall fuel lo hi,
  0 <= lo <= hi + 1 -> hi < Z.of_nat (length (name_table data)) ->
  hi - lo + 1 < Z.of_nat fuel ->
  exists r, get_builtin_id_loop fuel data nm grfdex lo hi = Some r.
Proof.
  induction fuel as [|fuel IH]; intros lo hi Hlo Hhi Hfuel; simpl; [lia|].
  - destruct (lo <=? hi) eqn:E; [|eauto]. apply Z.leb_le in E.
    set (m := (lo + hi) / 2).
    assert (Hm : lo <= m <= hi).
    { unfold m. split; [apply Z.div_le_lower_bound | apply Z.div_le_upper_bound]; lia. }
    destruct (lookup_lt_is_Some_2 (name_table data) (Z.to_nat m)) as [p Hp]; [lia|].
    rewrite Hp. simpl.
    destruct (name_table_lookup data _ p Hok Hp) as [fi Hfi]. rewrite Hfi. simpl.
    destruct (wcsicmp (func_name fi) nm =? 0).
    + destruct (has_flag grfdex fdexNameCaseSensitive &&
                negb (wcscmp (func_name fi) nm =? 0)); eauto.
    + destruct (0 <? wcsicmp (func_name fi) nm); apply IH; lia.
Qed.

Lemma get_builtin_id_loop_found nm grfdex k p fi :
  name_table data !! k = Some p -> funcs (table data) !! p = Some fi ->
  wcsicmp (func_name fi) nm = 0 ->
  forall fuel lo hi,
    0 <= lo <= Z.of_nat k -> Z.of_nat k <= hi < Z.of_nat (length (name_table data)) ->
    hi - lo < Z.of_nat fuel ->
    get_builtin_id_loop fuel data nm grfdex lo hi
    = Some (if has_flag grfdex fdexNameCaseSensitive &&
               negb (wcscmp (func_name fi) nm =? 0)
            then None else Some (func_id fi)).
Proof.
  intros Hk Hp Hnm.
  apply wcsicmp_eq in Hnm.
  induction fuel as [|fuel IH]; intros lo hi Hlo Hhi Hfuel; [lia|].
  simpl. destruct (lo <=? hi) eqn:E; [|apply Z.leb_gt in E; lia].
  set (m := (lo + hi) / 2).
  assert (Hm : lo <= m <= hi).
  { unfold m. split; [apply Z.div_le_lower_bound | apply Z.div_le_upper_bound]; lia. }
  destruct (lookup_lt_is_Some_2 (name_table data) (Z.to_nat m)) as [pm Hpm]; [lia|].
  rewrite Hpm. simpl.
  destruct (name_table_lookup data _ pm Hok Hpm) as [fm Hfm]. rewrite Hfm. simpl.
  assert (Hc : wcsicmp (func_name fm) nm = wcsicmp (name_of data pm) (name_of data p)).
  { rewrite (name_of_lookup _ _ _ Hfm), (name_of_lookup _ _ _ Hp).
    unfold wcsicmp. now rewrite Hnm. }
  destruct Hok as [_ Hs].
  destruct (Nat.lt_trichotomy (Z.to_nat m) k) as [Hlt | [Heq | Hgt]].
  - pose proof (StronglySorted_lookup _ _ Hs _ _ _ _ Hpm Hk Hlt) as Hord.
    simpl in Hord. rewrite Hc.
    destruct (Z.eqb_spec (wcsicmp (name_of data pm) (name_of data p)) 0); [lia|].
    destruct (Z.ltb_spec 0 (wcsicmp (name_of data pm) (name_of data p))); [lia|].
    apply IH; lia.
  - subst k. rewrite Hpm in Hk. injection Hk as ->.
    rewrite Hfm in Hp. injection Hp as ->.
    unfold wcsicmp. rewrite Hnm, wcscmp_refl. simpl.
    now destruct (has_flag grfdex fdexNameCaseSensitive &&
                  negb (wcscmp (func_name fi) nm =? 0)).
  - pose proof (StronglySorted_lookup _ _ Hs _ _ _ _ Hk Hpm Hgt) as Hord.
    simpl in Hord. rewrite Hc.
    unfold wcsicmp in *.
    rewrite (wcscmp_antisym (wcslwr (name_of data p))) in *.
    destruct (Z.eqb_spec (- wcscmp (wcslwr (name_of data p)) (wcslwr (name_of data pm))) 0);
      [lia|].
    destruct (Z.ltb_spec 0 (- wcscmp (wcslwr (name_of data p)) (wcslwr (name_of data pm))));
      [|lia].
    apply IH; lia.
Qed.

Lemma get_builtin_id_found nm grfdex p fi :
  funcs (table data) !! p = Some fi -> wcsicmp (func_name fi) nm = 0 ->
  get_builtin_id data nm grfdex
  = Some (if has_flag grfdex fdexNameCaseSensitive &&
             negb (wcscmp (func_name fi) nm =? 0)
          then None else Some (func_id fi)).
Proof.
  intros Hp Hnm. destruct (name_table_index data p fi Hok Hp) as [k Hk].
  pose proof (lookup_lt_Some _ _ _ Hk) as Hlt.
  pose proof (name_table_length data Hok) as Hlen.
  unfold get_builtin_id, func_cnt.
  apply (get_builtin_id_loop_found nm grfdex k p fi Hk Hp Hnm); lia.
Qed.

Lemma get_builtin_id_absent nm grfdex :
  (forall fi, In fi (funcs (table data)) -> wcsicmp (func_name fi) nm <> 0) ->
  get_builtin_id data nm grfdex = Some None.
Proof.
  intros Habs.
  pose proof (name_table_length data Hok) as Hlen.
  destruct (get_builtin_id_loop_total nm grfdex (S (func_cnt (table data))) 0
              (Z.of_nat (func_cnt (table data)) - 1)) as [r Hr];
    [unfold func_cnt; lia ..|].
  unfold get_builtin_id. rewrite Hr. destruct r as [id|]; [|reflexivity].
  destruct (get_builtin_id_loop_sound _ _ _ _ _ _ _ Hr)
    as (p & fi & _ & Hfi & _ & Hnm & _).
  exfalso. apply (Habs fi); [|exact Hnm].
  apply list_elem_of_In, list_elem_of_lookup. eauto.
Qed.

End SearchByName.

(** *** The binary search by identifier *)

Lemma get_builtin_func_loop_sound (l : list func_info_t) id : forall fuel lo hi n,
  get_builtin_func_loop fuel l id lo hi = Some n ->
  exists fi, l !! n = Some fi /\ func_id fi = id.
Proof.
  induction fuel as [|fuel IH]; intros lo hi n; simpl; [discriminate|].
  destruct (lo <=? hi); [|discriminate].
  destruct (l !! Z.to_nat ((lo + hi) / 2)) as [fi|] eqn:Hfi; [|discriminate].
  destruct (func_id fi =? id) eqn:E.
  - intros [= <-]. apply Z.eqb_eq in E. eauto.
  - destruct (func_id fi <? id); apply IH.
Qed.

(** X1.  On a table strictly sorted by identifier, get_builtin_func
    returns entry [n] exactly when entry [n] carries the identifier asked
    for; so an identifier of no member is answered with
    DISP_E_MEMBERNOTFOUND. *)
Theorem get_builtin_func_correct (data : dispex_data_t) (id : DISPID) (n : nat) :
  StronglySorted Z.lt (table_ids data) ->
  (get_builtin_func data id = Some n <->
   exists fi, funcs (table data) !! n = Some fi /\ func_id fi = id) /\
  (~ In id (table_ids data) -> get_builtin_func data id = None).
Proof.
  intros Hs. split; [split|].
  - apply get_builtin_func_loop_sound.
  - intros (fi & Hn & <-). now apply get_builtin_func_found.
  - intros Hnot. destruct (get_builtin_func data id) as [m|] eqn:E; [|reflexivity].
    apply get_builtin_func_loop_sound in E as (fi & Hm & <-).
    exfalso. apply Hnot. unfold table_ids. apply in_map.
    apply list_elem_of_In, list_elem_of_lookup. eauto.
Qed.

Lemma get_builtin_func_correct_witness :
  (get_builtin_func (widget_info COMPAT_MODE_IE9) 1001 = Some 1%nat <->
   exists fi, funcs (table (widget_info COMPAT_MODE_IE9)) !! 1%nat = Some fi /\
              func_id fi = 1001) /\
  get_builtin_func (widget_info COMPAT_MODE_IE9) 7 = None.
Proof.
  assert (Hs : StronglySorted Z.lt (table_ids (widget_info COMPAT_MODE_IE9)))
    by (repeat constructor; vm_compute; reflexivity).
  split.
  - exact (proj1 (get_builtin_func_correct (widget_info COMPAT_MODE_IE9) 1001 1 Hs)).
  - apply (proj2 (get_builtin_func_correct (widget_info COMPAT_MODE_IE9) 7 0 Hs)).
    vm_compute. intros [Hc | [Hc | []]]; discriminate.
Defined.

(** *** Lookup by name *)

Lemma widget_name_table_ok mode : name_table_ok (widget_info mode).
Proof.
  split; [reflexivity|].
  repeat constructor; vm_compute; reflexivity.
Qed.

Lemma dispex_get_builtin_id_exact
    (names_of : dispex_static_data_vtbl_t -> dispex_name_vtbl_t)
    (This : DispatchEx) (p : nat) (fi : func_info_t) (grfdex : Z) :
  name_table_ok (info This) ->
  funcs (table (info This)) !! p = Some fi ->
  dispex_get_builtin_id names_of This (func_name fi) grfdex
    = Some (S_OK, Some (func_id fi)).
Proof.
  intros Hok Hp. unfold dispex_get_builtin_id.
  rewrite (get_builtin_id_found _ Hok _ grfdex p fi Hp)
    by (apply wcscmp_wcsicmp, wcscmp_refl).
  rewrite wcscmp_refl. simpl. now rewrite andb_false_r.
Qed.

(** X2.  On a table whose name table is in order, dispex_get_builtin_id
    finds every member by its exact name under any flags and before any
    class hook is asked, and by any spelling that differs only in case
    unless fdexNameCaseSensitive is set; with fdexNameCaseSensitive such a
    spelling is not a member, and a class without hooks answers
    DISP_E_UNKNOWNNAME. *)
Theorem dispex_get_builtin_id_finds_member
    (names_of : dispex_static_data_vtbl_t -> dispex_name_vtbl_t)
    (This : DispatchEx) (p : nat) (fi : func_info_t) (grfdex : Z) :
  name_table_ok (info This) ->
  funcs (table (info This)) !! p = Some fi ->
  dispex_get_builtin_id names_of This (func_name fi) grfdex
    = Some (S_OK, Some (func_id fi)) /\
  (forall nm,
     wcsicmp (func_name fi) nm = 0 ->
     has_flag grfdex fdexNameCaseSensitive = false ->
     dispex_get_builtin_id names_of This nm grfdex = Some (S_OK, Some (func_id fi))) /\
  (forall nm,
     wcsicmp (func_name fi) nm = 0 -> func_name fi <> nm ->
     has_flag grfdex fdexNameCaseSensitive = true ->
     vtbl (desc (info This)) = None ->
     dispex_get_builtin_id names_of This nm grfdex = Some (DISP_E_UNKNOWNNAME, None)).
Proof.
  intros Hok Hp. split; [|split].
  - now apply (dispex_get_builtin_id_exact names_of This p).
  - intros nm Hnm Hcs. unfold dispex_get_builtin_id.
    rewrite (get_builtin_id_found _ Hok _ grfdex p fi Hp Hnm), Hcs. reflexivity.
  - intros nm Hnm Hne Hcs Hv. unfold dispex_get_builtin_id.
    rewrite (get_builtin_id_found _ Hok _ grfdex p fi Hp Hnm), Hcs.
    destruct (wcscmp (func_name fi) nm =? 0) eqn:E.
    + apply Z.eqb_eq, wcscmp_eq in E. contradiction.
    + simpl. now rewrite Hv.
Qed.

Lemma dispex_get_builtin_id_finds_member_witness :
  dispex_get_builtin_id no_name_hooks (widget COMPAT_MODE_IE9) "area"
    fdexNameCaseSensitive = Some (S_OK, Some 1000) /\
  dispex_get_builtin_id no_name_hooks (widget COMPAT_MODE_IE9) "Area"
    fdexNameCaseInsensitive = Some (S_OK, Some 1000) /\
  dispex_get_builtin_id no_name_hooks (widget COMPAT_MODE_IE9) "Area"
    fdexNameCaseSensitive = Some (DISP_E_UNKNOWNNAME, None).
Proof.
  split; [|split].
  - exact (proj1 (dispex_get_builtin_id_finds_member no_name_hooks
                    (widget COMPAT_MODE_IE9) 0 area_info fdexNameCaseSensitive
                    (widget_name_table_ok _) eq_refl)).
  - apply (proj1 (proj2 (dispex_get_builtin_id_finds_member no_name_hooks
                           (widget COMPAT_MODE_IE9) 0 area_info
                           fdexNameCaseInsensitive
                           (widget_name_table_ok _) eq_refl))); reflexivity.
  - apply (proj2 (proj2 (dispex_get_builtin_id_finds_member no_name_hooks
                           (widget COMPAT_MODE_IE9) 0 area_info
                           fdexNameCaseSensitive
                           (widget_name_table_ok _) eq_refl)));
      [reflexivity | discriminate | reflexivity | reflexivity].
Defined.

(** X3.  A class without hooks answers a name with S_OK only by the
    identifier of a member whose name is the one asked for up to case,
    and exactly the one asked for under fdexNameCaseSensitive; any other
    answer is DISP_E_UNKNOWNNAME, which is the answer whenever no member
    has the name up to case. *)
Theorem dispex_get_builtin_id_sound
    (names_of : dispex_static_data_vtbl_t -> dispex_name_vtbl_t)
    (This : DispatchEx) (nm : string) (grfdex : Z) :
  vtbl (desc (info This)) = None ->
  (forall hres pid,
     dispex_get_builtin_id names_of This nm grfdex = Some (hres, pid) ->
     (hres = S_OK /\
      exists fi, In fi (funcs (table (info This))) /\ pid = Some (func_id fi) /\
                 wcsicmp (func_name fi) nm = 0 /\
                 (has_flag grfdex fdexNameCaseSensitive = true -> func_name fi = nm))
     \/ (hres = DISP_E_UNKNOWNNAME /\ pid = None)) /\
  (name_table_ok (info This) ->
   (forall fi, In fi (funcs (table (info This))) -> wcsicmp (func_name fi) nm <> 0) ->
   dispex_get_builtin_id names_of This nm grfdex = Some (DISP_E_UNKNOWNNAME, None)).
Proof.
  intros Hv. split.
  - intros hres pid. unfold dispex_get_builtin_id, get_builtin_id.
    destruct (get_builtin_id_loop _ _ _ _ _ _) as [[id|]|] eqn:E; simpl;
      [| rewrite Hv | discriminate].
    + intros [= <- <-]. left. split; [reflexivity|].
      destruct (get_builtin_id_loop_sound _ _ _ _ _ _ _ E)
        as (p & fi & _ & Hfi & Hid & Hnm & Hcs).
      exists fi. repeat split; try assumption; [|now rewrite Hid].
      apply list_elem_of_In, list_elem_of_lookup. eauto.
    + intros [= <- <-]. now right.
  - intros Hok Habs. unfold dispex_get_builtin_id.
    rewrite (get_builtin_id_absent _ Hok nm grfdex Habs). simpl. now rewrite Hv.
Qed.

Lemma dispex_get_builtin_id_sound_witness :
  dispex_get_builtin_id no_name_hooks (widget COMPAT_MODE_IE9) "volume" 0
  = Some (DISP_E_UNKNOWNNAME, None).
Proof.
  apply (proj2 (dispex_get_builtin_id_sound no_name_hooks (widget COMPAT_MODE_IE9)
                  "volume" 0 eq_refl)).
  - apply widget_name_table_ok.
  - intros fi [<- | [<- | []]]; vm_compute; discriminate.
Defined.

(** *** The name table of a built table *)

Lemma StronglySorted_strengthen {A} (R R' : A -> A -> Prop) (l : list A) :
  (forall a b, In a l -> In b l -> a <> b -> R a b -> R' a b) ->
  NoDup l -> StronglySorted R l -> StronglySorted R' l.
Proof.
  intros Himp Hnd Hs. induction Hs as [|x l Hs IH Hx]; [constructor|].
  apply NoDup_cons in Hnd as [Hnin Hnd].
  constructor.
  - apply IH; [|exact Hnd]. intros a b Ha Hb. apply Himp; now right.
  - rewrite List.Forall_forall in *. intros y Hy.
    apply Himp; [now left | now right | | now apply Hx].
    intros ->. apply Hnin. now apply list_elem_of_In.
Qed.

Lemma func_name_cmp_total l a b :
  0 < func_name_cmp l a b -> func_name_cmp l b a <= 0.
Proof. unfold func_name_cmp, wcsicmp. rewrite (wcscmp_antisym _ (wcslwr _)). lia. Qed.

Lemma func_name_cmp_trans l a b c :
  func_name_cmp l a b <= 0 -> func_name_cmp l b c <= 0 -> func_name_cmp l a c <= 0.
Proof. unfold func_name_cmp, wcsicmp. apply wcscmp_trans. Qed.

(** *** Invariants of the table under construction *)

Section TableInvariant.

Context (H : host_t) (P : func_table -> Prop).
Context (P_add : forall data t desc dti hk name_override,
           P data -> P (add_func_info H data t desc dti hk name_override)).

Lemma process_funcdescs_keeps t dti hooks descs : forall data,
  P data -> P (process_funcdescs H data t dti hooks descs).
Proof.
  induction descs as [|funcdesc descs IH]; intros data HP; simpl; [exact HP|].
  apply IH.
  destruct (match hooks with Some hs => find_hook hs (memid funcdesc) | None => None end)
    as [k|].
  - destruct (bool_decide (is_Some (hook_invoke k)) || _); [now apply P_add | exact HP].
  - now apply P_add.
Qed.

Lemma process_interface_keeps data t dti hooks :
  P data -> P (snd (process_interface H data t dti hooks)).
Proof.
  intros HP. unfold process_interface.
  destruct (get_typeinfo H t) as [hres [typeinfo|]]; [|exact HP].
  destruct (FAILED hres); [exact HP|]. simpl.
  now apply process_funcdescs_keeps.
Qed.

Lemma process_interfaces_keeps dti tids : forall data,
  P data -> P (process_interfaces H data dti tids).
Proof.
  induction tids as [|t tids IH]; intros data HP; simpl; [exact HP|].
  pose proof (process_interface_keeps data t dti None HP) as HP'.
  destruct (process_interface H data t dti None) as [hres data']. simpl in HP'.
  destruct (FAILED hres); [exact HP' | now apply IH].
Qed.

End TableInvariant.

Lemma add_params_name dti params : forall i info,
  func_name (fst (add_params dti params i info)) = func_name info.
Proof.
  induction params as [|p params IH]; intros i info; simpl; [reflexivity|].
  destruct ((tdesc_vt p =? VT_PTR) && (lptdesc_vt p =? VT_USERDEFINED)).
  - destruct (GetRefTypeGuid dti (hreftype p)) as [hres guid].
    destruct (FAILED hres); [reflexivity|].
    destruct (has_flag (wParamFlags p) PARAMFLAG_FHASDEFAULT); now rewrite IH.
  - destruct (negb (is_arg_type_supported (nth i (arg_types info) VT_EMPTY)));
      [reflexivity|].
    destruct (has_flag (wParamFlags p) PARAMFLAG_FHASDEFAULT); now rewrite IH.
Qed.

Lemma add_params_disp_idx dti params : forall i info,
  func_disp_idx (fst (add_params dti params i info)) = func_disp_idx info.
Proof.
  induction params as [|p params IH]; intros i info; simpl; [reflexivity|].
  destruct ((tdesc_vt p =? VT_PTR) && (lptdesc_vt p =? VT_USERDEFINED)).
  - destruct (GetRefTypeGuid dti (hreftype p)) as [hres guid].
    destruct (FAILED hres); [reflexivity|].
    destruct (has_flag (wParamFlags p) PARAMFLAG_FHASDEFAULT); now rewrite IH.
  - destruct (negb (is_arg_type_supported (nth i (arg_types info) VT_EMPTY)));
      [reflexivity|].
    destruct (has_flag (wParamFlags p) PARAMFLAG_FHASDEFAULT); now rewrite IH.
Qed.

Lemma fill_func_info_name H dti desc cnt info :
  func_name (fst (fill_func_info H dti desc cnt info)) = func_name info.
Proof.
  unfold fill_func_info.
  destruct (has_flag (invkind desc) DISPATCH_METHOD).
  - destruct (negb (elemdescFunc_vt desc =? VT_VOID) && _ && _); [reflexivity|].
    destruct (negb (cParamsOpt desc =? 0)%nat); [reflexivity|].
    match goal with
    | |- context [add_params dti ?ps ?i ?inf] =>
        pose proof (add_params_name dti ps i inf) as Hid;
        destruct (add_params dti ps i inf) as [info3 complete]
    end.
    simpl in Hid. now destruct complete.
  - now destruct (has_flag (invkind desc) _).
Qed.

Lemma SHORT_small z : -32768 <= z <= 32767 -> SHORT z = z.
Proof. intros Hz. unfold SHORT. rewrite Z.mod_small by lia. lia. Qed.

(** The slot index and the counter after an update from a FUNCDESC: a
    method takes the next free slot; an accessor keeps the entry's slot or
    marks the entry hidden. *)
Lemma fill_func_info_disp_idx H dti desc cnt info :
  let r := fill_func_info H dti desc cnt info in
  (has_flag (invkind desc) DISPATCH_METHOD = true /\
   func_disp_idx (fst r) = SHORT (Z.of_nat cnt) /\ snd r = S cnt) \/
  (has_flag (invkind desc) DISPATCH_METHOD = false /\ snd r = cnt /\
   (func_disp_idx (fst r) = func_disp_idx info \/ func_disp_idx (fst r) = -2)).
Proof.
  unfold fill_func_info.
  destruct (has_flag (invkind desc) DISPATCH_METHOD).
  - left. split; [reflexivity|].
    destruct (negb (elemdescFunc_vt desc =? VT_VOID) && _ && _); [now split|].
    destruct (negb (cParamsOpt desc =? 0)%nat); [now split|].
    match goal with
    | |- context [add_params dti ?ps ?i ?inf] =>
        pose proof (add_params_disp_idx dti ps i inf) as Hid;
        destruct (add_params dti ps i inf) as [info3 complete]
    end.
    simpl in Hid. destruct complete; simpl; now split.
  - right. split; [reflexivity|].
    destruct (has_flag (invkind desc) _); simpl; [|now split; [|left]].
    split; [reflexivity|].
    destruct (has_flag (wFuncFlags desc) FUNCFLAG_FHIDDEN); [now right | now left].
Qed.

Lemma find_func_None_name l id nm : forall k,
  find_func l id nm k = None -> ~ In nm (map func_name l).
Proof.
  induction l as [|info l IH]; intros k Hf; simpl in *; [tauto|].
  destruct (func_id info =? id); [discriminate|]. simpl in Hf.
  destruct (wcscmp (func_name info) nm =? 0) eqn:E; [discriminate|].
  apply Z.eqb_neq in E. intros [Heq | Hin].
  - apply E. rewrite Heq. apply wcscmp_refl.
  - exact (IH _ Hf Hin).
Qed.

Lemma add_func_info_names H data t desc dti hk name_override :
  NoDup (map func_name (funcs data)) ->
  NoDup (map func_name (funcs (add_func_info H data t desc dti hk name_override))).
Proof.
  intros Hnd. unfold add_func_info.
  destruct (match name_override with Some n => Some n | None => _ end) as [nm|];
    [|exact Hnd].
  destruct (find_func (funcs data) (memid desc) nm 0) as [[i info]|] eqn:Ef.
  - destruct (negb (tid info =? t)%nat); [exact Hnd|].
    pose proof (fill_func_info_name H dti desc (func_disp_cnt data) info) as Hid.
    destruct (fill_func_info H dti desc (func_disp_cnt data) info) as [info' cnt].
    simpl in *.
    apply find_func_Some in Ef as [_ Hl]. rewrite Nat.sub_0_r in Hl.
    rewrite list_fmap_insert, Hid.
    rewrite list_insert_id; [exact Hnd|].
    now rewrite list_lookup_fmap, Hl.
  - pose proof (fill_func_info_name H dti desc (func_disp_cnt data)
                  (new_func_info (memid desc) nm t hk)) as Hid.
    destruct (fill_func_info H dti desc (func_disp_cnt data) _) as [info' cnt].
    simpl in *. rewrite map_app. simpl. rewrite Hid.
    apply NoDup_app. split; [exact Hnd|]. split; [|apply NoDup_singleton].
    intros x Hx Hx'. apply list_elem_of_singleton in Hx'. subst x.
    apply (find_func_None_name _ _ _ _ Ef). now apply list_elem_of_In.
Qed.

(** One entry of the table is written (or appended) with the result of
    fill_func_info. *)
Lemma disp_idx_ok_update (l l' : list func_info_t) (cnt cnt' i : nat)
    (info0 info' : func_info_t) :
  disp_idx_ok {| funcs := l; func_disp_cnt := cnt |} ->
  (forall k, k <> i -> l' !! k = l !! k) -> l' !! i = Some info' ->
  (l !! i = Some info0 \/ (l !! i = None /\ func_disp_idx info0 < 0)) ->
  ((func_disp_idx info' = Z.of_nat cnt /\ cnt' = S cnt) \/
   (cnt' = cnt /\
    (func_disp_idx info' = func_disp_idx info0 \/ func_disp_idx info' = -2))) ->
  disp_idx_ok {| funcs := l'; func_disp_cnt := cnt' |}.
Proof.
  intros [Hb Hd] Hother Hi Hold Hfill. simpl in *.
  assert (Hb' : forall k fi, l !! k = Some fi -> func_disp_idx fi < Z.of_nat cnt).
  { intros k fi Hk. apply Hb, list_elem_of_In, list_elem_of_lookup. eauto. }
  assert (Hnew : func_disp_idx info' < Z.of_nat cnt').
  { destruct Hfill as [[-> ->] | [-> [-> | ->]]]; [lia | | lia].
    destruct Hold as [Hold | [_ Hneg]]; [exact (Hb' _ _ Hold) | lia]. }
  split.
  - simpl. intros fi Hin.
    apply list_elem_of_In, list_elem_of_lookup in Hin as [k Hk].
    destruct (Nat.eq_dec k i) as [-> | Hne].
    + rewrite Hi in Hk. injection Hk as <-. exact Hnew.
    + rewrite (Hother k Hne) in Hk. pose proof (Hb' _ _ Hk).
      destruct Hfill as [[_ ->] | [-> _]]; lia.
  - simpl. intros a b fa fb Ha Hb0 Hpos Heq.
    destruct (Nat.eq_dec a i) as [-> | Hna], (Nat.eq_dec b i) as [-> | Hnb];
      [reflexivity | | |].
    + rewrite Hi in Ha. injection Ha as <-. rewrite (Hother b Hnb) in Hb0.
      pose proof (Hb' _ _ Hb0).
      destruct Hfill as [[Hidx _] | [_ [Hidx | Hidx]]]; [lia | | lia].
      destruct Hold as [Hold | [_ Hneg]]; [|lia].
      apply (Hd i b info0 fb Hold Hb0); lia.
    + rewrite Hi in Hb0. injection Hb0 as <-. rewrite (Hother a Hna) in Ha.
      pose proof (Hb' _ _ Ha).
      destruct Hfill as [[Hidx _] | [_ [Hidx | Hidx]]]; [lia | | lia].
      destruct Hold as [Hold | [_ Hneg]]; [|lia].
      apply (Hd a i fa info0 Ha Hold); lia.
    + rewrite (Hother a Hna) in Ha. rewrite (Hother b Hnb) in Hb0.
      exact (Hd a b fa fb Ha Hb0 Hpos Heq).
Qed.

(** As long as the count of function-object slots fits the SHORT
    [func_disp_idx], add_func_info keeps the slots in bounds and
    unshared; the count never decreases. *)
Lemma add_func_info_disp_idx H data t desc dti hk name_override :
  let data' := add_func_info H data t desc dti hk name_override in
  (func_disp_cnt data <= func_disp_cnt data')%nat /\
  ((Z.of_nat (func_disp_cnt data) <= 32768 -> disp_idx_ok data) ->
   Z.of_nat (func_disp_cnt data') <= 32768 -> disp_idx_ok data').
Proof.
  unfold add_func_info.
  destruct (match name_override with Some n => Some n | None => _ end) as [nm|];
    [|simpl; split; [lia | auto]].
  destruct data as [l cnt]. simpl in *.
  destruct (find_func l (memid desc) nm 0) as [[i info]|] eqn:Ef.
  - destruct (negb (tid info =? t)%nat); [simpl; split; [lia | auto]|].
    pose proof (fill_func_info_disp_idx H dti desc cnt info) as Hfill.
    destruct (fill_func_info H dti desc cnt info) as [info' cnt']. simpl in *.
    split; [destruct Hfill as [(_ & _ & ->) | (_ & -> & _)]; lia|].
    intros Hok Hcnt.
    assert (Hle : Z.of_nat cnt <= 32768)
      by (destruct Hfill as [(_ & _ & ->) | (_ & -> & _)]; lia).
    apply find_func_Some in Ef as [_ Hl]. rewrite Nat.sub_0_r in Hl.
    apply (disp_idx_ok_update l _ cnt cnt' i info info' (Hok Hle)).
    + intros k Hk. now apply list_lookup_insert_ne.
    + apply list_lookup_insert_eq. exact (lookup_lt_Some _ _ _ Hl).
    + now left.
    + destruct Hfill as [(_ & Hidx & ->) | (_ & ? & ?)]; [left | now right].
      split; [|reflexivity]. rewrite Hidx. apply SHORT_small. lia.
  - pose proof (fill_func_info_disp_idx H dti desc cnt
                  (new_func_info (memid desc) nm t hk)) as Hfill.
    destruct (fill_func_info H dti desc cnt _) as [info' cnt']. simpl in *.
    split; [destruct Hfill as [(_ & _ & ->) | (_ & -> & _)]; lia|].
    intros Hok Hcnt.
    assert (Hle : Z.of_nat cnt <= 32768)
      by (destruct Hfill as [(_ & _ & ->) | (_ & -> & _)]; lia).
    apply (disp_idx_ok_update l _ cnt cnt' (length l)
             (new_func_info (memid desc) nm t hk) info' (Hok Hle)).
    + intros k Hk. destruct (Nat.lt_ge_cases k (length l)).
      * now apply lookup_app_l.
      * rewrite lookup_app_r by lia.
        rewrite (lookup_ge_None_2 l k) by lia.
        destruct (k - length l)%nat as [|m] eqn:E; [lia | reflexivity].
    + rewrite lookup_app_r, Nat.sub_diag by lia. reflexivity.
    + right. split; [apply lookup_ge_None_2; lia | simpl; lia].
    + destruct Hfill as [(_ & Hidx & ->) | (_ & ? & ?)]; [left | now right].
      split; [|reflexivity]. rewrite Hidx. apply SHORT_small. lia.
Qed.

Lemma disp_idx_ok_perm (l l' : list func_info_t) (cnt : nat) :
  Permutation l' l ->
  disp_idx_ok {| funcs := l; func_disp_cnt := cnt |} ->
  disp_idx_ok {| funcs := l'; func_disp_cnt := cnt |}.
Proof.
  intros Hperm [Hb Hd]. simpl in *. split; simpl.
  - intros fi Hin. apply Hb. exact (Permutation_in _ Hperm Hin).
  - apply Permutation_inj in Hperm as (_ & f & Hinj & Hf).
    intros a b fa fb Ha Hb0 Hpos Heq.
    rewrite Hf in Ha. rewrite Hf in Hb0.
    apply Hinj. exact (Hd _ _ _ _ Ha Hb0 Hpos Heq).
Qed.

(** *** The cache of built tables *)

Lemma cache_grows_refl st : cache_grows st st.
Proof. split; [exists []; now rewrite app_nil_r | auto]. Qed.

Lemma cache_grows_trans st1 st2 st3 :
  cache_grows st1 st2 -> cache_grows st2 st3 -> cache_grows st1 st3.
Proof.
  intros [[l Hl] Hc] [[l' Hl'] Hc']. split.
  - exists (l ++ l'). now rewrite Hl', Hl, app_assoc.
  - auto.
Qed.

Section CacheInvariant.

Context (H : host_t) (PT : prototype_tables).
Context (P : func_table -> Prop) (Q : dispex_data_t -> Prop).
Context (P_empty : P {| funcs := []; func_disp_cnt := 0 |}).
Context (P_add : forall data t desc dti hk name_override,
           P data -> P (add_func_info H data t desc dti hk name_override)).
Context (Q_empty : forall desc mode, Q (empty_table desc mode)).
Context (Q_sorted : forall desc mode t, P t -> Q (sorted_table desc mode t)).
Context (Q_copy : forall data,
           Q data -> P {| funcs := funcs (table data);
                          func_disp_cnt := func_disp_cnt (table data) |}).

Lemma add_interfaces_keeps calls : forall data,
  P data -> P (add_interfaces H data calls).
Proof.
  induction calls as [|[t hooks] calls IH]; intros data HP; simpl; [exact HP|].
  apply IH. unfold dispex_info_add_interface.
  now apply (process_interface_keeps H P P_add).
Qed.

(** What a resolution [ensure] has to satisfy for the table built around
    it to be in order. *)
Let ensure_ok (ensure : ensure_t) : Prop :=
  forall st d desc mode st1 r,
    cache_tables Q st -> ensure st d desc mode = Some (st1, r) ->
    cache_grows st st1 /\ cache_tables Q st1.

Lemma legacy_prototype_init_dispex_info_keeps ensure st d info mode st1 info1 :
  ensure_ok ensure -> cache_tables Q st -> P info ->
  legacy_prototype_init_dispex_info PT ensure st d info mode = Some (st1, info1) ->
  cache_grows st st1 /\ cache_tables Q st1 /\ P info1.
Proof.
  intros Hens HQ HP. unfold legacy_prototype_init_dispex_info.
  destruct (d <? legacy_prototype_dispex PT)%nat; [discriminate|].
  destruct (prototype_static_data PT !! _) as [[pd pdesc]|]; [|discriminate].
  simpl.
  destruct (ensure st pd pdesc mode) as [[st2 r]|] eqn:Ee; [|discriminate].
  destruct (Hens _ _ _ _ _ _ HQ Ee) as [Hg HQ2]. simpl.
  destruct r as [p|].
  - destruct (dispex_data_list st2 !! p) as [data|] eqn:Ep; [|discriminate].
    simpl. destruct (func_cnt (table data) =? 0)%nat; [discriminate|].
    intros [= <- <-]. split; [exact Hg|]. split; [exact HQ2|].
    apply Q_copy. unfold cache_tables in HQ2.
    rewrite List.Forall_forall in HQ2. apply HQ2.
    apply list_elem_of_In, list_elem_of_lookup. eauto.
  - intros [= <- <-]. auto.
Qed.

Lemma preprocess_dispex_data_keeps ensure st d desc mode st1 r :
  ensure_ok ensure -> cache_tables Q st ->
  preprocess_dispex_data H PT ensure st d desc mode = Some (st1, r) ->
  cache_grows st st1 /\ cache_tables Q st1 /\
  (r = None -> st1 = st) /\
  (forall p, r = Some p ->
     p = length (dispex_data_list st) /\
     exists t, P t /\ dispex_data_list st1 !! p = Some (sorted_table desc mode t)).
Proof.
  intros Hens HQ. unfold preprocess_dispex_data.
  destruct (if negb (disp_tid desc =? 0)%nat then _ else _) as [dti|].
  2:{ intros [= <- <-]. split; [apply cache_grows_refl|].
      split; [exact HQ|]. split; [reflexivity | discriminate]. }
  set (st0 := {| dispex_data_list := dispex_data_list st ++ [_];
                 info_cache := info_cache st |}).
  set (data0 := {| funcs := []; func_disp_cnt := 0 |}).
  assert (Hg0 : cache_grows st st0).
  { split; [eexists; reflexivity | auto]. }
  assert (HQ0 : cache_tables Q st0).
  { unfold cache_tables, st0. simpl. apply Forall_app. split; [exact HQ|].
    constructor; [apply Q_empty | constructor]. }
  assert (Hhook : forall st2 data1,
            match init_info desc with
            | None => Some (st0, data0)
            | Some (init_info_interfaces calls) =>
                Some (st0, add_interfaces H data0 (calls mode))
            | Some init_info_legacy_prototype =>
                legacy_prototype_init_dispex_info PT ensure st0 d data0 mode
            end = Some (st2, data1) ->
            cache_grows st0 st2 /\ cache_tables Q st2 /\ P data1).
  { intros st2 data1. destruct (init_info desc) as [[calls|]|].
    - intros [= <- <-]. split; [apply cache_grows_refl|]. split; [exact HQ0|].
      now apply add_interfaces_keeps.
    - now apply legacy_prototype_init_dispex_info_keeps.
    - intros [= <- <-]. split; [apply cache_grows_refl|]. now split. }
  destruct (match init_info desc with None => _ | Some _ => _ end)
    as [[st2 data1]|]; [|discriminate].
  destruct (Hhook st2 data1 eq_refl) as (Hg2 & HQ2 & HP1).
  cbn [mbind option_bind].
  assert (Hfin : forall data2, P data2 ->
            Some ({| dispex_data_list :=
                       <[length (dispex_data_list st) := sorted_table desc mode data2]>
                         (dispex_data_list st2);
                     info_cache := info_cache st2 |},
                  Some (length (dispex_data_list st))) = Some (st1, r) ->
            cache_grows st st1 /\ cache_tables Q st1 /\
            (r = None -> st1 = st) /\
            (forall p, r = Some p ->
               p = length (dispex_data_list st) /\
               exists t, P t /\
                 dispex_data_list st1 !! p = Some (sorted_table desc mode t))).
  { intros data2 Hdata2 [= <- <-].
    destruct Hg2 as [[l Hl] Hc2]. simpl in Hl.
    assert (Hins : <[length (dispex_data_list st) := sorted_table desc mode data2]>
                     (dispex_data_list st2)
                   = dispex_data_list st ++ sorted_table desc mode data2 :: l).
    { rewrite Hl, <- app_assoc. simpl.
      rewrite insert_app_r_alt, Nat.sub_diag by lia. reflexivity. }
    split; [|split; [|split]].
    - split; simpl; [rewrite Hins; eauto|].
      intros k q Hk. apply Hc2. exact Hk.
    - unfold cache_tables in *. simpl. apply Forall_insert; [exact HQ2|].
      now apply Q_sorted.
    - discriminate.
    - intros p [= <-]. split; [reflexivity|]. exists data2. split; [exact Hdata2|].
      simpl. rewrite Hins. now rewrite lookup_app_r, Nat.sub_diag by lia. }
  destruct (iface_tids desc) as [|t tids] eqn:Et.
  - cbn [mbind option_bind]. now apply Hfin.
  - destruct dti as [ti|]; cbn [mbind option_bind]; [|discriminate].
    apply Hfin.
    now apply (process_interfaces_keeps H P P_add (Some ti) (t :: tids)).
Qed.

Lemma ensure_dispex_info_keeps fuel : forall st d desc mode st1 r,
  cache_tables Q st ->
  ensure_dispex_info H PT fuel st d desc mode = Some (st1, r) ->
  cache_grows st st1 /\ cache_tables Q st1.
Proof.
  induction fuel as [|fuel IH]; intros st d desc mode st1 r HQ; [discriminate|].
  simpl.
  destruct (info_cache st !! (d, mode)) as [p0|] eqn:Ec.
  { intros [= <- <-]. split; [apply cache_grows_refl | exact HQ]. }
  destruct (preprocess_dispex_data H PT _ st d desc mode) as [[st2 r2]|] eqn:Ep;
    [|discriminate].
  destruct (preprocess_dispex_data_keeps _ _ _ _ _ _ _ IH HQ Ep)
    as (Hg & HQ2 & _ & _).
  simpl. destruct r2 as [p|]; intros [= <- <-]; [|now split].
  split; [|exact HQ2].
  destruct Hg as [Hl Hc]. split; [exact Hl|]. simpl.
  intros k q Hk. destruct (decide (k = (d, mode))) as [->|Hne].
  - unfold compat_mode_t in *. congruence.
  - rewrite lookup_insert_ne by congruence. now apply Hc.
Qed.

(** A resolution that finds the slot empty and returns a table has built
    it: the table is the next one of the global list and holds, sorted,
    what the hook and the interfaces have collected. *)
Lemma ensure_dispex_info_built fuel st d desc mode st1 p :
  cache_tables Q st ->
  info_cache st !! (d, mode) = None ->
  ensure_dispex_info H PT fuel st d desc mode = Some (st1, Some p) ->
  p = length (dispex_data_list st) /\
  exists t, P t /\ dispex_data_list st1 !! p = Some (sorted_table desc mode t).
Proof.
  intros HQ Hc. destruct fuel as [|fuel]; [discriminate|]. simpl. rewrite Hc.
  destruct (preprocess_dispex_data H PT _ st d desc mode) as [[st2 r2]|] eqn:Ep;
    [|discriminate].
  destruct (preprocess_dispex_data_keeps _ _ _ _ _ _ _
              (ensure_dispex_info_keeps fuel) HQ Ep) as (_ & _ & _ & Hp).
  simpl. destruct r2 as [q|]; [|discriminate]. intros [= <- <-]. simpl.
  now apply Hp.
Qed.

End CacheInvariant.

(** *** The table that is published *)

Lemma sorted_table_ids desc mode t :
  NoDup (map func_id (funcs t)) ->
  NoDup (table_ids (sorted_table desc mode t)) /\
  (ids_fit (funcs (table (sorted_table desc mode t))) ->
   StronglySorted Z.lt (table_ids (sorted_table desc mode t))).
Proof.
  intros Hnd. unfold table_ids. simpl.
  assert (Hnd' : NoDup (map func_id (qsort dispid_cmp (funcs t)))).
  { apply NoDup_ListNoDup. apply NoDup_ListNoDup in Hnd.
    eapply Permutation_NoDup; [|exact Hnd].
    apply Permutation_map, Permutation_sym, qsort_perm. }
  split; [exact Hnd'|]. intros Hfit.
  apply sorted_nodup_strict; [|exact Hnd'].
  apply sorted_map_key. apply qsort_sorted.
  intros a b Ha Hb. unfold dispid_cmp. apply LONG_small. apply Hfit.
  - exact (Permutation_in _ (Permutation_sym (qsort_perm dispid_cmp _)) Ha).
  - exact (Permutation_in _ (Permutation_sym (qsort_perm dispid_cmp _)) Hb).
Qed.

Lemma sorted_table_name_table desc mode t :
  Permutation (name_table (sorted_table desc mode t))
    (seq 0 (length (funcs (table (sorted_table desc mode t))))) /\
  (names_distinct_nocase (funcs (table (sorted_table desc mode t))) ->
   name_table_ok (sorted_table desc mode t)).
Proof.
  simpl. set (sorted := qsort dispid_cmp (funcs t)).
  assert (Hperm : Permutation (qsort (func_name_cmp sorted) (seq 0 (length sorted)))
                    (seq 0 (length sorted))) by apply qsort_perm.
  split; [exact Hperm|]. intros Hdist.
  split; simpl; [exact Hperm|]. fold sorted.
  apply (StronglySorted_strengthen (fun p q => func_name_cmp sorted p q <= 0)).
  - intros a b Ha Hb Hab Hle.
    apply (Permutation_in _ Hperm), in_seq in Ha.
    apply (Permutation_in _ Hperm), in_seq in Hb.
    destruct (lookup_lt_is_Some_2 sorted a) as [fa Hfa]; [lia|].
    destruct (lookup_lt_is_Some_2 sorted b) as [fb Hfb]; [lia|].
    unfold func_name_cmp, name_of in *. simpl. fold sorted.
    rewrite (nth_lookup_Some _ _ _ _ Hfa), (nth_lookup_Some _ _ _ _ Hfb) in *.
    assert (wcsicmp (func_name fa) (func_name fb) <> 0); [|lia].
    intros Hz. apply Hab. exact (Hdist a b fa fb Hfa Hfb Hz).
  - apply NoDup_ListNoDup, (Permutation_NoDup (Permutation_sym Hperm)), seq_NoDup.
  - apply qsort_ordered; [apply func_name_cmp_total | apply func_name_cmp_trans].
Qed.

(** A table built by ensure_dispex_info has pairwise distinct
    identifiers, given that the tables already in the cache have, and is
    strictly sorted by identifier provided its identifiers are close
    enough for dispid_cmp. *)
Lemma ensure_dispex_info_sorted (H : host_t) (PT : prototype_tables)
    fuel st st1 d desc mode p :
  cache_tables (fun data => NoDup (table_ids data)) st ->
  info_cache st !! (d, mode) = None ->
  ensure_dispex_info H PT fuel st d desc mode = Some (st1, Some p) ->
  exists data,
    dispex_data_list st1 !! p = Some data /\
    NoDup (table_ids data) /\
    (ids_fit (funcs (table data)) -> StronglySorted Z.lt (table_ids data)).
Proof.
  intros HQ Hc He.
  destruct (ensure_dispex_info_built H PT
              (fun t => NoDup (map func_id (funcs t)))
              (fun data => NoDup (table_ids data))) with (6 := HQ) (7 := Hc) (8 := He)
    as (_ & t & Ht & Hp).
  - constructor.
  - intros. now apply add_func_info_ids.
  - intros. constructor.
  - intros desc0 mode0 t0 Ht0. now apply sorted_table_ids.
  - intros data Hd. exact Hd.
  - exists (sorted_table desc mode t). split; [exact Hp|].
    now apply sorted_table_ids.
Qed.

(** X4.  The name table of a table built by ensure_dispex_info lists
    every member once and is, when no two member names differ only in
    case, strictly ordered by the case-insensitive comparison: the
    precondition of the binary search of dispex_get_builtin_id. *)
Theorem preprocess_dispex_data_name_table (H : host_t) (PT : prototype_tables)
    (fuel : nat) (st st1 : cache_state) (d : nat) (desc : dispex_static_data_t)
    (mode : compat_mode_t) (p : nat) :
  info_cache st !! (d, mode) = None ->
  ensure_dispex_info H PT fuel st d desc mode = Some (st1, Some p) ->
  exists data,
    dispex_data_list st1 !! p = Some data /\
    Permutation (name_table data) (seq 0 (length (funcs (table data)))) /\
    (names_distinct_nocase (funcs (table data)) -> name_table_ok data).
Proof.
  intros Hc He.
  destruct (ensure_dispex_info_built H PT (fun _ => True) (fun _ => True))
    with (7 := Hc) (8 := He) as (_ & t & _ & Hp); auto.
  { unfold cache_tables. apply Forall_forall. auto. }
  exists (sorted_table desc mode t). split; [exact Hp|].
  apply sorted_table_name_table.
Qed.

Lemma preprocess_dispex_data_name_table_witness :
  exists st1 data,
    ensure_dispex_info reflect_host reflect_prototypes 1 empty_cache 7%nat
      (iface_desc 2%nat) COMPAT_MODE_IE9 = Some (st1, Some 0%nat) /\
    dispex_data_list st1 !! 0%nat = Some data /\
    map (name_of data) (name_table data) = ["height"; "width"]%string /\
    name_table_ok data.
Proof.
  do 2 eexists. split; [reflexivity|]. split; [reflexivity|].
  split; [reflexivity|].
  destruct (preprocess_dispex_data_name_table reflect_host reflect_prototypes 1
              empty_cache _ 7%nat (iface_desc 2%nat) COMPAT_MODE_IE9 0%nat
              eq_refl eq_refl) as (data & Hp & _ & Hok).
  vm_compute in Hp. injection Hp as <-.
  apply Hok.
  intros i j fi fj Hi Hj.
  destruct i as [|[|i]]; destruct j as [|[|j]]; try discriminate;
    vm_compute in Hi, Hj; injection Hi as <-; injection Hj as <-;
    vm_compute; congruence.
Defined.

(** *** What filling a table keeps *)

(** X5.  Filling a member table creates no duplicates: from a table whose
    identifiers and names are pairwise distinct (the empty table to begin
    with), the dispex_info_add_interface calls of an init_info hook
    followed by the loop of preprocess_dispex_data over the interfaces
    leave a table whose identifiers and names are pairwise distinct
    (add_func_info merges or drops a FUNCDESC whose identifier or name is
    already there). *)
Theorem member_table_distinct (H : host_t) (data : func_table)
    (calls : list (tid_t * option (list dispex_hook_t)))
    (dti : option ITypeInfo) (tids : list tid_t) :
  NoDup (map func_id (funcs data)) ->
  NoDup (map func_name (funcs data)) ->
  let data' := process_interfaces H (add_interfaces H data calls) dti tids in
  NoDup (map func_id (funcs data')) /\ NoDup (map func_name (funcs data')).
Proof.
  intros Hids Hnames.
  set (P := fun t : func_table => NoDup (map func_id (funcs t)) /\
                                  NoDup (map func_name (funcs t))).
  assert (P_add : forall data t desc dti hk name_override,
            P data -> P (add_func_info H data t desc dti hk name_override)).
  { intros ? ? ? ? ? ? [? ?]. split;
      [now apply add_func_info_ids | now apply add_func_info_names]. }
  apply (process_interfaces_keeps H P P_add).
  apply (add_interfaces_keeps H P P_add). now split.
Qed.

Lemma member_table_distinct_witness :
  let data' :=
    process_interfaces method_host
      (add_interfaces method_host {| funcs := []; func_disp_cnt := 0 |}
         [(2%nat, None)])
      (Some method_typeinfo) [3%nat; 3%nat] in
  map func_id (funcs data') = [5; 3; 10; 11; 12] /\
  NoDup (map func_id (funcs data')) /\ NoDup (map func_name (funcs data')).
Proof.
  split; [reflexivity|].
  apply (member_table_distinct method_host {| funcs := []; func_disp_cnt := 0 |}
           [(2%nat, None)] (Some method_typeinfo) [3%nat; 3%nat]); constructor.
Defined.

(** X6.  As long as the count of function-object slots fits the SHORT
    in which a slot index is stored (at most 32768 slots handed out),
    filling a table keeps every func_disp_idx below func_disp_cnt and
    gives no two members the same nonnegative func_disp_idx: the index
    of a method into the per-object array of function objects is in
    bounds and belongs to that method alone. *)
Theorem func_disp_idx_in_bounds (H : host_t) (data : func_table)
    (calls : list (tid_t * option (list dispex_hook_t)))
    (dti : option ITypeInfo) (tids : list tid_t) :
  disp_idx_ok data ->
  let data' := process_interfaces H (add_interfaces H data calls) dti tids in
  Z.of_nat (func_disp_cnt data') <= 32768 ->
  disp_idx_ok data'.
Proof.
  intros Hok.
  set (P := fun t : func_table =>
              Z.of_nat (func_disp_cnt t) <= 32768 -> disp_idx_ok t).
  assert (P_add : forall data t desc dti hk name_override,
            P data -> P (add_func_info H data t desc dti hk name_override)).
  { intros ? ? ? ? ? ? HP.
    exact (proj2 (add_func_info_disp_idx H _ _ _ _ _ _) HP). }
  apply (process_interfaces_keeps H P P_add).
  apply (add_interfaces_keeps H P P_add). intros _. exact Hok.
Qed.

Lemma func_disp_idx_in_bounds_witness :
  let data' :=
    process_interfaces method_host
      (add_interfaces method_host {| funcs := []; func_disp_cnt := 0 |} [])
      (Some method_typeinfo) [3%nat] in
  map func_name (funcs data') = ["open"; "state"; "close"]%string /\
  map func_disp_idx (funcs data') = [0; -1; 1] /\
  func_disp_cnt data' = 2%nat /\
  disp_idx_ok data'.
Proof.
  split; [reflexivity|]. split; [reflexivity|]. split; [reflexivity|].
  apply (func_disp_idx_in_bounds method_host {| funcs := []; func_disp_cnt := 0 |}
           [] (Some method_typeinfo) [3%nat]).
  - split; simpl; [tauto|]. intros i j fi fj Hi. discriminate.
  - vm_compute. discriminate.
Defined.

(** The truncation is what the bound is for: the slot counted 32768 is
    stored as -32768. *)
Example func_disp_idx_wraps :
  func_disp_idx
    (fst (fill_func_info method_host method_typeinfo (method_desc 12 72 [])
            (Z.to_nat 32768) (new_func_info 12 "close" 3%nat None)))
  = -32768.
Proof. reflexivity. Qed.

(** *** What every built table satisfies *)

(** X7.  In a cache whose tables have pairwise distinct identifiers, a
    table built by ensure_dispex_info whose identifiers are close enough
    for the subtraction in dispid_cmp is strictly sorted by identifier,
    and get_builtin_func finds every member of it by its identifier, at
    its place in the table.  This holds also for the table of a legacy
    prototype, which starts as a copy of the table of its class. *)
Theorem preprocess_dispex_data_finds_ids (H : host_t) (PT : prototype_tables)
    (fuel : nat) (st st1 : cache_state) (d : nat) (desc : dispex_static_data_t)
    (mode : compat_mode_t) (p : nat) :
  cache_tables (fun data => NoDup (table_ids data)) st ->
  info_cache st !! (d, mode) = None ->
  ensure_dispex_info H PT fuel st d desc mode = Some (st1, Some p) ->
  exists data,
    dispex_data_list st1 !! p = Some data /\
    (ids_fit (funcs (table data)) ->
     StronglySorted Z.lt (table_ids data) /\
     (forall n fi, funcs (table data) !! n = Some fi ->
        get_builtin_func data (func_id fi) = Some n)).
Proof.
  intros HQ Hc He.
  destruct (ensure_dispex_info_sorted H PT fuel st st1 d desc mode p HQ Hc He)
    as (data & Hp & Hnd & Hs).
  exists data. split; [exact Hp|].
  intros Hfit. specialize (Hs Hfit). split; [exact Hs|].
  intros n fi Hn. now apply get_builtin_func_found.
Qed.

Lemma preprocess_dispex_data_finds_ids_witness :
  exists st1 data,
    ensure_dispex_info reflect_host reflect_prototypes 2 empty_cache 100%nat
      legacy_desc COMPAT_MODE_IE9 = Some (st1, Some 0%nat) /\
    dispex_data_list st1 !! 0%nat = Some data /\
    table_ids data = [3; 5] /\
    get_builtin_func data 3 = Some 0%nat /\ get_builtin_func data 5 = Some 1%nat.
Proof.
  do 2 eexists. split; [reflexivity|]. split; [reflexivity|].
  split; [reflexivity|].
  destruct (preprocess_dispex_data_finds_ids reflect_host reflect_prototypes 2
              empty_cache _ 100%nat legacy_desc COMPAT_MODE_IE9 0%nat
              (List.Forall_nil _) eq_refl eq_refl) as (data & Hp & Hfind).
  vm_compute in Hp. injection Hp as <-.
  destruct Hfind as [_ Hfind].
  - intros a b Ha Hb. vm_compute in Ha, Hb.
    destruct Ha as [<- | [<- | []]], Hb as [<- | [<- | []]]; vm_compute;
      split; discriminate.
  - split; [exact (Hfind 0%nat _ eq_refl) | exact (Hfind 1%nat _ eq_refl)].
Defined.

(** *** The cache only grows *)

(** The resolution of a class that is no legacy prototype returns with a
    budget of one level, whatever the cache holds: either the NULL result
    or a table. *)
Lemma ensure_dispex_info_returns (H : host_t) (PT : prototype_tables)
    fuel st d desc mode :
  init_info desc <> Some init_info_legacy_prototype ->
  disp_tid desc <> 0%nat \/ iface_tids desc = [] ->
  exists st1 r, ensure_dispex_info H PT (S fuel) st d desc mode = Some (st1, r).
Proof.
  intros Hhook Hdti. simpl.
  destruct (info_cache st !! (d, mode)) as [p0|]; [eauto|].
  unfold preprocess_dispex_data.
  destruct (negb (disp_tid desc =? 0)%nat) eqn:Et.
  - destruct (get_typeinfo H (disp_tid desc)) as [hres [ti|]]; [|simpl; eauto].
    destruct (FAILED hres); [simpl; eauto|].
    destruct (init_info desc) as [[calls|]|]; [| congruence |];
      cbn [mbind option_bind]; destruct (iface_tids desc);
      cbn [mbind option_bind]; eauto.
  - apply negb_false_iff, Nat.eqb_eq in Et.
    destruct Hdti as [Hdti | ->]; [congruence|].
    destruct (init_info desc) as [[calls|]|]; [| congruence |];
      cbn [mbind option_bind]; eauto.
Qed.

(** X9.  The resolution of a class that is no legacy prototype always
    returns.  ensure_dispex_info only ever adds, also when the init_info
    hook of a legacy prototype resolves the table of its class on the
    way: the tables already in the global list stay where they are, every
    slot that held a table still holds it, the slot asked for ends up
    holding the result, and asking again returns the same table and
    changes nothing; a slot that was filled is answered without any
    change. *)
Theorem ensure_dispex_info_publishes (H : host_t) (PT : prototype_tables)
    (fuel : nat) (st : cache_state) (d : nat) (desc : dispex_static_data_t)
    (mode : compat_mode_t) :
  (init_info desc <> Some init_info_legacy_prototype ->
   disp_tid desc <> 0%nat \/ iface_tids desc = [] ->
   exists st1 r, ensure_dispex_info H PT (S fuel) st d desc mode = Some (st1, r)) /\
  (forall st1 r,
     ensure_dispex_info H PT fuel st d desc mode = Some (st1, r) ->
     cache_grows st st1 /\
     info_cache st1 !! (d, mode) = r /\
     ensure_dispex_info H PT fuel st1 d desc mode = Some (st1, r) /\
     (forall p, info_cache st !! (d, mode) = Some p -> st1 = st /\ r = Some p)).
Proof.
  split; [apply ensure_dispex_info_returns|].
  intros st1 r He.
  assert (HT : cache_tables (fun _ => True) st).
  { unfold cache_tables. apply Forall_forall. auto. }
  split.
  { apply (ensure_dispex_info_keeps H PT (fun _ => True) (fun _ => True))
      with (6 := HT) (7 := He); auto. }
  destruct fuel as [|fuel]; [discriminate|]. revert He. simpl.
  destruct (info_cache st !! (d, mode)) as [p0|] eqn:Ec.
  { intros [= <- <-]. rewrite Ec. repeat split; try reflexivity; try assumption.
    all: intros p [= <-]; auto. }
  destruct (preprocess_dispex_data H PT _ st d desc mode) as [[st2 r2]|] eqn:Ep;
    [|discriminate].
  destruct (preprocess_dispex_data_keeps H PT (fun _ => True) (fun _ => True))
    with (6 := fun st d desc mode st1 r =>
                 ensure_dispex_info_keeps H PT (fun _ => True) (fun _ => True)
                   I (fun _ _ _ _ _ _ _ => I) (fun _ _ => I) (fun _ _ _ _ => I)
                   (fun _ _ => I) fuel st d desc mode st1 r)
         (7 := HT) (8 := Ep) as (_ & _ & Hnull & _); auto.
  simpl. destruct r2 as [p|]; intros [= <- <-]; simpl.
  - rewrite !lookup_insert_eq. repeat split; try reflexivity; discriminate.
  - rewrite (Hnull eq_refl) in *. rewrite Ec, Ep. simpl.
    repeat split; try reflexivity; discriminate.
Qed.

Lemma ensure_dispex_info_publishes_witness :
  (exists st1 r,
     ensure_dispex_info reflect_host reflect_prototypes 1 empty_cache 0%nat
       (iface_desc 1%nat) COMPAT_MODE_IE9 = Some (st1, r)) /\
  exists st1 st2,
    ensure_dispex_info reflect_host reflect_prototypes 1 empty_cache 0%nat
      (iface_desc 1%nat) COMPAT_MODE_IE9 = Some (st1, Some 0%nat) /\
    ensure_dispex_info reflect_host reflect_prototypes 2 st1 100%nat legacy_desc
      COMPAT_MODE_IE9 = Some (st2, Some 1%nat) /\
    map table_ids (dispex_data_list st2) = [[65537; -2147418112]; [3; 5]; [3; 5]] /\
    info_cache st2 !! (0%nat, COMPAT_MODE_IE9) = Some 0%nat /\
    info_cache st2 !! (7%nat, COMPAT_MODE_IE9) = Some 2%nat /\
    info_cache st2 !! (100%nat, COMPAT_MODE_IE9) = Some 1%nat /\
    ensure_dispex_info reflect_host reflect_prototypes 2 st2 100%nat legacy_desc
      COMPAT_MODE_IE9 = Some (st2, Some 1%nat).
Proof.
  split.
  { apply (proj1 (ensure_dispex_info_publishes reflect_host reflect_prototypes 0
                    empty_cache 0%nat (iface_desc 1%nat) COMPAT_MODE_IE9));
      [discriminate | left; discriminate]. }
  do 2 eexists. split; [reflexivity|]. split; [reflexivity|].
  split; [reflexivity|].
  match goal with
  | |- _ /\ _ /\ _ /\ ensure_dispex_info _ _ _ ?s2 _ _ _ = _ =>
      destruct (proj2 (ensure_dispex_info_publishes reflect_host reflect_prototypes 2
                  (fst (default (empty_cache, None)
                          (ensure_dispex_info reflect_host reflect_prototypes 1
                             empty_cache 0%nat (iface_desc 1%nat) COMPAT_MODE_IE9)))
                  100%nat legacy_desc COMPAT_MODE_IE9) s2 (Some 1%nat) eq_refl)
        as ((_ & Hslots) & Hslot & Hagain & _)
  end.
  split; [apply Hslots; reflexivity|].
  split; [reflexivity|].
  split; [exact Hslot | exact Hagain].
Defined.

(** X8.  For a builtin member of an object whose tables are in order, the
    name gives the identifier and the identifier gives the name back;
    neither call touches the object, also when fdexNameEnsure is passed
    (a builtin name never reaches the dynamic store). *)
Theorem builtin_name_id_round_trip
    (names_of : dispex_static_data_vtbl_t -> dispex_name_vtbl_t)
    (fuel : nat) (h : heap) (this : objref) (This : DispatchEx)
    (p : nat) (fi : func_info_t) (grfdex : Z) :
  h !! this = Some This ->
  name_table_ok (info This) ->
  StronglySorted Z.lt (table_ids (info This)) ->
  funcs (table (info This)) !! p = Some fi ->
  get_dispid_type (func_id fi) = DISPEXPROP_BUILTIN ->
  DispatchEx_GetDispID names_of fuel h this (func_name fi) grfdex
    = Some (h, S_OK, Some (func_id fi)) /\
  DispatchEx_GetMemberName names_of h this (func_id fi)
    = Some (h, S_OK, Some (func_name fi)).
Proof.
  intros Hl Hnames Hids Hp Hty. split.
  - unfold DispatchEx_GetDispID. rewrite Hl. simpl.
    rewrite (dispex_get_builtin_id_exact names_of This p fi grfdex Hnames Hp).
    reflexivity.
  - unfold DispatchEx_GetMemberName. rewrite Hl. simpl.
    destruct (builtin_type_ranges _ Hty) as [-> ->].
    rewrite (get_builtin_func_found _ _ _ Hids Hp). simpl. now rewrite Hp.
Qed.

Lemma builtin_name_id_round_trip_witness :
  DispatchEx_GetDispID no_name_hooks 0 demo_heap 1%nat "perimeter" fdexNameEnsure
    = Some (demo_heap, S_OK, Some 1001) /\
  DispatchEx_GetMemberName no_name_hooks demo_heap 1%nat 1001
    = Some (demo_heap, S_OK, Some "perimeter"%string).
Proof.
  apply (builtin_name_id_round_trip no_name_hooks 0 demo_heap 1%nat inst_obj
           1 readonly_info fdexNameEnsure).
  - reflexivity.
  - apply widget_name_table_ok.
  - repeat constructor; vm_compute; reflexivity.
  - reflexivity.
  - reflexivity.
Defined.

(** ** The dynamic store through the IDispatchEx entry points *)

Lemma find_prop_matches l nm fl : forall k i,
  find_prop l nm fl k = Some i ->
  exists q, l !! (i - k)%nat = Some q /\ name_matches fl q nm = true.
Proof.
  induction l as [|p l IH]; intros k i Hf; simpl in Hf; [discriminate|].
  destruct (name_matches fl p nm) eqn:E.
  - injection Hf as <-. rewrite Nat.sub_diag. eauto.
  - destruct (find_prop_Some _ _ _ _ _ Hf) as [Hle _].
    destruct (IH _ _ Hf) as (q & Hq & Hm). exists q. split; [|exact Hm].
    replace (i - k)%nat with (S (i - S k)) by lia. exact Hq.
Qed.

Lemma live_slot_Some l nm fl i :
  live_slot l nm fl = Some i ->
  find_prop l nm fl 0 = Some i /\
  exists q, l !! i = Some q /\ name_matches fl q nm = true /\
            has_flag (flags q) DYNPROP_DELETED = false.
Proof.
  unfold live_slot. destruct (find_prop l nm fl 0) as [j|] eqn:Ef; [|discriminate].
  simpl. destruct (find_prop_matches _ _ _ _ _ Ef) as (q & Hq & Hm).
  rewrite Nat.sub_0_r in Hq. rewrite Hq. simpl.
  destruct (has_flag (flags q) DYNPROP_DELETED) eqn:Ed; [discriminate|].
  intros [= <-]. eauto.
Qed.

(** A lookup that may not create, on an object without prototype: the
    store is only initialised. *)
Lemma get_dynamic_prop_lookup fuel (h : heap) this This nm fl :
  h !! this = Some This -> prototype This = None ->
  refs_ok (the_props This) None = true ->
  has_flag fl fdexNameEnsure = false ->
  exists i,
    get_dynamic_prop (S fuel) h this nm fl
    = Some (<[this := fst (get_dynamic_data This)]> h,
            match live_slot (the_props This) nm fl with
            | Some _ => S_OK
            | None => DISP_E_UNKNOWNNAME
            end, i) /\
    (forall j, live_slot (the_props This) nm fl = Some j -> i = j).
Proof.
  intros Hl Hproto Hrefs Hfl.
  rewrite get_dynamic_prop_unfold, Hl. simpl.
  destruct (get_dynamic_data This) as [P1 pd] eqn:Eg. simpl.
  destruct (get_dynamic_data_Some _ _ _ Eg) as (Hdd & Hpp & _).
  destruct (the_props_init _ _ _ Eg) as [Htp _]. rewrite Htp in *.
  assert (Hl1 : <[this := P1]> h !! this = Some P1) by apply lookup_insert_eq.
  rewrite Hfl. simpl. unfold live_slot.
  destruct (find_prop (props pd) nm fl 0) as [j|] eqn:Ef; simpl.
  - destruct (find_prop_Some _ _ _ _ _ Ef) as [_ [q Hq]].
    rewrite Nat.sub_0_r in Hq. rewrite Hq. simpl.
    assert (Hfix : fixup_prop_ref_with (get_dynamic_prop fuel) (<[this := P1]> h) this j
                   = Some (<[this := P1]> h)).
    { unfold fixup_prop_ref_with. rewrite Hl1. simpl.
      rewrite (read_prop_lookup _ _ _ _ _ Hl1 Hdd), Hq. simpl.
      rewrite Hpp, Hproto.
      destruct (has_flag (flags q) DYNPROP_DELETED); [reflexivity|].
      destruct (has_flag (flags q) DYNPROP_PROTREF) eqn:Epr; [|reflexivity].
      destruct (refs_ok_lookup _ _ _ _ Hrefs Hq Epr) as (d & Hd & _).
      discriminate. }
    rewrite Hfix. simpl.
    rewrite (read_prop_lookup _ _ _ _ _ Hl1 Hdd), Hq. simpl.
    destruct (has_flag (flags q) DYNPROP_DELETED) eqn:Edel.
    + exists j. split; [reflexivity | discriminate].
    + exists j. split; [reflexivity | now intros ? [= <-]].
  - rewrite Hpp, Hproto. simpl.
    exists 0%nat. split; [reflexivity | discriminate].
Qed.

Lemma has_flag_without_ensure grfdex :
  has_flag (without_ensure grfdex) fdexNameEnsure = false.
Proof. apply has_flag_land_lnot. reflexivity. Qed.

(** X10.  On an object without prototype, DispatchEx_GetDispID without
    fdexNameEnsure never adds a slot for a name that is no builtin: it
    answers the identifier of the first slot with that name when the slot
    is live and DISP_E_UNKNOWNNAME otherwise, and leaves the slots as they
    were. *)
Theorem GetDispID_without_ensure
    (names_of : dispex_static_data_vtbl_t -> dispex_name_vtbl_t)
    (fuel : nat) (h : heap) (this : objref) (This : DispatchEx)
    (nm : string) (grfdex : Z) :
  h !! this = Some This -> prototype This = None ->
  refs_ok (the_props This) None = true ->
  dispex_get_builtin_id names_of This nm grfdex = Some (DISP_E_UNKNOWNNAME, None) ->
  has_flag grfdex fdexNameEnsure = false ->
  let This1 := fst (get_dynamic_data This) in
  DispatchEx_GetDispID names_of (S fuel) h this nm grfdex
  = Some (<[this := This1]> h,
          match live_slot (the_props This) nm grfdex with
          | Some _ => S_OK
          | None => DISP_E_UNKNOWNNAME
          end,
          dynprop_id <$> live_slot (the_props This) nm grfdex) /\
  the_props This1 = the_props This.
Proof.
  intros Hl Hproto Hrefs Hb Hfl This1. split.
  - unfold DispatchEx_GetDispID. rewrite Hl. simpl. rewrite Hb.
    change (negb (DISP_E_UNKNOWNNAME =? DISP_E_UNKNOWNNAME)) with false. simpl.
    destruct (get_dynamic_prop_lookup fuel h this This nm grfdex Hl Hproto Hrefs Hfl)
      as (i & -> & Hi). simpl.
    destruct (live_slot (the_props This) nm grfdex) as [j|]; simpl.
    + now rewrite (Hi j eq_refl).
    + reflexivity.
  - unfold This1. destruct (get_dynamic_data This) as [P1 pd] eqn:Eg.
    destruct (the_props_init _ _ _ Eg) as [H1 H2]. simpl. now rewrite H1, H2.
Qed.

Lemma GetDispID_without_ensure_witness :
  DispatchEx_GetDispID no_name_hooks 1 bag_heap 1%nat "three" fdexNameCaseSensitive
    = Some (<[1%nat := bag_obj]> bag_heap, S_OK, Some (DISPID_DYNPROP_0 + 2)) /\
  DispatchEx_GetDispID no_name_hooks 1 bag_heap 1%nat "four" fdexNameCaseSensitive
    = Some (<[1%nat := bag_obj]> bag_heap, DISP_E_UNKNOWNNAME, None).
Proof.
  split.
  - exact (proj1 (GetDispID_without_ensure no_name_hooks 0 bag_heap 1%nat bag_obj
                    "three" fdexNameCaseSensitive
                    eq_refl eq_refl eq_refl eq_refl eq_refl)).
  - exact (proj1 (GetDispID_without_ensure no_name_hooks 0 bag_heap 1%nat bag_obj
                    "four" fdexNameCaseSensitive
                    eq_refl eq_refl eq_refl eq_refl eq_refl)).
Defined.

Lemma refs_ok_no_protref l i q :
  refs_ok l None = true -> l !! i = Some q ->
  has_flag (flags q) DYNPROP_PROTREF = false.
Proof.
  intros Hr Hq. destruct (has_flag (flags q) DYNPROP_PROTREF) eqn:E; [|reflexivity].
  destruct (refs_ok_lookup _ _ _ _ Hr Hq E) as (d & Hd & _). discriminate.
Qed.

Lemma dispex_delete_prop_own (h : heap) this This d i q :
  h !! this = Some This -> dynamic_data This = Some d ->
  refs_ok (props d) None = true -> props d !! i = Some q ->
  dynprop_id i <= DISPID_DYNPROP_MAX ->
  dispex_delete_prop h this (dynprop_id i)
  = if dispex_compat_mode This <? COMPAT_MODE_IE8 then Some (h, E_NOTIMPL)
    else Some (upd_prop h this i tombstone, S_OK).
Proof.
  intros Hl Hd Hr Hq Hid.
  rewrite (dispex_delete_prop_dynamic h this This d i q Hl Hd Hq Hid).
  rewrite (refs_ok_no_protref _ _ _ Hr Hq).
  now rewrite (upd_prop_lookup _ _ _ _ _ _ Hl Hd).
Qed.

(** X11.  DispatchEx_DeleteMemberByName looks the name up without
    fdexNameEnsure, whatever the caller passed: for a name that is neither
    a builtin nor a live slot it adds nothing to the store and fails, with
    E_NOTIMPL below IE8 mode and with DISP_E_UNKNOWNNAME from IE8 mode on;
    for a live slot it marks the slot deleted from IE8 mode on and returns
    E_NOTIMPL, leaving the slot alone, below. *)
Theorem DeleteMemberByName_dynamic
    (names_of : dispex_static_data_vtbl_t -> dispex_name_vtbl_t)
    (fuel : nat) (h : heap) (this : objref) (This : DispatchEx)
    (nm : string) (grfdex : Z) :
  h !! this = Some This -> prototype This = None ->
  refs_ok (the_props This) None = true ->
  dispex_get_builtin_id names_of This nm (without_ensure grfdex)
    = Some (DISP_E_UNKNOWNNAME, None) ->
  let h1 := <[this := fst (get_dynamic_data This)]> h in
  let old := dispex_compat_mode This <? COMPAT_MODE_IE8 in
  match live_slot (the_props This) nm (without_ensure grfdex) with
  | None =>
      DispatchEx_DeleteMemberByName names_of (S fuel) h this nm grfdex
      = Some (h1, if old then E_NOTIMPL else DISP_E_UNKNOWNNAME)
  | Some i =>
      dynprop_id i <= DISPID_DYNPROP_MAX ->
      DispatchEx_DeleteMemberByName names_of (S fuel) h this nm grfdex
      = if old then Some (h1, E_NOTIMPL)
        else Some (upd_prop h1 this i tombstone, S_OK)
  end.
Proof.
  intros Hl Hproto Hrefs Hb h1 old.
  destruct (get_dynamic_prop_lookup fuel h this This nm (without_ensure grfdex)
              Hl Hproto Hrefs (has_flag_without_ensure grfdex)) as (j & Hget & Hj).
  unfold DispatchEx_DeleteMemberByName, DispatchEx_GetDispID. rewrite Hl. simpl.
  fold (without_ensure grfdex). rewrite Hb.
  change (negb (DISP_E_UNKNOWNNAME =? DISP_E_UNKNOWNNAME)) with false. simpl.
  rewrite Hget. simpl.
  destruct (live_slot (the_props This) nm (without_ensure grfdex)) as [i|] eqn:El;
    simpl.
  - intros Hid. change (FAILED S_OK) with false. simpl.
    rewrite (Hj i eq_refl).
    destruct (live_slot_Some _ _ _ _ El) as (_ & q & Hq & _ & _).
    destruct (get_dynamic_data This) as [This1 d] eqn:Eg. simpl in *.
    destruct (get_dynamic_data_Some _ _ _ Eg) as (Hdd & _ & Hinfo).
    destruct (the_props_init _ _ _ Eg) as [Htp _]. rewrite Htp in *.
    rewrite (dispex_delete_prop_own (<[this := This1]> h) this This1 d i q
               (lookup_insert_eq _ _ _) Hdd Hrefs Hq Hid).
    unfold old, dispex_compat_mode. now rewrite Hinfo.
  - reflexivity.
Qed.

Lemma DeleteMemberByName_dynamic_witness :
  DispatchEx_DeleteMemberByName no_name_hooks 1 bag_heap 1%nat "four" fdexNameEnsure
    = Some (<[1%nat := bag_obj]> bag_heap, DISP_E_UNKNOWNNAME) /\
  DispatchEx_DeleteMemberByName no_name_hooks 1 bag_heap 1%nat "one" 0
    = Some (upd_prop (<[1%nat := bag_obj]> bag_heap) 1%nat 0 tombstone, S_OK).
Proof.
  split.
  - exact (DeleteMemberByName_dynamic no_name_hooks 0 bag_heap 1%nat bag_obj
             "four" fdexNameEnsure eq_refl eq_refl eq_refl eq_refl).
  - apply (DeleteMemberByName_dynamic no_name_hooks 0 bag_heap 1%nat bag_obj
             "one" 0 eq_refl eq_refl eq_refl eq_refl).
    vm_compute. discriminate.
Defined.

Lemma has_flag_bit f m n :
  0 <= n -> Z.testbit f n = true -> Z.testbit m n = true -> has_flag f m = true.
Proof.
  intros Hn Hf Hm. unfold has_flag. apply negb_true_iff, Z.eqb_neq. intros Hz.
  assert (Hbit : Z.testbit (Z.land f m) n = true)
    by (now rewrite Z.land_spec, Hf, Hm).
  rewrite Hz, Z.bits_0 in Hbit. discriminate.
Qed.

Lemma tombstone_skipped q : skipped (tombstone q) = true.
Proof.
  apply (has_flag_bit _ _ 0); [lia | | reflexivity].
  change (flags (tombstone q)) with (Z.lor (flags q) DYNPROP_DELETED).
  rewrite Z.lor_spec. apply orb_true_r.
Qed.

Lemma dynprop_id_inj i j : dynprop_id i = dynprop_id j -> i = j.
Proof. unfold dynprop_id. lia. Qed.

(** What the enumeration of the store yields. *)
Lemma dynamic_ids_In l : forall k j,
  In (dynprop_id j) (dynamic_ids l k) ->
  (k <= j)%nat /\ exists q, l !! (j - k)%nat = Some q /\ skipped q = false.
Proof.
  induction l as [|p l IH]; intros k j; simpl; [tauto|].
  fold (skipped p). destruct (skipped p) eqn:Es.
  - intros Hin. destruct (IH _ _ Hin) as (Hle & q & Hq & Hs).
    split; [lia|]. exists q. split; [|exact Hs].
    replace (j - k)%nat with (S (j - S k)) by lia. exact Hq.
  - intros [Heq | Hin].
    + apply dynprop_id_inj in Heq as ->. split; [lia|].
      rewrite Nat.sub_diag. eauto.
    + destruct (IH _ _ Hin) as (Hle & q & Hq & Hs).
      split; [lia|]. exists q. split; [|exact Hs].
      replace (j - k)%nat with (S (j - S k)) by lia. exact Hq.
Qed.

Lemma dispex_invoke_get_deleted H ibp fuel (h : heap) this that This data i prop
    pdp caller :
  h !! this = Some This -> dynamic_data This = Some data ->
  prototype This = None ->
  props data !! i = Some prop ->
  has_flag (flags prop) DYNPROP_DELETED = true ->
  dynprop_id i <= DISPID_DYNPROP_MAX ->
  dispex_invoke H ibp fuel h this that (dynprop_id i) DISPATCH_PROPERTYGET
    pdp true caller
  = Some (h, DISP_E_MEMBERNOTFOUND, None).
Proof.
  intros Hl Hd Hproto Hp Hdel Hid.
  destruct (dynprop_id_valid i Hid) as (Hdyn & _ & Hsub).
  unfold dispex_invoke. rewrite Hl. simpl.
  unfold get_dispid_type. rewrite Hdyn, Hsub.
  rewrite (get_dynamic_data_fix _ _ Hd).
  rewrite (insert_id _ _ _ Hl).
  destruct (prop_cnt data <=? i)%nat eqn:E.
  { apply Nat.leb_le in E. apply lookup_lt_Some in Hp. unfold prop_cnt in E. lia. }
  unfold fixup_prop_ref, fixup_prop_ref_with. rewrite Hl. simpl.
  rewrite (read_prop_lookup _ _ _ _ _ Hl Hd), Hp. simpl. rewrite Hdel, Hproto.
  simpl. rewrite (read_prop_lookup _ _ _ _ _ Hl Hd), Hp. simpl. now rewrite Hdel.
Qed.

(** X12.  From IE8 mode on, DispatchEx_DeleteMemberByDispID on a slot of
    an object without prototype leaves a tombstone: a read of the
    identifier answers DISP_E_MEMBERNOTFOUND, the enumeration no longer
    yields it and a lookup of its name that may not create finds nothing,
    while DispatchEx_GetMemberName still answers the identifier with the
    name. *)
Theorem delete_leaves_tombstone (H : host_t)
    (ibp : heap -> objref -> objref -> DISPID -> Z -> DISPPARAMS -> bool ->
           option IServiceProvider -> option (heap * HRESULT * option VARIANT))
    (names_of : dispex_static_data_vtbl_t -> dispex_name_vtbl_t)
    (fuel : nat) (h : heap) (this that : objref) (This : DispatchEx)
    (d : dispex_dynamic_data_t) (i : nat) (q : dynamic_prop_t)
    (pdp : DISPPARAMS) (caller : option IServiceProvider) :
  h !! this = Some This -> dynamic_data This = Some d -> prototype This = None ->
  refs_ok (props d) None = true -> props d !! i = Some q ->
  dynprop_id i <= DISPID_DYNPROP_MAX ->
  COMPAT_MODE_IE8 <= dispex_compat_mode This ->
  let h' := upd_prop h this i tombstone in
  DispatchEx_DeleteMemberByDispID h this (dynprop_id i) = Some (h', S_OK) /\
  dispex_invoke H ibp fuel h' this that (dynprop_id i) DISPATCH_PROPERTYGET
    pdp true caller = Some (h', DISP_E_MEMBERNOTFOUND, None) /\
  DispatchEx_GetMemberName names_of h' this (dynprop_id i)
    = Some (h', S_OK, Some (name q)) /\
  exists This',
    h' !! this = Some This' /\
    ~ In (dynprop_id i) (dynamic_ids (the_props This') 0) /\
    (forall fl, find_prop (props d) (name q) fl 0 = Some i ->
       live_slot (the_props This') (name q) fl = None).
Proof.
  intros Hl Hd Hproto Hrefs Hq Hid Hmode h'.
  destruct (dynprop_id_valid i Hid) as (Hdyn & Hcus & Hsub).
  unfold h'. rewrite (upd_prop_lookup _ _ _ _ _ _ Hl Hd).
  destruct (written_state h this This d (alter tombstone i (props d)) Hd)
    as (Hl' & Hd' & Hproto' & Htp').
  set (This' := set_dynamic_data This (set_props d (alter tombstone i (props d)))) in *.
  assert (Hq' : props (set_props d (alter tombstone i (props d))) !! i
                = Some (tombstone q)).
  { simpl. now rewrite list_lookup_alter_eq, Hq. }
  split; [|split; [|split]].
  - unfold DispatchEx_DeleteMemberByDispID.
    rewrite (dispex_delete_prop_own h this This d i q Hl Hd Hrefs Hq Hid).
    destruct (Z.ltb_spec (dispex_compat_mode This) COMPAT_MODE_IE8); [lia|].
    now rewrite (upd_prop_lookup _ _ _ _ _ _ Hl Hd).
  - apply (dispex_invoke_get_deleted H ibp fuel _ this that This'
             (set_props d (alter tombstone i (props d))) i (tombstone q));
      [exact Hl' | exact Hd' | now rewrite Hproto' | exact Hq'
      | apply has_flag_lor_deleted | exact Hid].
  - unfold DispatchEx_GetMemberName, objref in *. rewrite Hl'.
    cbn [mbind option_bind]. rewrite Hcus, Hdyn, Hsub.
    rewrite (get_dynamic_data_fix _ _ Hd'), (insert_id _ _ _ Hl').
    destruct (prop_cnt _ <=? i)%nat eqn:E.
    { apply Nat.leb_le in E. apply lookup_lt_Some in Hq'. unfold prop_cnt in E. lia. }
    now rewrite Hq'.
  - exists This'. split; [exact Hl'|]. rewrite Htp'. split.
    + intros Hin. apply dynamic_ids_In in Hin as (_ & q0 & Hq0 & Hs).
      rewrite Nat.sub_0_r, list_lookup_alter_eq, Hq in Hq0. injection Hq0 as <-.
      now rewrite tombstone_skipped in Hs.
    + intros fl Hf. unfold live_slot.
      rewrite (find_prop_names _ (props d)) by (now apply map_name_alter).
      rewrite Hf. simpl. rewrite list_lookup_alter_eq, Hq. simpl.
      now rewrite has_flag_lor_deleted.
Qed.

Lemma delete_leaves_tombstone_witness :
  let h' := upd_prop bag_heap 1%nat 2 tombstone in
  DispatchEx_DeleteMemberByDispID bag_heap 1%nat (dynprop_id 2) = Some (h', S_OK) /\
  dispex_invoke widget_host no_builtin_prop 1 h' 1%nat 1%nat (dynprop_id 2)
    DISPATCH_PROPERTYGET (args []) true None
    = Some (h', DISP_E_MEMBERNOTFOUND, None) /\
  DispatchEx_GetMemberName no_name_hooks h' 1%nat (dynprop_id 2)
    = Some (h', S_OK, Some "three"%string).
Proof.
  destruct (delete_leaves_tombstone widget_host no_builtin_prop no_name_hooks 1
              bag_heap 1%nat 1%nat bag_obj
              {| buf_size := 4;
                 props := [ {| var := i4 1; name := "one"; flags := 0 |};
                            {| var := i4 2; name := "two"; flags := DYNPROP_HIDDEN |};
                            {| var := bstr "3"; name := "three"; flags := 0 |} ] |}
              2 {| var := bstr "3"; name := "three"; flags := 0 |}
              (args []) None eq_refl eq_refl eq_refl eq_refl eq_refl)
    as (Hdel & Hget & Hname & _).
  - vm_compute. discriminate.
  - vm_compute. discriminate.
  - exact (conj Hdel (conj Hget Hname)).
Defined.

Lemma name_matches_spec fl q nm :
  name_matches fl q nm = true ->
  if has_flag fl fdexNameCaseInsensitive then wcsicmp (name q) nm = 0
  else name q = nm.
Proof.
  unfold name_matches. destruct (has_flag fl fdexNameCaseInsensitive); intros Hm.
  - now apply Z.eqb_eq.
  - now apply wcscmp_eq, Z.eqb_eq.
Qed.

Lemma GetMemberName_dynamic
    (names_of : dispex_static_data_vtbl_t -> dispex_name_vtbl_t)
    (h : heap) this This d i q :
  h !! this = Some This -> dynamic_data This = Some d -> props d !! i = Some q ->
  dynprop_id i <= DISPID_DYNPROP_MAX ->
  DispatchEx_GetMemberName names_of h this (dynprop_id i) = Some (h, S_OK, Some (name q)).
Proof.
  intros Hl Hd Hq Hid.
  destruct (dynprop_id_valid i Hid) as (Hdyn & Hcus & Hsub).
  unfold DispatchEx_GetMemberName, objref in *. rewrite Hl.
  cbn [mbind option_bind]. rewrite Hcus, Hdyn, Hsub.
  rewrite (get_dynamic_data_fix _ _ Hd), (insert_id _ _ _ Hl).
  destruct (prop_cnt _ <=? i)%nat eqn:E.
  { apply Nat.leb_le in E. apply lookup_lt_Some in Hq. unfold prop_cnt in E. lia. }
  now rewrite Hq.
Qed.

(** X13.  With fdexNameEnsure, DispatchEx_GetDispID on a name that is no
    builtin always succeeds with a dynamic identifier; a live slot of that
    name is reused, and DispatchEx_GetMemberName answers the identifier
    with a name that matches the one asked for: the same name, or the
    same up to case under fdexNameCaseInsensitive. *)
Theorem GetDispID_ensure_names
    (names_of : dispex_static_data_vtbl_t -> dispex_name_vtbl_t)
    (fuel : nat) (h : heap) (this : objref) (This0 : DispatchEx)
    (nm : string) (grfdex : Z) :
  h !! this = Some This0 -> store_ok h this = true ->
  dispex_get_builtin_id names_of This0 nm grfdex = Some (DISP_E_UNKNOWNNAME, None) ->
  has_flag grfdex fdexNameEnsure = true ->
  exists h' i,
    DispatchEx_GetDispID names_of (S (S fuel)) h this nm grfdex
      = Some (h', S_OK, Some (dynprop_id i)) /\
    (forall i0, live_slot (the_props This0) nm grfdex = Some i0 -> i = i0) /\
    (dynprop_id i <= DISPID_DYNPROP_MAX ->
     exists nm',
       DispatchEx_GetMemberName names_of h' this (dynprop_id i)
         = Some (h', S_OK, Some nm') /\
       if has_flag grfdex fdexNameCaseInsensitive then wcsicmp nm' nm = 0
       else nm' = nm).
Proof.
  intros Hl Hok Hb Hfl.
  destruct (get_dynamic_prop_ensure fuel h this This0 nm grfdex Hok Hl Hfl)
    as (h' & i & Hget & This' & d' & Hl' & Hd' & _ & Hfind & _ & Hreuse).
  exists h', i. split; [|split].
  - unfold DispatchEx_GetDispID. rewrite Hl. simpl. rewrite Hb.
    change (negb (DISP_E_UNKNOWNNAME =? DISP_E_UNKNOWNNAME)) with false. simpl.
    rewrite Hget. reflexivity.
  - intros i0 Hi0. apply live_slot_Some in Hi0 as [Hf _].
    now destruct (Hreuse i0 Hf).
  - intros Hid. destruct (find_prop_matches _ _ _ _ _ Hfind) as (q & Hq & Hm).
    rewrite Nat.sub_0_r in Hq. exists (name q). split.
    + exact (GetMemberName_dynamic names_of h' this This' d' i q Hl' Hd' Hq Hid).
    + now apply name_matches_spec.
Qed.

Lemma GetDispID_ensure_names_witness :
  exists h' i,
    DispatchEx_GetDispID no_name_hooks 2 bag_heap 1%nat "Four"
      (Z.lor fdexNameEnsure fdexNameCaseInsensitive)
      = Some (h', S_OK, Some (dynprop_id i)) /\
    exists nm',
      DispatchEx_GetMemberName no_name_hooks h' 1%nat (dynprop_id i)
        = Some (h', S_OK, Some nm') /\
      wcsicmp nm' "Four" = 0.
Proof.
  destruct (GetDispID_ensure_names no_name_hooks 0 bag_heap 1%nat bag_obj "Four"
              (Z.lor fdexNameEnsure fdexNameCaseInsensitive)
              eq_refl eq_refl eq_refl eq_refl) as (h' & i & Hget & _ & Hname).
  exists h', i. split; [exact Hget|].
  assert (Hi : snd <$> DispatchEx_GetDispID no_name_hooks 2 bag_heap 1%nat "Four"
                         (Z.lor fdexNameEnsure fdexNameCaseInsensitive)
               = Some (Some (dynprop_id 3))) by (vm_compute; reflexivity).
  rewrite Hget in Hi. simpl in Hi. injection Hi as Hi.
  apply dynprop_id_inj in Hi.
  apply Hname. subst i. vm_compute. discriminate.
Defined.

(** A one-bit mask tests that bit. *)
Lemma has_flag_testbit f n : 0 <= n -> has_flag f (2 ^ n) = Z.testbit f n.
Proof.
  intros Hn. destruct (Z.testbit f n) eqn:E.
  - apply (has_flag_bit _ _ n); [exact Hn | exact E | now apply Z.pow2_bits_true].
  - unfold has_flag. apply negb_false_iff, Z.eqb_eq.
    apply Z.bits_inj'. intros m Hm.
    rewrite Z.land_spec, Z.bits_0, Z.pow2_bits_eqb by exact Hn.
    destruct (Z.eqb_spec n m) as [<- | Hne]; [now rewrite E | apply andb_false_r].
Qed.

Lemma find_prop_flags l nm fl fl' : forall k,
  has_flag fl fdexNameCaseInsensitive = has_flag fl' fdexNameCaseInsensitive ->
  find_prop l nm fl k = find_prop l nm fl' k.
Proof.
  induction l as [|p l IH]; intros k Hfl; simpl; [reflexivity|].
  unfold name_matches. rewrite Hfl, (IH (S k) Hfl). reflexivity.
Qed.

Lemma hide_flags q :
  has_flag (flags (hide q)) DYNPROP_HIDDEN = true /\
  has_flag (flags (hide q)) DYNPROP_DELETED = has_flag (flags q) DYNPROP_DELETED /\
  has_flag (flags (hide q)) DYNPROP_PROTREF = false /\
  skipped (hide q) = true.
Proof.
  change (flags (hide q))
    with (Z.land (Z.lor (flags q) (2 ^ 1)) (Z.lnot (2 ^ 2))).
  assert (Hbit1 : Z.testbit (Z.land (Z.lor (flags q) (2 ^ 1)) (Z.lnot (2 ^ 2))) 1 = true).
  { rewrite Z.land_spec, Z.lor_spec, Z.lnot_spec by lia.
    rewrite !Z.pow2_bits_eqb by lia. simpl. now rewrite orb_true_r. }
  split; [|split; [|split]].
  - change DYNPROP_HIDDEN with (2 ^ 1). now rewrite has_flag_testbit by lia.
  - change DYNPROP_DELETED with (2 ^ 0). rewrite !has_flag_testbit by lia.
    rewrite Z.land_spec, Z.lor_spec, Z.lnot_spec by lia.
    rewrite !Z.pow2_bits_eqb by lia. simpl.
    now rewrite orb_false_r, andb_true_r.
  - change DYNPROP_PROTREF with (2 ^ 2). rewrite has_flag_testbit by lia.
    rewrite Z.land_spec, Z.lnot_spec by lia.
    rewrite !Z.pow2_bits_eqb by lia. simpl. apply andb_false_r.
  - unfold skipped.
    change (flags (hide q))
      with (Z.land (Z.lor (flags q) (2 ^ 1)) (Z.lnot (2 ^ 2))).
    apply (has_flag_bit _ _ 1); [lia | exact Hbit1 | reflexivity].
Qed.

(** X14.  dispex_get_dynid with [hidden] set always succeeds with a
    dynamic identifier whose slot carries the name asked for, is flagged
    HIDDEN and is neither deleted nor a prototype reference: the property
    is found by later lookups of the name but never yielded by the
    enumeration. *)
Theorem get_dynid_hidden (fuel : nat) (h : heap) (this : objref)
    (This0 : DispatchEx) (nm : string) :
  h !! this = Some This0 -> store_ok h this = true ->
  exists h' i This' d' q,
    dispex_get_dynid (S (S fuel)) h this nm true = Some (h', S_OK, dynprop_id i) /\
    h' !! this = Some This' /\ dynamic_data This' = Some d' /\
    props d' !! i = Some q /\ name q = nm /\
    has_flag (flags q) DYNPROP_HIDDEN = true /\
    has_flag (flags q) DYNPROP_DELETED = false /\
    has_flag (flags q) DYNPROP_PROTREF = false /\
    live_slot (props d') nm 0 = Some i /\
    ~ In (dynprop_id i) (dynamic_ids (props d') 0).
Proof.
  intros Hl Hok.
  destruct (get_dynamic_prop_ensure fuel h this This0 nm fdexNameEnsure Hok Hl eq_refl)
    as (h1 & i & Hget & This1 & d1 & Hl1 & Hd1 & _ & Hfind & (q1 & Hq1 & Hlive) & _).
  destruct (written_state h1 this This1 d1 (alter hide i (props d1)) Hd1)
    as (Hl' & Hd' & _ & _).
  destruct (hide_flags q1) as (Hhid & Hdel & Hpr & Hskip).
  destruct (find_prop_matches _ _ _ _ _ Hfind) as (q0 & Hq0 & Hm).
  rewrite Nat.sub_0_r, Hq1 in Hq0. injection Hq0 as <-.
  apply name_matches_spec in Hm.
  change (has_flag fdexNameEnsure fdexNameCaseInsensitive) with false in Hm.
  exists (upd_prop h1 this i hide), i,
    (set_dynamic_data This1 (set_props d1 (alter hide i (props d1)))),
    (set_props d1 (alter hide i (props d1))), (hide q1).
  rewrite (upd_prop_lookup _ _ _ _ _ _ Hl1 Hd1).
  assert (Hq' : alter hide i (props d1) !! i = Some (hide q1))
    by (now rewrite list_lookup_alter_eq, Hq1).
  repeat split; try assumption.
  - unfold dispex_get_dynid. rewrite Hget. simpl.
    now rewrite (upd_prop_lookup _ _ _ _ _ _ Hl1 Hd1).
  - now rewrite Hdel.
  - unfold live_slot. cbn [props set_props].
    rewrite (find_prop_names _ (props d1)) by (now apply map_name_alter).
    rewrite (find_prop_flags _ _ 0 fdexNameEnsure) by reflexivity.
    rewrite Hfind. cbn [mbind option_bind]. rewrite Hq'. cbn [mbind option_bind].
    now rewrite Hdel, Hlive.
  - simpl. intros Hin. apply dynamic_ids_In in Hin as (_ & q0 & Hq0 & Hs).
    rewrite Nat.sub_0_r, Hq' in Hq0. injection Hq0 as <-. congruence.
Qed.

Lemma get_dynid_hidden_witness :
  exists h' i This' d' q,
    dispex_get_dynid 2 bag_heap 1%nat "secret" true = Some (h', S_OK, dynprop_id i) /\
    h' !! 1%nat = Some This' /\ dynamic_data This' = Some d' /\
    props d' !! i = Some q /\ name q = "secret"%string /\
    has_flag (flags q) DYNPROP_HIDDEN = true /\
    live_slot (props d') "secret" 0 = Some i /\
    ~ In (dynprop_id i) (dynamic_ids (props d') 0).
Proof.
  destruct (get_dynid_hidden 0 bag_heap 1%nat bag_obj "secret" eq_refl eq_refl)
    as (h' & i & This' & d' & q & H1 & H2 & H3 & H4 & H5 & H6 & _ & _ & H9 & H10).
  exists h', i, This', d', q. repeat split; assumption.
Defined.

(** *** One step of the enumeration over the store *)

Lemma next_dynamic_idx_spec s : forall k,
  let i := next_dynamic_idx s k in
  (k <= i <= k + length s)%nat /\
  (forall j q, (j < i - k)%nat -> s !! j = Some q -> skipped q = true) /\
  ((i < k + length s)%nat -> exists q, s !! (i - k)%nat = Some q /\ skipped q = false).
Proof.
  induction s as [|p s IH]; intros k; simpl.
  - split; [lia|]. split; [intros; lia | lia].
  - fold (skipped p). destruct (skipped p) eqn:Es.
    + destruct (IH (S k)) as (Hb & Hskip & Hnext).
      split; [lia|]. split.
      * intros [|j] q Hj Hq; simpl in Hq; [congruence|].
        apply (Hskip j q); [lia | exact Hq].
      * intros Hi. destruct Hnext as (q & Hq & Hs); [lia|].
        exists q. split; [|exact Hs].
        replace (next_dynamic_idx s (S k) - k)%nat
          with (S (next_dynamic_idx s (S k) - S k)) by lia.
        exact Hq.
    + split; [lia|]. split; [intros; lia|]. intros _.
      rewrite Nat.sub_diag. eauto.
Qed.

(** X15.  DispatchEx_GetNextDispID on a dynamic identifier answers
    DISP_E_MEMBERNOTFOUND when the identifier is beyond the store;
    otherwise it moves strictly forward, past slots that are all deleted,
    hidden or prototype references, to the next slot that is none of
    these, or reports the end with S_FALSE and DISPID_STARTENUM. *)
Theorem GetNextDispID_dynamic_step (h : heap) (this : objref) (This : DispatchEx)
    (data : dispex_dynamic_data_t) (id : DISPID) :
  h !! this = Some This -> dynamic_data This = Some data ->
  is_dynamic_dispid id = true ->
  let idx := DWORD_sub id DISPID_DYNPROP_0 in
  ((prop_cnt data <= idx)%nat ->
   DispatchEx_GetNextDispID h this id = Some (h, DISP_E_MEMBERNOTFOUND, None)) /\
  ((idx < prop_cnt data)%nat ->
   exists j,
     (idx < j <= prop_cnt data)%nat /\
     (forall m q, (idx < m < j)%nat -> props data !! m = Some q -> skipped q = true) /\
     ((j = prop_cnt data /\
       DispatchEx_GetNextDispID h this id = Some (h, S_FALSE, Some DISPID_STARTENUM)) \/
      (exists q, props data !! j = Some q /\ skipped q = false /\
         DispatchEx_GetNextDispID h this id = Some (h, S_OK, Some (dynprop_id j))))).
Proof.
  intros Hl Hd Hdyn idx.
  unfold DispatchEx_GetNextDispID. rewrite Hl. cbn [mbind option_bind].
  rewrite Hdyn, (get_dynamic_data_fix _ _ Hd), (insert_id _ _ _ Hl). fold idx.
  split.
  - intros Hge. apply Nat.leb_le in Hge. now rewrite Hge.
  - intros Hlt. destruct (prop_cnt data <=? idx)%nat eqn:E;
      [apply Nat.leb_le in E; lia|].
    unfold next_dynamic_id, prop_cnt in *.
    destruct (next_dynamic_idx_spec (drop (idx + 1) (props data)) (idx + 1))
      as (Hb & Hskip & Hnext).
    rewrite length_drop in *.
    set (j := next_dynamic_idx (drop (idx + 1) (props data)) (idx + 1)) in *.
    exists j. split; [lia|]. split.
    + intros m q Hm Hq. apply (Hskip (m - (idx + 1))%nat q); [lia|].
      rewrite lookup_drop. now replace (idx + 1 + (m - (idx + 1)))%nat with m by lia.
    + destruct (j =? length (props data))%nat eqn:Ej.
      * apply Nat.eqb_eq in Ej. left. now split.
      * apply Nat.eqb_neq in Ej. right.
        destruct Hnext as (q & Hq & Hs); [lia|].
        rewrite lookup_drop in Hq.
        replace (idx + 1 + (j - (idx + 1)))%nat with j in Hq by lia.
        exists q. now repeat split.
Qed.

Lemma GetNextDispID_dynamic_step_witness :
  DispatchEx_GetNextDispID bag_heap 1%nat (dynprop_id 5)
    = Some (bag_heap, DISP_E_MEMBERNOTFOUND, None) /\
  exists j,
    (0 < j <= 3)%nat /\
    ((j = 3%nat /\
      DispatchEx_GetNextDispID bag_heap 1%nat (dynprop_id 0)
        = Some (bag_heap, S_FALSE, Some DISPID_STARTENUM)) \/
     DispatchEx_GetNextDispID bag_heap 1%nat (dynprop_id 0)
       = Some (bag_heap, S_OK, Some (dynprop_id j))).
Proof.
  split.
  - apply (proj1 (GetNextDispID_dynamic_step bag_heap 1%nat bag_obj _ (dynprop_id 5)
                    eq_refl eq_refl eq_refl)).
    vm_compute. lia.
  - destruct (proj2 (GetNextDispID_dynamic_step bag_heap 1%nat bag_obj _ (dynprop_id 0)
                       eq_refl eq_refl eq_refl)) as (j & Hj & _ & Hres).
    + vm_compute. lia.
    + exists j. split; [exact Hj|].
      destruct Hres as [Hend | (q & _ & _ & Hnext)]; [now left | now right].
Defined.

(** X16.  Reading a deleted slot of an object consults the prototype: if
    the prototype (itself without prototype) has a live property of the
    slot's name, the slot is re-linked to it as a prototype reference and
    the read returns the prototype's value; if it has none, the read
    answers DISP_E_MEMBERNOTFOUND and the slot stays deleted. *)
Theorem deleted_slot_falls_back_to_prototype (H : host_t)
    (ibp : heap -> objref -> objref -> DISPID -> Z -> DISPPARAMS -> bool ->
           option IServiceProvider -> option (heap * HRESULT * option VARIANT))
    (fuel : nat) (h : heap) (this that p : objref) (This P : DispatchEx)
    (d : dispex_dynamic_data_t) (i : nat) (q : dynamic_prop_t)
    (pdp : DISPPARAMS) (caller : option IServiceProvider) :
  h !! this = Some This -> dynamic_data This = Some d ->
  prototype This = Some p -> p <> this ->
  h !! p = Some P -> prototype P = None -> refs_ok (the_props P) None = true ->
  props d !! i = Some q -> has_flag (flags q) DYNPROP_DELETED = true ->
  dynprop_id i <= DISPID_DYNPROP_MAX ->
  let h1 := <[p := fst (get_dynamic_data P)]> h in
  dispex_invoke H ibp (S fuel) h this that (dynprop_id i) DISPATCH_PROPERTYGET
    pdp true caller
  = match live_slot (the_props P) (name q) fdexNameCaseSensitive with
    | Some j =>
        qp ← the_props P !! j;
        Some (upd_prop h1 this i (set_protref j), S_OK, Some (var qp))
    | None => Some (h1, DISP_E_MEMBERNOTFOUND, None)
    end.
Proof.
  intros Hl Hd Hproto Hne Hlp HprotoP Hrefs Hq Hdel Hid h1.
  destruct (dynprop_id_valid i Hid) as (Hdyn & _ & Hsub).
  destruct (get_dynamic_prop_lookup fuel h p P (name q) fdexNameCaseSensitive
              Hlp HprotoP Hrefs eq_refl) as (j0 & Hrec & Hj0).
  fold h1 in Hrec.
  destruct (get_dynamic_data P) as [P1 pd] eqn:Eg.
  destruct (get_dynamic_data_Some _ _ _ Eg) as (Hpd & _ & _).
  destruct (the_props_init _ _ _ Eg) as [Htp _].
  simpl in h1.
  assert (Hl1 : h1 !! this = Some This)
    by (unfold h1; now rewrite lookup_insert_ne).
  assert (Hlp1 : h1 !! p = Some P1) by apply lookup_insert_eq.
  unfold dispex_invoke, objref in *. rewrite Hl. simpl.
  unfold get_dispid_type. rewrite Hdyn, Hsub.
  rewrite (get_dynamic_data_fix _ _ Hd), (insert_id _ _ _ Hl).
  destruct (prop_cnt d <=? i)%nat eqn:E.
  { apply Nat.leb_le in E. apply lookup_lt_Some in Hq. unfold prop_cnt in E. lia. }
  unfold fixup_prop_ref, fixup_prop_ref_with, objref in *. rewrite Hl.
  cbn [mbind option_bind].
  rewrite (read_prop_lookup _ _ _ _ _ Hl Hd), Hq. cbn [mbind option_bind].
  rewrite Hdel, Hproto, Hrec. cbn [mbind option_bind].
  rewrite Htp in *.
  destruct (live_slot (props pd) (name q) fdexNameCaseSensitive) as [j|] eqn:El.
  - rewrite (Hj0 j eq_refl).
    destruct (live_slot_Some _ _ _ _ El) as (_ & qp & Hqp & _ & Hlive).
    change (FAILED S_OK) with false. cbv iota.
    rewrite (read_prop_lookup _ _ _ _ _ Hlp1 Hpd), Hqp. cbn [mbind option_bind].
    rewrite Hlive. cbn [mbind option_bind].
    rewrite (read_prop_upd _ _ _ _ _ _ Hl1 Hd), Hq. cbn [mbind option_bind fmap option_fmap option_map].
    change (has_flag (flags (set_protref j q)) DYNPROP_DELETED) with false. cbv iota.
    unfold deref_prop, objref in *.
    rewrite (upd_prop_lookup _ _ _ _ _ _ Hl1 Hd).
    destruct (written_state h1 this This d (alter (set_protref j) i (props d)) Hd)
      as (Hl2 & Hd2 & Hproto2 & _).
    unfold objref in *. rewrite Hl2. cbn [mbind option_bind].
    rewrite (read_prop_lookup _ _ _ _ _ Hl2 Hd2).
    cbn [props set_props]. rewrite list_lookup_alter_eq, Hq.
    cbn [mbind option_bind fmap option_fmap option_map].
    change (has_flag (flags (set_protref j q)) DYNPROP_PROTREF) with true. cbv iota.
    rewrite Hproto2, Hproto. cbn [mbind option_bind].
    assert (Hlp2 : <[this := set_dynamic_data This
                               (set_props d (alter (set_protref j) i (props d)))]> h1
                   !! p = Some P1) by (now rewrite lookup_insert_ne).
    replace (V_UI4 (var (set_protref j q))) with j
      by (unfold V_UI4, V_I4; simpl; now rewrite Nat2Z.id).
    rewrite (read_prop_lookup _ _ _ _ _ Hlp2 Hpd), Hqp. reflexivity.
  - change (FAILED DISP_E_UNKNOWNNAME) with true. cbv iota.
    cbn [mbind option_bind].
    rewrite (read_prop_lookup _ _ _ _ _ Hl1 Hd), Hq. cbn [mbind option_bind].
    now rewrite Hdel.
Qed.

Lemma deleted_slot_falls_back_to_prototype_witness :
  let deleted :=
    <[1%nat := {| info := widget_info COMPAT_MODE_IE8; prototype := Some 2%nat;
                  dynamic_data :=
                    Some {| buf_size := 4;
                            props := [ {| var := VariantInit; name := "x";
                                          flags := DYNPROP_DELETED |} ] |} |}]>
      demo_heap in
  dispex_invoke widget_host no_builtin_prop 1 deleted 1%nat 1%nat (dynprop_id 0)
    DISPATCH_PROPERTYGET (args []) true None
  = Some (upd_prop (<[2%nat := proto_obj]> deleted) 1%nat 0 (set_protref 0),
          S_OK, Some (i4 5)).
Proof.
  intros deleted.
  apply (deleted_slot_falls_back_to_prototype widget_host no_builtin_prop 0
           deleted 1%nat 1%nat 2%nat _ proto_obj _ 0
           {| var := VariantInit; name := "x"; flags := DYNPROP_DELETED |}
           (args []) None eq_refl eq_refl eq_refl); try reflexivity.
  - discriminate.
  - vm_compute. discriminate.
Defined.

(** ** The call facet and the names of the facets *)

Lemma function_call_unfold (H : host_t) func fi dp res caller rest target this_obj :
  fn_info func = Some fi ->
  rgvarg dp = rest ++ [target] ->
  V_VT target = VT_DISPATCH -> V_DISPATCH target = Some this_obj ->
  function_call H func dp res caller
  = let r := invoke_builtin_function H this_obj fi (mkDISPPARAMS rest []) res caller in
    Some (illegal_if_unexpected (fst r), snd r).
Proof.
  intros Hfi Hdp Hvt Hd. unfold function_call, cArgs. rewrite Hdp, length_app. simpl.
  replace (length rest + 1 - 1)%nat with (length rest) by lia.
  rewrite nth_middle, Hd, Hvt, Hfi. simpl.
  destruct (length rest + 1 <? 1)%nat eqn:E; [apply Nat.ltb_lt in E; lia|]. simpl.
  now rewrite take_app_length.
Qed.

(** X17.  The call facet takes its first positional argument (the last
    entry of the argument array) as the object and invokes the bound
    builtin on it with the remaining arguments, reporting E_UNEXPECTED as
    CTL_E_ILLEGALFUNCTIONCALL; without arguments, or when that argument is
    not an object, it fails with CTL_E_ILLEGALFUNCTIONCALL. *)
Theorem function_call_forwards (H : host_t) (func : func_disp_t) (fi : func_info_t)
    (dp : DISPPARAMS) (res : bool) (caller : option IServiceProvider) :
  fn_info func = Some fi ->
  (rgvarg dp = [] ->
   function_call H func dp res caller = Some (CTL_E_ILLEGALFUNCTIONCALL, None)) /\
  (forall rest target,
     rgvarg dp = rest ++ [target] ->
     (V_VT target <> VT_DISPATCH \/ V_DISPATCH target = None ->
      function_call H func dp res caller = Some (CTL_E_ILLEGALFUNCTIONCALL, None)) /\
     (forall this_obj,
        V_VT target = VT_DISPATCH -> V_DISPATCH target = Some this_obj ->
        let r := invoke_builtin_function H this_obj fi (mkDISPPARAMS rest [])
                   res caller in
        function_call H func dp res caller
        = Some (if fst r =? E_UNEXPECTED then CTL_E_ILLEGALFUNCTIONCALL else fst r,
                snd r))).
Proof.
  intros Hfi. split; [|intros rest target Hdp; split].
  - intros Hdp. unfold function_call, cArgs. now rewrite Hdp.
  - intros Hbad. unfold function_call, cArgs. rewrite Hdp, length_app. simpl.
    replace (length rest + 1 - 1)%nat with (length rest) by lia.
    rewrite nth_middle.
    destruct (V_DISPATCH target) as [o|] eqn:Hd; [|reflexivity].
    destruct Hbad as [Hvt | Hnone]; [|discriminate].
    destruct (V_VT target =? VT_DISPATCH) eqn:E; [apply Z.eqb_eq in E; contradiction|].
    simpl. now rewrite orb_true_r.
  - intros this_obj Hvt Hd r.
    exact (function_call_unfold H func fi dp res caller rest target this_obj
             Hfi Hdp Hvt Hd).
Qed.

Lemma function_call_forwards_witness :
  function_call widget_host area_func (args []) true None
    = Some (CTL_E_ILLEGALFUNCTIONCALL, None) /\
  function_call widget_host area_func (args [i4 4; i4 3; i4 7]) true None
    = Some (CTL_E_ILLEGALFUNCTIONCALL, None) /\
  function_call widget_host area_func (args [i4 4; i4 3; disp widget_obj]) true None
    = Some (S_OK, Some (i4 12)).
Proof.
  split; [|split].
  - exact (proj1 (function_call_forwards widget_host area_func area_info (args [])
                    true None eq_refl) eq_refl).
  - apply (proj1 (proj2 (function_call_forwards widget_host area_func area_info
                           (args [i4 4; i4 3; i4 7]) true None eq_refl)
                    [i4 4; i4 3] (i4 7) eq_refl)).
    left. discriminate.
  - exact (proj2 (proj2 (function_call_forwards widget_host area_func area_info
                           (args [i4 4; i4 3; disp widget_obj]) true None eq_refl)
                    [i4 4; i4 3] (disp widget_obj) eq_refl)
             widget_obj eq_refl eq_refl).
Defined.

(** X18.  When the apply facet has read its array-like argument, the call
    has the outcome of the call facet on the same object with the
    elements passed one by one: the same HRESULT and the same result,
    except that apply leaves an empty result where the builtin returned
    none. *)
Theorem function_apply_as_call (H : host_t) (func : func_disp_t) (fi : func_info_t)
    (dp : DISPPARAMS) (caller : option IServiceProvider) (rest : list VARIANT)
    (target array : VARIANT) (this_obj disp : objref)
    (hl : HRESULT) (idl : DISPID) (argv : list VARIANT) :
  fn_info func = Some fi ->
  rgvarg dp = rest ++ [array; target] ->
  V_VT target = VT_DISPATCH -> V_DISPATCH target = Some this_obj ->
  Z.land (V_VT array) 49151 = VT_DISPATCH -> V_DISPATCH array = Some disp ->
  let dispex := array_dispex H disp in
  array_get_id H disp dispex "length" = (hl, idl) ->
  FAILED hl = false -> idl <> DISPID_UNKNOWN ->
  let length_read :=
    array_get H disp dispex idl (Some (mkDISPPARAMS [] [])) caller in
  FAILED (fst length_read) = false ->
  let conv :=
    if V_VT (snd length_read) =? VT_I4 then length_read
    else change_type H (snd length_read) VT_I4 caller in
  FAILED (fst conv) = false -> 0 <= V_I4 (snd conv) ->
  apply_args H disp dispex caller (Z.to_nat (V_I4 (snd conv))) 0 = inr argv ->
  exists hres v,
    function_call H func (mkDISPPARAMS (rev argv ++ [target]) []) true caller
      = Some (hres, v) /\
    function_apply H func dp true caller = Some (hres, Some (default VariantInit v)).
Proof.
  intros Hfi Hdp Hvt Hd Havt Had dispex Hlen Hhl Hidl length_read Hread conv
    Hconv Hpos Hargs.
  rewrite (function_call_unfold H func fi (mkDISPPARAMS (rev argv ++ [target]) [])
             true caller (rev argv) target this_obj Hfi eq_refl Hvt Hd).
  rewrite (function_apply_unfold H func fi dp caller rest target array this_obj disp
             Hfi Hdp Hvt Hd Havt Had).
  fold dispex. cbv zeta. rewrite Hlen, Hhl.
  destruct (idl =? DISPID_UNKNOWN) eqn:E; [apply Z.eqb_eq in E; contradiction|].
  simpl orb. cbv iota.
  fold length_read. destruct length_read as [hr len] eqn:Elr. simpl in Hread.
  rewrite Hread.
  change (if V_VT len =? VT_I4 then (hr, len) else change_type H len VT_I4 caller)
    with conv.
  rewrite Hconv. simpl orb.
  destruct (V_I4 (snd conv) <? 0) eqn:Eneg; [apply Z.ltb_lt in Eneg; lia|].
  rewrite Hargs.
  set (r := invoke_builtin_function H this_obj fi (mkDISPPARAMS (rev argv) []) true
              caller).
  exists (illegal_if_unexpected (fst r)), (snd r). split; [reflexivity|].
  now destruct (snd r).
Qed.

Lemma function_apply_as_call_witness :
  exists hres v,
    function_call widget_host area_func (args [i4 4; i4 3; disp widget_obj]) true None
      = Some (hres, v) /\
    function_apply widget_host area_func (args [disp 7%nat; disp widget_obj]) true None
      = Some (hres, Some (default VariantInit v)).
Proof.
  exact (function_apply_as_call widget_host area_func area_info
           (args [disp 7%nat; disp widget_obj]) None [] (disp widget_obj)
           (disp 7%nat) widget_obj 7%nat S_OK 100 [i4 3; i4 4]
           eq_refl eq_refl eq_refl eq_refl eq_refl eq_refl eq_refl eq_refl
           ltac:(discriminate) eq_refl eq_refl ltac:(discriminate) eq_refl).
Defined.

(** *** The names of the facets *)

(** X19.  On a wrapper of a builtin, function_get_dispid and
    function_get_name are inverse to each other: a name that is found
    gets a custom identifier that function_get_name maps to a matching
    name, and the name function_get_name gives for a 32-bit identifier is
    mapped back to that identifier; only "apply" and "call" are found. *)
Theorem function_facet_names (This : func_disp_t) (fi : func_info_t) :
  fn_info This = Some fi ->
  (forall nm flags id,
     function_get_dispid This nm flags = (S_OK, Some id) ->
     is_custom_dispid id = true /\
     exists p,
       function_get_name This id = (S_OK, Some p) /\
       (p = "apply"%string \/ p = "call"%string) /\
       if has_flag flags fdexNameCaseInsensitive then wcsicmp nm p = 0 else nm = p) /\
  (forall id p,
     -2147483648 <= id <= 2147483647 ->
     function_get_name This id = (S_OK, Some p) ->
     function_get_dispid This p fdexNameCaseSensitive = (S_OK, Some id)).
Proof.
  intros Hfi. split.
  - intros nm flags id. unfold function_get_dispid, function_get_name.
    rewrite Hfi. unfold function_props. simpl.
    set (cmp := fun p => if has_flag flags fdexNameCaseInsensitive
                         then wcsicmp nm p else wcscmp nm p).
    fold (cmp "apply"%string). fold (cmp "call"%string).
    assert (Hcmp : forall p, cmp p = 0 ->
              if has_flag flags fdexNameCaseInsensitive then wcsicmp nm p = 0
              else nm = p).
    { intros p. unfold cmp.
      destruct (has_flag flags fdexNameCaseInsensitive); [tauto|]. apply wcscmp_eq. }
    destruct (cmp "apply"%string =? 0) eqn:Ea.
    + simpl. intros [= <-]. split; [reflexivity|].
      exists "apply"%string. split; [reflexivity|]. split; [now left|].
      apply Hcmp. now apply Z.eqb_eq.
    + simpl. destruct (cmp "call"%string =? 0) eqn:Ec; simpl; [|discriminate].
      intros [= <-]. split; [reflexivity|].
      exists "call"%string. split; [reflexivity|]. split; [now right|].
      apply Hcmp. now apply Z.eqb_eq.
  - intros id p Hid. unfold function_get_dispid, function_get_name.
    rewrite Hfi. rewrite orb_false_r.
    destruct (length function_props <=? DWORD_sub id MSHTML_DISPID_CUSTOM_MIN)%nat
      eqn:E; [discriminate|].
    apply Nat.leb_gt in E. simpl in E.
    assert (Hidx : Z.of_nat (DWORD_sub id MSHTML_DISPID_CUSTOM_MIN)
                   = (id - MSHTML_DISPID_CUSTOM_MIN) mod 4294967296)
      by (unfold DWORD_sub; rewrite Z2Nat.id;
          [reflexivity | apply Z.mod_pos_bound; lia]).
    assert (Hsmall : id - MSHTML_DISPID_CUSTOM_MIN
                     = Z.of_nat (DWORD_sub id MSHTML_DISPID_CUSTOM_MIN)).
    { rewrite Hidx. unfold MSHTML_DISPID_CUSTOM_MIN in *.
      destruct (Z_lt_le_dec id 1610612736).
      - exfalso.
        assert ((id - 1610612736) mod 4294967296 = id - 1610612736 + 4294967296).
        { symmetry. apply Z.mod_unique with (q := -1); lia. }
        lia.
      - rewrite Z.mod_small; lia. }
    intros [= <-].
    destruct (DWORD_sub id MSHTML_DISPID_CUSTOM_MIN) as [|[|n]] eqn:En; [| |lia].
    + simpl in *. replace id with (MSHTML_DISPID_CUSTOM_MIN + 0) by lia. reflexivity.
    + simpl in *. replace id with (MSHTML_DISPID_CUSTOM_MIN + 1) by lia. reflexivity.
Qed.

Lemma function_facet_names_witness :
  function_get_dispid area_func "CALL" fdexNameCaseInsensitive
    = (S_OK, Some (MSHTML_DISPID_CUSTOM_MIN + 1)) /\
  function_get_name area_func (MSHTML_DISPID_CUSTOM_MIN + 1) = (S_OK, Some "call"%string) /\
  function_get_dispid area_func "call" fdexNameCaseSensitive
    = (S_OK, Some (MSHTML_DISPID_CUSTOM_MIN + 1)).
Proof.
  split; [reflexivity|]. split; [reflexivity|].
  apply (proj2 (function_facet_names area_func area_info eq_refl)
           (MSHTML_DISPID_CUSTOM_MIN + 1) "call"%string).
  - vm_compute. split; discriminate.
  - reflexivity.
Defined.

(** ** Dynamic identifiers are stable *)

Lemma slots_kept_refl (h : heap) : slots_kept h h.
Proof. intros o O Ho. exists O. repeat split; [exact Ho | reflexivity]. Qed.

Lemma slots_kept_trans (h1 h2 h3 : heap) :
  slots_kept h1 h2 -> slots_kept h2 h3 -> slots_kept h1 h3.
Proof.
  intros H12 H23 o O Ho.
  destruct (H12 o O Ho) as (O2 & Ho2 & Hi2 & Hp2 & Hn2).
  destruct (H23 o O2 Ho2) as (O3 & Ho3 & Hi3 & Hp3 & Hn3).
  exists O3. repeat split; try congruence. now transitivity (map name (the_props O2)).
Qed.

Lemma slots_kept_insert (h : heap) this This This' :
  h !! this = Some This -> info This' = info This ->
  prototype This' = prototype This ->
  map name (the_props This) `prefix_of` map name (the_props This') ->
  slots_kept h (<[this := This']> h).
Proof.
  intros Hl Hi Hp Hn o O Ho. destruct (Nat.eq_dec o this) as [-> | Hne].
  - rewrite Hl in Ho. injection Ho as <-. exists This'.
    now rewrite lookup_insert_eq.
  - exists O. rewrite lookup_insert_ne by congruence.
    repeat split; [exact Ho | reflexivity].
Qed.

Lemma the_props_set This d : the_props (set_dynamic_data This d) = props d.
Proof. reflexivity. Qed.

Lemma slots_kept_init (h : heap) this This0 :
  h !! this = Some This0 ->
  slots_kept h (<[this := fst (get_dynamic_data This0)]> h).
Proof.
  intros Hl. destruct (get_dynamic_data This0) as [This data] eqn:Eg.
  destruct (get_dynamic_data_Some _ _ _ Eg) as (_ & Hp & Hi).
  destruct (the_props_init _ _ _ Eg) as [H1 H2].
  apply (slots_kept_insert h this This0); try assumption.
  simpl. now rewrite H1, H2.
Qed.

Lemma slots_kept_upd (h : heap) this i f :
  (forall q, name (f q) = name q) -> slots_kept h (upd_prop h this i f).
Proof.
  intros Hf. unfold upd_prop.
  destruct (h !! this) as [This|] eqn:Hl; [|apply slots_kept_refl].
  destruct (dynamic_data This) as [d|] eqn:Hd; [|apply slots_kept_refl].
  apply (slots_kept_insert h this This); try reflexivity; [exact Hl|].
  rewrite the_props_set, (the_props_Some _ _ Hd). simpl.
  now rewrite (map_name_alter f i (props d) Hf).
Qed.

Lemma slots_kept_append (h : heap) this This d nm pp :
  h !! this = Some This -> dynamic_data This = Some d ->
  slots_kept h (<[this := set_dynamic_data This (append_prop d nm pp)]> h).
Proof.
  intros Hl Hd.
  apply (slots_kept_insert h this This); try reflexivity; [exact Hl|].
  rewrite the_props_set, (the_props_Some _ _ Hd). simpl.
  rewrite map_app. now apply prefix_app_r.
Qed.

Lemma fixup_keeps_slots (rec : heap -> objref -> string -> Z -> dynres)
    (h h' : heap) this i :
  (forall h0 p nm fl h1 hres j,
     rec h0 p nm fl = Some (h1, hres, j) -> slots_kept h0 h1) ->
  fixup_prop_ref_with rec h this i = Some h' -> slots_kept h h'.
Proof.
  intros Hrec. unfold fixup_prop_ref_with.
  destruct (h !! this) as [This|]; [|discriminate]. simpl.
  destruct (read_prop h this i) as [prop|]; [|discriminate]. simpl.
  destruct (has_flag (flags prop) DYNPROP_DELETED).
  - destruct (prototype This) as [p|]; [|intros [= <-]; apply slots_kept_refl].
    destruct (rec h p (name prop) fdexNameCaseSensitive) as [[[h1 hres] j]|] eqn:Er;
      [|discriminate]. simpl.
    pose proof (Hrec _ _ _ _ _ _ _ Er) as H1.
    destruct (FAILED hres); [now intros [= <-]|].
    destruct (read_prop h1 p j) as [pp|]; [|discriminate]. simpl.
    destruct (has_flag (flags pp) DYNPROP_DELETED); intros [= <-]; [exact H1|].
    apply (slots_kept_trans _ h1); [exact H1|]. now apply slots_kept_upd.
  - destruct (has_flag (flags prop) DYNPROP_PROTREF);
      [|intros [= <-]; apply slots_kept_refl].
    destruct (prototype This) as [p|]; [|discriminate]. simpl.
    destruct (read_prop h p (V_UI4 (var prop))) as [pp|]; [|discriminate]. simpl.
    destruct (has_flag (flags pp) DYNPROP_DELETED); intros [= <-];
      [now apply slots_kept_upd | apply slots_kept_refl].
Qed.

Lemma get_dynamic_prop_keeps_slots : forall fuel (h : heap) this nm fl h' hres i,
  get_dynamic_prop fuel h this nm fl = Some (h', hres, i) -> slots_kept h h'.
Proof.
  induction fuel as [|fuel IH]; intros h this nm fl h' hres i; [discriminate|].
  rewrite get_dynamic_prop_unfold.
  destruct (h !! this) as [This0|] eqn:Hl; [|discriminate]. simpl.
  pose proof (slots_kept_init h this This0 Hl) as Hinit.
  destruct (get_dynamic_data This0) as [This data] eqn:Eg. simpl in Hinit.
  destruct (get_dynamic_data_Some _ _ _ Eg) as (Hdd & _ & _).
  set (h0 := <[this := This]> h) in *.
  assert (Hl0 : h0 !! this = Some This) by apply lookup_insert_eq.
  assert (Hcreate : forall (h1 : heap) pp r,
            slots_kept h0 h1 ->
            (if negb (has_flag fl fdexNameEnsure) && negb (bool_decide (is_Some pp))
             then Some (h1, DISP_E_UNKNOWNNAME, 0%nat)
             else This' ← h1 !! this;
                  d ← dynamic_data This';
                  Some (<[this := set_dynamic_data This' (append_prop d nm pp)]> h1,
                        S_OK, prop_cnt d)) = Some r ->
            slots_kept h r.1.1).
  { intros h1 pp r H01.
    destruct (negb (has_flag fl fdexNameEnsure) && negb (bool_decide (is_Some pp))).
    - intros [= <-]. simpl. now apply (slots_kept_trans _ h0).
    - destruct (h1 !! this) as [This'|] eqn:Hl1; [|discriminate]. simpl.
      destruct (dynamic_data This') as [d|] eqn:Hd; [|discriminate]. simpl.
      intros [= <-]. simpl.
      apply (slots_kept_trans _ h0); [exact Hinit|].
      apply (slots_kept_trans _ h1); [exact H01|].
      now apply slots_kept_append. }
  destruct (find_prop (props data) nm fl 0) as [k|].
  - destruct (fixup_prop_ref_with (get_dynamic_prop fuel) h0 this k) as [h1|] eqn:Ef;
      [|discriminate]. simpl.
    pose proof (fixup_keeps_slots _ _ _ _ _ IH Ef) as H01.
    destruct (read_prop h1 this k) as [prop|]; [|discriminate]. simpl.
    assert (Hh1 : slots_kept h h1) by (now apply (slots_kept_trans _ h0)).
    destruct (has_flag (flags prop) DYNPROP_DELETED); [|now intros [= <- _ _]].
    destruct (has_flag fl fdexNameEnsure); intros [= <- _ _]; [|exact Hh1].
    apply (slots_kept_trans _ h1); [exact Hh1|]. now apply slots_kept_upd.
  - destruct (prototype This) as [p|].
    + destruct (get_dynamic_prop fuel h0 p nm fdexNameCaseSensitive)
        as [[[h1 hr] j]|] eqn:Er; [|discriminate]. simpl.
      pose proof (IH _ _ _ _ _ _ _ Er) as H01.
      destruct (hr =? DISP_E_UNKNOWNNAME).
      { intros Hc. exact (Hcreate h1 None (h', hres, i) H01 Hc). }
      destruct (FAILED hr).
      { intros [= <- _ _]. now apply (slots_kept_trans _ h0). }
      destruct (read_prop h1 p j) as [pp|]; [|discriminate]. simpl.
      destruct (has_flag (flags pp) DYNPROP_DELETED); intros Hc.
      * exact (Hcreate h1 None (h', hres, i) H01 Hc).
      * exact (Hcreate h1 (Some j) (h', hres, i) H01 Hc).
    + intros Hc. exact (Hcreate h0 None (h', hres, i) (slots_kept_refl _) Hc).
Qed.

Lemma dispex_delete_prop_keeps_slots (h h' : heap) this id hres :
  dispex_delete_prop h this id = Some (h', hres) -> slots_kept h h'.
Proof.
  unfold dispex_delete_prop.
  destruct (h !! this) as [This0|] eqn:Hl; [|discriminate]. simpl.
  destruct (if is_custom_dispid id then _ else None) as [del|].
  { intros [= <- _]. apply slots_kept_refl. }
  destruct (dispex_compat_mode This0 <? COMPAT_MODE_IE8).
  { intros [= <- _]. apply slots_kept_refl. }
  destruct (get_dispid_type id).
  - intros [= <- _]. apply slots_kept_refl.
  - pose proof (slots_kept_init h this This0 Hl) as Hinit.
    destruct (get_dynamic_data This0) as [This1 data]. simpl in Hinit.
    destruct (prop_cnt data <=? DWORD_sub id DISPID_DYNPROP_0)%nat;
      [now intros [= <- _]|].
    destruct (props data !! DWORD_sub id DISPID_DYNPROP_0) as [prop|];
      [|discriminate]. simpl.
    destruct (negb (has_flag (flags prop) DYNPROP_PROTREF));
      intros [= <- _]; [|exact Hinit].
    apply (slots_kept_trans _ _ _ Hinit). now apply slots_kept_upd.
  - destruct (get_builtin_func (info This0) id); intros [= <- _];
      apply slots_kept_refl.
Qed.

Lemma GetDispID_keeps_slots
    (names_of : dispex_static_data_vtbl_t -> dispex_name_vtbl_t)
    fuel (h h' : heap) this nm grfdex hres pid :
  DispatchEx_GetDispID names_of fuel h this nm grfdex = Some (h', hres, pid) ->
  slots_kept h h'.
Proof.
  unfold DispatchEx_GetDispID.
  destruct (h !! this) as [This|]; [|discriminate]. simpl.
  destruct (dispex_get_builtin_id names_of This nm grfdex) as [[hr p]|];
    [|discriminate]. simpl.
  destruct (negb (hr =? DISP_E_UNKNOWNNAME)).
  { intros [= <- _ _]. apply slots_kept_refl. }
  destruct (get_dynamic_prop fuel h this nm grfdex) as [[[h1 hr1] i]|] eqn:Eg;
    [|discriminate]. simpl.
  pose proof (get_dynamic_prop_keeps_slots _ _ _ _ _ _ _ _ Eg).
  destruct (FAILED hr1); now intros [= <- _ _].
Qed.

(** X20.  Dynamic identifiers are stable.  Whatever DispatchEx_GetDispID,
    dispex_get_dynid, dispex_get_dprop_ref, DispatchEx_DeleteMemberByName
    and dispex_delete_prop do to the heap, every object keeps its table
    and prototype and every slot keeps its place and its name: the store
    only grows at the end, so an identifier handed out earlier still
    denotes the property of the same name. *)
Theorem dynamic_identifiers_stable
    (names_of : dispex_static_data_vtbl_t -> dispex_name_vtbl_t)
    (fuel : nat) (h : heap) (this : objref) (nm : string) (grfdex : Z) :
  (forall h' hres pid,
     DispatchEx_GetDispID names_of fuel h this nm grfdex = Some (h', hres, pid) ->
     slots_kept h h') /\
  (forall hidden h' hres id,
     dispex_get_dynid fuel h this nm hidden = Some (h', hres, id) ->
     slots_kept h h') /\
  (forall alloc h' hres i,
     dispex_get_dprop_ref fuel h this nm alloc = Some (h', hres, i) ->
     slots_kept h h') /\
  (forall h' hres,
     DispatchEx_DeleteMemberByName names_of fuel h this nm grfdex = Some (h', hres) ->
     slots_kept h h') /\
  (forall id h' hres,
     dispex_delete_prop h this id = Some (h', hres) -> slots_kept h h').
Proof.
  split; [|split; [|split; [|split]]].
  - intros h' hres pid. apply GetDispID_keeps_slots.
  - intros hidden h' hres id. unfold dispex_get_dynid.
    destruct (get_dynamic_prop fuel h this nm fdexNameEnsure) as [[[h1 hr1] i]|] eqn:Eg;
      [|discriminate]. simpl.
    pose proof (get_dynamic_prop_keeps_slots _ _ _ _ _ _ _ _ Eg) as H1.
    destruct (FAILED hr1); intros [= <- _ _]; [exact H1|].
    apply (slots_kept_trans _ _ _ H1). now apply slots_kept_upd.
  - intros alloc h' hres i. unfold dispex_get_dprop_ref.
    destruct (get_dynamic_prop fuel h this nm _) as [[[h1 hr1] j]|] eqn:Eg;
      [|discriminate]. simpl.
    pose proof (get_dynamic_prop_keeps_slots _ _ _ _ _ _ _ _ Eg) as H1.
    destruct (FAILED hr1); intros [= <- _ _]; [exact H1|].
    apply (slots_kept_trans _ _ _ H1). now apply slots_kept_upd.
  - intros h' hres. unfold DispatchEx_DeleteMemberByName.
    destruct (h !! this) as [This|]; [|discriminate]. simpl.
    destruct (DispatchEx_GetDispID names_of fuel h this nm _) as [[[h1 hr1] pid]|] eqn:Eg;
      [|discriminate]. simpl.
    pose proof (GetDispID_keeps_slots _ _ _ _ _ _ _ _ _ Eg) as H1.
    destruct (FAILED hr1); [now intros [= <- _]|].
    destruct pid as [id|]; [|discriminate]. simpl. intros Hdel.
    apply (slots_kept_trans _ _ _ H1).
    exact (dispex_delete_prop_keeps_slots _ _ _ _ _ Hdel).
  - intros id h' hres. apply dispex_delete_prop_keeps_slots.
Qed.

Lemma dynamic_identifiers_stable_witness :
  slots_kept bag_heap (upd_prop (<[1%nat := bag_obj]> bag_heap) 1%nat 0 tombstone).
Proof.
  apply (proj1 (proj2 (proj2 (proj2 (dynamic_identifiers_stable no_name_hooks 1
                                       bag_heap 1%nat "one" 0))))
           _ S_OK).
  vm_compute. reflexivity.
Defined.

(** ** How add_func_info merges and drops FUNCDESCs *)

Lemma find_func_In l id nm : forall k i info,
  find_func l id nm k = Some (i, info) ->
  In info l /\ (func_id info = id \/ func_name info = nm).
Proof.
  induction l as [|info0 l IH]; intros k i info Hf; simpl in Hf; [discriminate|].
  destruct (func_id info0 =? id) eqn:Eid; simpl in Hf.
  - injection Hf as <- <-. apply Z.eqb_eq in Eid. split; [now left | now left].
  - destruct (wcscmp (func_name info0) nm =? 0) eqn:En.
    + injection Hf as <- <-. apply Z.eqb_eq, wcscmp_eq in En.
      split; [now left | now right].
    + destruct (IH _ _ _ Hf) as [Hin Hm]. split; [now right | exact Hm].
Qed.

Lemma find_func_is_None l id nm : forall k,
  (forall info, In info l -> func_id info <> id /\ func_name info <> nm) ->
  find_func l id nm k = None.
Proof.
  induction l as [|info0 l IH]; intros k Hno; simpl; [reflexivity|].
  destruct (Hno info0 (or_introl eq_refl)) as [Hid Hnm].
  destruct (func_id info0 =? id) eqn:Eid; [apply Z.eqb_eq in Eid; contradiction|].
  destruct (wcscmp (func_name info0) nm =? 0) eqn:En;
    [apply Z.eqb_eq, wcscmp_eq in En; contradiction|].
  simpl. apply IH. intros info Hin. apply Hno. now right.
Qed.

Lemma find_func_last l id nm e : forall k,
  find_func l id nm k = None -> func_id e = id ->
  find_func (l ++ [e]) id nm k = Some ((k + length l)%nat, e).
Proof.
  induction l as [|info0 l IH]; intros k Hf He; simpl in *.
  - rewrite He, Z.eqb_refl. simpl. now rewrite Nat.add_0_r.
  - destruct ((func_id info0 =? id) || (wcscmp (func_name info0) nm =? 0));
      [discriminate|].
    rewrite (IH (S k) Hf He). do 2 f_equal. lia.
Qed.

(** The name add_func_info gives a FUNCDESC: the override of the hook, or
    the documented name of a member that is not restricted. *)
Lemma add_func_info_named (H : host_t) data t desc dti hk name_override nm :
  (name_override = Some nm \/
   (name_override = None /\
    has_flag (wFuncFlags desc) FUNCFLAG_FRESTRICTED = false /\
    FAILED (fst (GetDocumentation dti (memid desc))) = false /\
    snd (GetDocumentation dti (memid desc)) = nm)) ->
  add_func_info H data t desc dti hk name_override
  = match find_func (funcs data) (memid desc) nm 0 with
    | Some (i, info) =>
        if negb (tid info =? t)%nat then data
        else
          let '(info', cnt) := fill_func_info H dti desc (func_disp_cnt data) info in
          {| funcs := <[i := info']> (funcs data); func_disp_cnt := cnt |}
    | None =>
        let '(info', cnt) :=
          fill_func_info H dti desc (func_disp_cnt data)
            (new_func_info (memid desc) nm t hk) in
        {| funcs := funcs data ++ [info']; func_disp_cnt := cnt |}
    end.
Proof.
  unfold add_func_info. intros [-> | (-> & Hr & Hf & Hn)]; [reflexivity|].
  rewrite Hr. destruct (GetDocumentation dti (memid desc)) as [hres n].
  simpl in *. now rewrite Hf, Hn.
Qed.

(** X21.  A member that is already in the table from another interface is
    not overridden: a FUNCDESC whose identifier or name is carried only
    by entries of other interfaces leaves the table as it is.  So does a
    restricted FUNCDESC without a name override, and one whose name the
    type information cannot give. *)
Theorem add_func_info_first_interface_wins (H : host_t) (data : func_table)
    (t : tid_t) (desc : FUNCDESC) (dti : ITypeInfo)
    (hk : option dispex_hook_invoke_t) (name_override : option string) :
  (name_override = None ->
   has_flag (wFuncFlags desc) FUNCFLAG_FRESTRICTED = true \/
   FAILED (fst (GetDocumentation dti (memid desc))) = true ->
   add_func_info H data t desc dti hk name_override = data) /\
  (forall nm,
     name_override = Some nm \/
     (name_override = None /\
      has_flag (wFuncFlags desc) FUNCFLAG_FRESTRICTED = false /\
      FAILED (fst (GetDocumentation dti (memid desc))) = false /\
      snd (GetDocumentation dti (memid desc)) = nm) ->
     (exists info, In info (funcs data) /\
                   (func_id info = memid desc \/ func_name info = nm)) ->
     (forall info, In info (funcs data) ->
        func_id info = memid desc \/ func_name info = nm -> tid info <> t) ->
     add_func_info H data t desc dti hk name_override = data).
Proof.
  split.
  - intros -> Hskip. unfold add_func_info.
    destruct (has_flag (wFuncFlags desc) FUNCFLAG_FRESTRICTED); [reflexivity|].
    destruct Hskip as [Hc | Hf]; [discriminate|].
    destruct (GetDocumentation dti (memid desc)) as [hres n]. simpl in Hf.
    now rewrite Hf.
  - intros nm Hnm (info0 & Hin0 & Hm0) Hother.
    rewrite (add_func_info_named H data t desc dti hk name_override nm Hnm).
    destruct (find_func (funcs data) (memid desc) nm 0) as [[i info]|] eqn:Ef.
    + destruct (find_func_In _ _ _ _ _ _ Ef) as [Hin Hm].
      destruct (Nat.eqb_spec (tid info) t) as [Heq | Hne]; [|reflexivity].
      exfalso. exact (Hother info Hin Hm Heq).
    + exfalso. destruct Hm0 as [Hid | Hname].
      * apply (find_func_None _ _ _ _ Ef). rewrite <- Hid. now apply in_map.
      * apply (find_func_None_name _ _ _ _ Ef). rewrite <- Hname. now apply in_map.
Qed.

Lemma add_func_info_first_interface_wins_witness :
  add_func_info reflect_host
    {| funcs := [readonly_info]; func_disp_cnt := 0 |} 2%nat
    (getter_desc 1001 64) (make_typeinfo []) None (Some "girth"%string)
  = {| funcs := [readonly_info]; func_disp_cnt := 0 |}.
Proof.
  apply (proj2 (add_func_info_first_interface_wins reflect_host
                  {| funcs := [readonly_info]; func_disp_cnt := 0 |} 2%nat
                  (getter_desc 1001 64) (make_typeinfo []) None (Some "girth"%string))
           "girth"%string).
  - now left.
  - exists readonly_info. split; [now left | now left].
  - intros info [<- | []] _. discriminate.
Defined.

(** X22.  A property declared by a getter FUNCDESC followed by a setter
    FUNCDESC of the same identifier in one interface takes one entry of
    the table: the entry carries both native slots and the property type,
    counts as no method, and is marked hidden exactly when one of the two
    FUNCDESCs is. *)
Theorem accessor_pair_is_one_entry (H : host_t) (data : func_table) (t : tid_t)
    (dti : ITypeInfo) (dg dp : FUNCDESC) (param : ELEMDESC) (nm : string) :
  invkind dg = DISPATCH_PROPERTYGET -> invkind dp = DISPATCH_PROPERTYPUT ->
  memid dp = memid dg -> lprgelemdescParam dp = [param] ->
  elemdescFunc_vt dg = tdesc_vt param ->
  has_flag (wFuncFlags dg) FUNCFLAG_FRESTRICTED = false ->
  has_flag (wFuncFlags dp) FUNCFLAG_FRESTRICTED = false ->
  FAILED (fst (GetDocumentation dti (memid dg))) = false ->
  snd (GetDocumentation dti (memid dg)) = nm ->
  (forall info, In info (funcs data) ->
     func_id info <> memid dg /\ func_name info <> nm) ->
  exists entry,
    add_func_info H (add_func_info H data t dg dti None None) t dp dti None None
    = {| funcs := funcs data ++ [entry]; func_disp_cnt := func_disp_cnt data |} /\
    func_id entry = memid dg /\ func_name entry = nm /\ tid entry = t /\
    get_vtbl_off entry = oVft dg / sizeof_ptr H /\
    put_vtbl_off entry = oVft dp / sizeof_ptr H /\
    prop_vt entry = tdesc_vt param /\
    func_disp_idx entry
    = if has_flag (wFuncFlags dp) FUNCFLAG_FHIDDEN ||
         has_flag (wFuncFlags dg) FUNCFLAG_FHIDDEN
      then -2 else -1.
Proof.
  intros Hg Hp Hid Hparam Hvt Hrg Hrp Hdoc Hnm Hfresh.
  assert (Hnone : find_func (funcs data) (memid dg) nm 0 = None)
    by (now apply find_func_is_None).
  rewrite (add_func_info_named H data t dg dti None None nm) by (right; auto).
  rewrite Hnone.
  unfold fill_func_info at 1. rewrite Hg.
  change (has_flag DISPATCH_PROPERTYGET DISPATCH_METHOD) with false.
  change (has_flag DISPATCH_PROPERTYGET (Z.lor DISPATCH_PROPERTYPUT DISPATCH_PROPERTYGET))
    with true.
  change (has_flag DISPATCH_PROPERTYGET DISPATCH_PROPERTYGET) with true.
  change (has_flag DISPATCH_PROPERTYGET DISPATCH_PROPERTYPUT) with false.
  cbv iota beta zeta.
  set (e1 := set_accessor _ _ _ _ _).
  rewrite (add_func_info_named H _ t dp dti None None nm)
    by (right; rewrite Hid; auto).
  cbn [funcs func_disp_cnt].
  rewrite Hid, (find_func_last _ _ _ e1 0 Hnone eq_refl).
  replace (tid e1) with t by reflexivity. rewrite Nat.eqb_refl. cbn [negb].
  unfold fill_func_info. rewrite Hp.
  change (has_flag DISPATCH_PROPERTYPUT DISPATCH_METHOD) with false.
  change (has_flag DISPATCH_PROPERTYPUT (Z.lor DISPATCH_PROPERTYPUT DISPATCH_PROPERTYGET))
    with true.
  change (has_flag DISPATCH_PROPERTYPUT DISPATCH_PROPERTYGET) with false.
  change (has_flag DISPATCH_PROPERTYPUT DISPATCH_PROPERTYPUT) with true.
  cbv iota beta zeta. rewrite Hparam. cbn [hd].
  eexists. split.
  - rewrite insert_app_r_alt by (simpl; lia).
    replace (0 + length (funcs data) - length (funcs data))%nat with 0%nat by lia.
    reflexivity.
  - subst e1. cbn. repeat split.
    destruct (has_flag (wFuncFlags dp) FUNCFLAG_FHIDDEN); [reflexivity|].
    now destruct (has_flag (wFuncFlags dg) FUNCFLAG_FHIDDEN).
Qed.

Lemma accessor_pair_is_one_entry_witness :
  exists entry,
    add_func_info reflect_host
      (add_func_info reflect_host {| funcs := []; func_disp_cnt := 0 |} 2%nat
         (getter_desc 5 64) (make_typeinfo []) None None)
      2%nat (setter_desc 5 72) (make_typeinfo []) None None
    = {| funcs := [entry]; func_disp_cnt := 0 |} /\
    func_name entry = "height"%string /\
    get_vtbl_off entry = 8 /\ put_vtbl_off entry = 9 /\
    prop_vt entry = VT_I4 /\ func_disp_idx entry = -1.
Proof.
  destruct (accessor_pair_is_one_entry reflect_host
              {| funcs := []; func_disp_cnt := 0 |} 2%nat (make_typeinfo [])
              (getter_desc 5 64) (setter_desc 5 72) i4_param "height"
              eq_refl eq_refl eq_refl eq_refl eq_refl eq_refl eq_refl eq_refl eq_refl)
    as (entry & Hadd & _ & Hn & _ & Hg & Hp & Hvt & Hidx).
  - intros info [].
  - exists entry. repeat split; assumption.
Defined.

(** ** What the enumeration yields can be named *)

Lemma builtin_ids_In (l : list func_info_t) x :
  In x (builtin_ids l) ->
  exists fi, In fi l /\ func_id fi = x /\ func_disp_idx fi = -1.
Proof.
  induction l as [|fi l IH]; simpl; [tauto|].
  destruct (func_disp_idx fi =? -1) eqn:E.
  - intros [<- | Hin].
    + exists fi. apply Z.eqb_eq in E. auto.
    + destruct (IH Hin) as (fj & ? & ? & ?). exists fj. auto.
  - intros Hin. destruct (IH Hin) as (fj & ? & ? & ?). exists fj. auto.
Qed.

Lemma dynamic_ids_elem l : forall k x,
  In x (dynamic_ids l k) ->
  exists j, x = dynprop_id j /\ (k <= j < k + length l)%nat /\
            exists q, l !! (j - k)%nat = Some q /\ skipped q = false.
Proof.
  induction l as [|p l IH]; intros k x; simpl; [tauto|].
  fold (skipped p). destruct (skipped p) eqn:Es.
  - intros Hin. destruct (IH _ _ Hin) as (j & -> & Hj & q & Hq & Hs).
    exists j. split; [reflexivity|]. split; [lia|]. exists q. split; [|exact Hs].
    replace (j - k)%nat with (S (j - S k)) by lia. exact Hq.
  - intros [<- | Hin].
    + exists k. split; [reflexivity|]. split; [lia|].
      rewrite Nat.sub_diag. eauto.
    + destruct (IH _ _ Hin) as (j & -> & Hj & q & Hq & Hs).
      exists j. split; [reflexivity|]. split; [lia|]. exists q. split; [|exact Hs].
      replace (j - k)%nat with (S (j - S k)) by lia. exact Hq.
Qed.

Lemma dynamic_ids_NoDup l : forall k, List.NoDup (dynamic_ids l k).
Proof.
  induction l as [|p l IH]; intros k; simpl; [constructor|].
  destruct (has_flag (flags p) dynamic_skip_mask); [apply IH|].
  constructor; [|apply IH].
  intros Hin. apply dynamic_ids_elem in Hin as (j & Hj & Hr & _).
  apply dynprop_id_inj in Hj. lia.
Qed.

Lemma sorted_lt_NoDup (l : list Z) : StronglySorted Z.lt l -> List.NoDup l.
Proof.
  intros Hs. induction Hs as [|x l Hs IH Hx]; constructor; [|exact IH].
  intros Hin. rewrite List.Forall_forall in Hx. specialize (Hx x Hin). lia.
Qed.

Lemma GetMemberName_slot
    (names_of : dispex_static_data_vtbl_t -> dispex_name_vtbl_t)
    (h : heap) this This j q :
  h !! this = Some This -> the_props This !! j = Some q ->
  dynprop_id j <= DISPID_DYNPROP_MAX ->
  DispatchEx_GetMemberName names_of h this (dynprop_id j)
  = Some (<[this := fst (get_dynamic_data This)]> h, S_OK, Some (name q)).
Proof.
  intros Hl Hq Hid.
  destruct (dynprop_id_valid j Hid) as (Hdyn & Hcus & Hsub).
  unfold DispatchEx_GetMemberName, objref in *. rewrite Hl.
  cbn [mbind option_bind]. rewrite Hcus, Hdyn, Hsub.
  unfold the_props in Hq. destruct (get_dynamic_data This) as [This1 data].
  simpl in *.
  destruct (prop_cnt data <=? j)%nat eqn:E.
  { apply Nat.leb_le in E. apply lookup_lt_Some in Hq. unfold prop_cnt in E. lia. }
  now rewrite Hq.
Qed.

(** X23.  On an object whose table is sorted and whose class enumerates
    no custom identifiers, the enumeration from DISPID_STARTENUM yields
    no identifier twice, and DispatchEx_GetMemberName answers every
    identifier it yields with a name. *)
Theorem enumerated_ids_have_names
    (names_of : dispex_static_data_vtbl_t -> dispex_name_vtbl_t)
    (h : heap) (this : objref) (This : DispatchEx) (fuel : nat) :
  h !! this = Some This ->
  StronglySorted Z.lt (table_ids (info This)) ->
  (forall fi, In fi (funcs (table (info This))) -> func_disp_idx fi = -1 ->
     get_dispid_type (func_id fi) = DISPEXPROP_BUILTIN /\
     func_id fi <> DISPID_STARTENUM) ->
  custom_ids This [] ->
  dynprop_id (length (the_props This)) <= DISPID_DYNPROP_MAX + 1 ->
  let ids := builtin_ids (funcs (table (info This))) ++
             dynamic_ids (the_props This) 0 in
  ((length ids < fuel)%nat ->
   enumerate fuel h this DISPID_STARTENUM = Some (ids, enum_end)) /\
  List.NoDup ids /\
  forall id, In id ids ->
    exists h1 nm,
      DispatchEx_GetMemberName names_of h this id = Some (h1, S_OK, Some nm).
Proof.
  intros Hl Hs Hids Hcus Hmax ids. unfold ids.
  assert (Hdynid : forall x, In x (dynamic_ids (the_props This) 0) ->
            exists j q, x = dynprop_id j /\ the_props This !! j = Some q /\
                        dynprop_id j <= DISPID_DYNPROP_MAX).
  { intros x Hx. apply dynamic_ids_elem in Hx as (j & -> & Hj & q & Hq & _).
    rewrite Nat.sub_0_r in Hq. exists j, q. repeat split; [exact Hq|].
    unfold dynprop_id in *. lia. }
  split; [|split].
  - intros Hfuel.
    exact (enumerate_all h this This [] Hl Hmax Hs Hids Hcus fuel Hfuel).
  - apply NoDup_ListNoDup, NoDup_app. split; [|split].
    + apply NoDup_ListNoDup, sorted_lt_NoDup, builtin_ids_sorted, Hs.
    + intros x Hb Hd. apply list_elem_of_In in Hb, Hd.
      apply builtin_ids_In in Hb as (fi & Hin & <- & Hidx).
      destruct (Hids fi Hin Hidx) as [Hty _].
      destruct (builtin_type_ranges _ Hty) as [Hnd _].
      destruct (Hdynid _ Hd) as (j & q & Hj & _ & Hr).
      destruct (dynprop_id_valid j Hr) as (Hdyn & _). congruence.
    + apply NoDup_ListNoDup, dynamic_ids_NoDup.
  - intros id Hin. apply in_app_or in Hin as [Hb | Hd].
    + apply builtin_ids_In in Hb as (fi & Hin & <- & Hidx).
      destruct (Hids fi Hin Hidx) as [Hty _].
      destruct (builtin_type_ranges _ Hty) as [Hnd Hnc].
      apply list_elem_of_In, list_elem_of_lookup in Hin as [n Hn].
      exists h, (func_name fi).
      unfold DispatchEx_GetMemberName, objref in *. rewrite Hl.
      cbn [mbind option_bind]. rewrite Hnc, Hnd.
      rewrite (get_builtin_func_found _ _ _ Hs Hn). now rewrite Hn.
    + destruct (Hdynid _ Hd) as (j & q & -> & Hq & Hr).
      eexists _, _. exact (GetMemberName_slot names_of h this This j q Hl Hq Hr).
Qed.

Lemma enumerated_ids_have_names_witness :
  enumerate 4 bag_heap 1%nat DISPID_STARTENUM
    = Some ([1001; dynprop_id 0; dynprop_id 2], enum_end) /\
  forall id, In id [1001; dynprop_id 0; dynprop_id 2] ->
    exists h1 nm,
      DispatchEx_GetMemberName no_name_hooks bag_heap 1%nat id
        = Some (h1, S_OK, Some nm).
Proof.
  destruct (enumerated_ids_have_names no_name_hooks bag_heap 1%nat bag_obj 4)
    as (Henum & _ & Hnames).
  - reflexivity.
  - repeat constructor; vm_compute; reflexivity.
  - intros fi [<- | [<- | []]]; vm_compute; intros; split; congruence.
  - reflexivity.
  - vm_compute. discriminate.
  - split; [|exact Hnames]. apply Henum. vm_compute. lia.
Defined.

(** ** Hooks that take a member out of the table *)

Lemma add_func_info_ids_sub (H : host_t) data t desc dti hk name_override x :
  In x (map func_id (funcs (add_func_info H data t desc dti hk name_override))) ->
  In x (map func_id (funcs data)) \/ x = memid desc.
Proof.
  unfold add_func_info.
  destruct (match name_override with Some n => Some n | None => _ end) as [nm|];
    [|now left].
  destruct (find_func (funcs data) (memid desc) nm 0) as [[i info]|] eqn:Ef.
  - destruct (negb (tid info =? t)%nat); [now left|].
    pose proof (fill_func_info_id H dti desc (func_disp_cnt data) info) as Hid.
    destruct (fill_func_info H dti desc (func_disp_cnt data) info) as [info' cnt].
    simpl in *.
    apply find_func_Some in Ef as [_ Hl]. rewrite Nat.sub_0_r in Hl.
    rewrite list_fmap_insert, Hid.
    rewrite list_insert_id by (now rewrite list_lookup_fmap, Hl). now left.
  - pose proof (fill_func_info_id H dti desc (func_disp_cnt data)
                  (new_func_info (memid desc) nm t hk)) as Hid.
    destruct (fill_func_info H dti desc (func_disp_cnt data) _) as [info' cnt].
    simpl in *. rewrite map_app, in_app_iff. simpl. rewrite Hid.
    intros [Hin | [<- | []]]; [now left | now right].
Qed.

Lemma process_funcdescs_ids_sub (H : host_t) t dti hs descs x : forall data,
  In x (map func_id (funcs (process_funcdescs H data t dti (Some hs) descs))) ->
  In x (map func_id (funcs data)) \/
  match find_hook hs x with
  | Some k => is_Some (hook_invoke k) \/ is_Some (hook_name k)
  | None => True
  end.
Proof.
  induction descs as [|d descs IH]; intros data; simpl; [now left|].
  intros Hin. apply IH in Hin as [Hin | Hok]; [|now right].
  destruct (find_hook hs (memid d)) as [k|] eqn:Ek.
  - destruct (bool_decide (is_Some (hook_invoke k)) ||
              bool_decide (is_Some (hook_name k))) eqn:Eb; [|now left].
    apply add_func_info_ids_sub in Hin as [Hin | ->]; [now left|].
    right. rewrite Ek.
    apply orb_true_iff in Eb as [Eb | Eb]; apply bool_decide_eq_true in Eb; auto.
  - apply add_func_info_ids_sub in Hin as [Hin | ->]; [now left|].
    right. now rewrite Ek.
Qed.

(** X24.  A hook entry that names an identifier and has neither an invoke
    function nor a name takes the member out: after
    dispex_info_add_interface with such a hook the table has no member
    with that identifier, unless it had one before. *)
Theorem disabled_hook_removes_member (H : host_t) (info : func_table) (t : tid_t)
    (hs : list dispex_hook_t) (id : DISPID) (k : dispex_hook_t) :
  find_hook hs id = Some k -> hook_invoke k = None -> hook_name k = None ->
  ~ In id (map func_id (funcs info)) ->
  ~ In id (map func_id (funcs (dispex_info_add_interface H info t (Some hs)))).
Proof.
  intros Hk Hinv Hname Hfresh Hin.
  unfold dispex_info_add_interface, process_interface in Hin.
  destruct (get_typeinfo H t) as [hres [typeinfo|]]; [|contradiction].
  destruct (FAILED hres); [contradiction|]. simpl in Hin.
  apply process_funcdescs_ids_sub in Hin as [Hin | Hok]; [contradiction|].
  rewrite Hk, Hinv, Hname in Hok.
  destruct Hok as [[? Hc] | [? Hc]]; discriminate.
Qed.

Lemma disabled_hook_removes_member_witness :
  let hooks := [{| hook_dispid := 3; hook_invoke := None; hook_name := None |}] in
  map func_id (funcs (dispex_info_add_interface reflect_host
                        {| funcs := []; func_disp_cnt := 0 |} 2%nat None))
    = [5; 3] /\
  ~ In 3 (map func_id (funcs (dispex_info_add_interface reflect_host
                                {| funcs := []; func_disp_cnt := 0 |} 2%nat
                                (Some hooks)))).
Proof.
  intros hooks. split; [reflexivity|].
  apply (disabled_hook_removes_member reflect_host _ 2%nat hooks 3
           {| hook_dispid := 3; hook_invoke := None; hook_name := None |});
    try reflexivity.
  intros [].
Defined.
